(** * Relaynet private gateway: parcel collection, courier sync, registration

    A shallow embedding of the synchronisation core of the private gateway:

    - the parcel collection server (handshake, delivery stream, ACK
      processor and the per-session [CollectionTracker]);
    - the courier-sync subprocess ([runCourierSync] and the functions it
      calls: [generateCCA], [collectCargo], [deliverCargo],
      [makeCargoMessageStream]);
    - the courier-sync manager ([streamStatus], [sync] and the mapping of
      the errors of the subprocess);
    - the configuration store;
    - the UI-side status stream ([synchronizeWithCourier]) and the settings
      page;
    - the gateway registrar.

    JavaScript objects used as dictionaries are finite maps, [Buffer]s are
    lists of bytes, dates are milliseconds since the epoch, and the effects
    of a function are the list of external calls it makes, in order. *)

From Stdlib Require Import ZArith List Bool.
From stdpp Require Import gmap strings list fin_maps.
Import ListNotations.

Open Scope string_scope.
Open Scope list_scope.

(** ** Common data *)

Definition Buffer := list Byte.byte.

(** JavaScript truthiness of a string: every string but the empty one. *)
Definition truthy (s : string) : bool := negb (String.eqb s "").

(** A certificate, as far as the gateway looks into it: the two derived
    identifiers ([calculateSubjectPrivateAddress], [getIssuerPrivateAddress])
    and its DER serialisation. *)
Record Certificate := {
  subjectPrivateAddress : string;
  issuerPrivateAddress : string;
  certificateSerialized : Buffer
}.

(** Modelled from the spec: the [WebSocketCode] enum is declared in
    [../websocket], which is not part of the sources at hand; section 6 of
    the specification gives its two members and their numbers. *)
Inductive WebSocketCode := NORMAL | CANNOT_ACCEPT.

Definition webSocketCodeNumber (c : WebSocketCode) : Z :=
  match c with
  | NORMAL => 1000
  | CANNOT_ACCEPT => 1008
  end%Z.

(** ** The collection tracker *)

Module CollectionTracker.

(** The object [pendingParcelKeyByDeliveryId] starts as [{}]: the finite
    map holds the properties that it owns, from delivery-IDs to parcel keys,
    and its prototype is [Object.prototype]. *)
Record t := {
  wereAllParcelsDelivered : bool;
  pendingParcelKeyByDeliveryId : gmap string string
}.

(** [new CollectionTracker()] *)
Definition new : t :=
  {| wereAllParcelsDelivered := false; pendingParcelKeyByDeliveryId := ∅ |}.

(** [Object.keys(this.pendingParcelKeyByDeliveryId).length === 0], guarded by
    the flag. *)
Definition isCollectionComplete (tr : t) : bool :=
  wereAllParcelsDelivered tr
  && Nat.eqb (size (pendingParcelKeyByDeliveryId tr)) 0.

Definition markAllParcelsDelivered (tr : t) : t :=
  {| wereAllParcelsDelivered := true;
     pendingParcelKeyByDeliveryId := pendingParcelKeyByDeliveryId tr |}.

(** The assignment creates or overwrites an own property. The one name at
    which it would not, [__proto__], whose setter ignores a string, is no
    delivery-ID: the delivery-IDs assigned are values of [uuid()]. *)
Definition addPendingACK (deliveryId parcelKey : string) (tr : t) : t :=
  {| wereAllParcelsDelivered := wereAllParcelsDelivered tr;
     pendingParcelKeyByDeliveryId :=
       <[deliveryId := parcelKey]> (pendingParcelKeyByDeliveryId tr) |}.

(** The names of the properties of [Object.prototype], which every object
    made by [{}] inherits. *)
Definition inheritedNames : list string :=
  ["constructor"; "toString"; "toLocaleString"; "valueOf"; "hasOwnProperty";
   "isPrototypeOf"; "propertyIsEnumerable"; "__defineGetter__";
   "__defineSetter__"; "__lookupGetter__"; "__lookupSetter__"; "__proto__"].

Definition inherited (name : string) : bool :=
  existsb (String.eqb name) inheritedNames.

(** What a read of a property of the object gives: the parcel key stored
    under an own property, or what [Object.prototype] has under the name, a
    function or, at [__proto__], the prototype itself. *)
Inductive Value :=
| ParcelKey (parcelKey : string)
| Inherited (name : string).

(** [this.pendingParcelKeyByDeliveryId[deliveryId]]; [None] is
    [undefined]. An own property shadows an inherited one. *)
Definition read (deliveryId : string) (tr : t) : option Value :=
  match pendingParcelKeyByDeliveryId tr !! deliveryId with
  | Some k => Some (ParcelKey k)
  | None => if inherited deliveryId then Some (Inherited deliveryId) else None
  end.

(** Every value but [undefined] and the empty string is truthy. *)
Definition truthyValue (v : option Value) : bool :=
  match v with
  | Some (ParcelKey k) => truthy k
  | Some (Inherited _) => true
  | None => false
  end.

(** The result is the value read from the object; [delete] is called only
    under [if (parcelKey)], that is when the value read is truthy, and
    removes the property if the object owns it: it leaves an inherited
    property where it is. *)
Definition popPendingParcelKey (deliveryId : string) (tr : t)
  : option Value * t :=
  let parcelKey := read deliveryId tr in
  if truthyValue parcelKey
  then (parcelKey,
        {| wereAllParcelsDelivered := wereAllParcelsDelivered tr;
           pendingParcelKeyByDeliveryId :=
             delete deliveryId (pendingParcelKeyByDeliveryId tr) |})
  else (parcelKey, tr).

End CollectionTracker.

(** ** The parcel collection session *)

Module Collection.

Import CollectionTracker.

(** What a session does to the outside, in order: frames written to the
    connection, calls on the parcel store, and [socket.close].
    [DeleteParcel] is [parcelStore.delete] called with a parcel key, and
    [DeleteInherited] the same call with the value that the object of the
    tracker inherits under a name. *)
Inductive Action :=
| SendChallenge (nonce : Buffer)
| StreamActiveBoundForEndpoints (endpointAddresses : list string)
    (keepAlive : bool)
| SendParcelDelivery (deliveryId : string) (parcelSerialized : Buffer)
| DeleteParcel (parcelKey : string)
| DeleteInherited (name : string)
| Close (code : WebSocketCode) (reason : option string).

(** The two loops of a session run as cooperative tasks on one tracker. Each
    event below resumes one of them at an [await] and runs it to its next
    [await]:
    - [ParcelKeyRetrieved]: the key stream has yielded [parcelKey],
      [parcelStore.retrieve] has resolved to [parcelSerialized] ([None] is
      [null]) and, when a parcel is sent, [uuid()] returns [deliveryId];
    - [ParcelKeysEnded]: the key stream is exhausted;
    - [AckReceived]: the ACK loop has read the next inbound message;
    - [ParcelDeleted]: the [parcelStore.delete] the ACK loop awaits has
      resolved;
    - [AcksEnded]: the ACK loop has read the end of the inbound stream (the
      client has closed the connection).
    An event for a loop that is not at the matching [await] changes nothing.
    The calls on the parcel store are taken to resolve: what the handler does
    when one of them throws (it logs an unexpected error) is not part of the
    model.

    When the ACK loop leaves its [for await], the inbound iterator is
    returned and the connection stream is destroyed with it, as it is when
    the client closes the connection: the sink of the connection writes no
    further frame and returns the delivery generator at its next [yield].
    The generator is not interrupted before that [yield]: a key stream that
    ends first still takes it past its loop. *)
Inductive Event :=
| ParcelKeyRetrieved (parcelKey : string) (parcelSerialized : option Buffer)
    (deliveryId : string)
| ParcelKeysEnded
| AckReceived (ackMessage : string)
| ParcelDeleted
| AcksEnded.

Inductive DeliveryLoop := Delivering | DeliveryReturned.
Inductive AckLoop := AwaitingAck | AwaitingDeletion | AckReturned.

Record Session := {
  tracker : CollectionTracker.t;
  deliveryLoop : DeliveryLoop;
  ackLoop : AckLoop
}.

Definition newSession : Session :=
  {| tracker := CollectionTracker.new;
     deliveryLoop := Delivering;
     ackLoop := AwaitingAck |}.

Definition unknownAckReason : string :=
  "Unknown delivery id sent as acknowledgement".

(** [makeDeliveryStream]: one iteration of its [for await] loop, for the
    key retrieved. Once the ACK loop has left, the delivery yielded is
    dropped and the generator returned. *)
Definition makeDeliveryStream_body (parcelKey : string)
    (parcelSerialized : option Buffer) (deliveryId : string) (s : Session)
  : Session * list Action :=
  match deliveryLoop s with
  | DeliveryReturned => (s, [])
  | Delivering =>
      match parcelSerialized with
      | Some parcel =>
          let tr := addPendingACK deliveryId parcelKey (tracker s) in
          match ackLoop s with
          | AckReturned =>
              ({| tracker := tr;
                  deliveryLoop := DeliveryReturned;
                  ackLoop := AckReturned |},
               [])
          | _ =>
              ({| tracker := tr;
                  deliveryLoop := Delivering;
                  ackLoop := ackLoop s |},
               [SendParcelDelivery deliveryId parcel])
          end
      | None => (s, [])
      end
  end.

(** [makeDeliveryStream]: what follows the loop, once the keys are
    exhausted. *)
Definition makeDeliveryStream_end (s : Session) : Session * list Action :=
  match deliveryLoop s with
  | DeliveryReturned => (s, [])
  | Delivering =>
      let tr := markAllParcelsDelivered (tracker s) in
      ({| tracker := tr; deliveryLoop := DeliveryReturned; ackLoop := ackLoop s |},
       if isCollectionComplete tr then [Close NORMAL None] else [])
  end.

(** [makeACKProcessor]: the body of its loop, from the message read to the
    [await] on the deletion, or to the [break]. The test [if (!parcelKey)]
    is by cases on the value popped: of a parcel key, only the empty one is
    falsy, and an inherited value is truthy. *)
Definition makeACKProcessor_body (ackMessage : string) (s : Session)
  : Session * list Action :=
  match ackLoop s with
  | AwaitingAck =>
      let '(parcelKey, tr) := popPendingParcelKey ackMessage (tracker s) in
      match parcelKey with
      | Some (ParcelKey k) =>
          if truthy k
          then ({| tracker := tr; deliveryLoop := deliveryLoop s;
                   ackLoop := AwaitingDeletion |},
                [DeleteParcel k])
          else ({| tracker := tr; deliveryLoop := deliveryLoop s;
                   ackLoop := AckReturned |},
                [Close CANNOT_ACCEPT (Some unknownAckReason)])
      | Some (Inherited name) =>
          ({| tracker := tr; deliveryLoop := deliveryLoop s;
              ackLoop := AwaitingDeletion |},
           [DeleteInherited name])
      | None =>
          ({| tracker := tr; deliveryLoop := deliveryLoop s;
              ackLoop := AckReturned |},
           [Close CANNOT_ACCEPT (Some unknownAckReason)])
      end
  | _ => (s, [])
  end.

(** [makeACKProcessor]: the rest of the body, from the resolution of the
    deletion to the next read, or to the [break]. *)
Definition makeACKProcessor_resume (s : Session) : Session * list Action :=
  match ackLoop s with
  | AwaitingDeletion =>
      if isCollectionComplete (tracker s)
      then ({| tracker := tracker s; deliveryLoop := deliveryLoop s;
               ackLoop := AckReturned |},
            [Close NORMAL None])
      else ({| tracker := tracker s; deliveryLoop := deliveryLoop s;
               ackLoop := AwaitingAck |},
            [])
  | _ => (s, [])
  end.

(** [makeACKProcessor]: its loop finds the inbound stream ended. *)
Definition makeACKProcessor_end (s : Session) : Session * list Action :=
  match ackLoop s with
  | AwaitingAck =>
      ({| tracker := tracker s; deliveryLoop := deliveryLoop s;
          ackLoop := AckReturned |},
       [])
  | _ => (s, [])
  end.

Definition step (s : Session) (e : Event) : Session * list Action :=
  match e with
  | ParcelKeyRetrieved parcelKey parcelSerialized deliveryId =>
      makeDeliveryStream_body parcelKey parcelSerialized deliveryId s
  | ParcelKeysEnded => makeDeliveryStream_end s
  | AckReceived ackMessage => makeACKProcessor_body ackMessage s
  | ParcelDeleted => makeACKProcessor_resume s
  | AcksEnded => makeACKProcessor_end s
  end.

Fixpoint run (s : Session) (events : list Event) : Session * list Action :=
  match events with
  | [] => (s, [])
  | e :: rest =>
      let '(s1, out1) := step s e in
      let '(s2, out2) := run s1 rest in
      (s2, out1 ++ out2)
  end.

(** *** What a run shows *)

(** The parcel keys passed to [parcelStore.delete], in order. *)
Fixpoint deletions (out : list Action) : list string :=
  match out with
  | [] => []
  | DeleteParcel parcelKey :: rest => parcelKey :: deletions rest
  | _ :: rest => deletions rest
  end.

(** The names under which an inherited value was passed to
    [parcelStore.delete], in order. *)
Fixpoint inheritedDeletions (out : list Action) : list string :=
  match out with
  | [] => []
  | DeleteInherited name :: rest => name :: inheritedDeletions rest
  | _ :: rest => inheritedDeletions rest
  end.

(** The calls of [socket.close], in order. *)
Fixpoint closes (out : list Action) : list (WebSocketCode * option string) :=
  match out with
  | [] => []
  | Close code reason :: rest => (code, reason) :: closes rest
  | _ :: rest => closes rest
  end.

(** The delivery-IDs that [uuid()] has returned for the parcels retrieved. *)
Fixpoint issuedDeliveryIds (events : list Event) : list string :=
  match events with
  | [] => []
  | ParcelKeyRetrieved _ (Some _) deliveryId :: rest =>
      deliveryId :: issuedDeliveryIds rest
  | _ :: rest => issuedDeliveryIds rest
  end.

(** The messages the client sends as acknowledgements. *)
Fixpoint acknowledgements (events : list Event) : list string :=
  match events with
  | [] => []
  | AckReceived ackMessage :: rest => ackMessage :: acknowledgements rest
  | _ :: rest => acknowledgements rest
  end.

(** The parcel keys for which the store has handed out a parcel. *)
Fixpoint retrievedParcelKeys (events : list Event) : list string :=
  match events with
  | [] => []
  | ParcelKeyRetrieved parcelKey (Some _) _ :: rest =>
      parcelKey :: retrievedParcelKeys rest
  | _ :: rest => retrievedParcelKeys rest
  end.

(** How many times [x] occurs in [l]. *)
Definition occurrences (x : string) (l : list string) : nat :=
  length (List.filter (String.eqb x) l).

(** The flag of the tracker is set only once the delivery loop has
    returned. *)
Definition deliveryFlagSound (s : Session) : Prop :=
  wereAllParcelsDelivered (tracker s) = true → deliveryLoop s = DeliveryReturned.

(** Counting, for a parcel key, its pending entries in the tracker. *)
Definition pendingFor (k : string) (s : Session) : nat :=
  size (filter (λ entry : string * string, entry.2 = k)
          (pendingParcelKeyByDeliveryId (tracker s))).

(** The parcel deliveries sent, in order: the delivery-ID and the parcel of
    each. *)
Fixpoint sends (out : list Action) : list (string * Buffer) :=
  match out with
  | [] => []
  | SendParcelDelivery deliveryId parcelSerialized :: rest =>
      (deliveryId, parcelSerialized) :: sends rest
  | _ :: rest => sends rest
  end.

(** The deliveries that the retrievals call for: the delivery-ID issued and
    the parcel retrieved, for each key whose parcel is there. *)
Fixpoint retrievedDeliveries (events : list Event) : list (string * Buffer) :=
  match events with
  | [] => []
  | ParcelKeyRetrieved _ (Some parcelSerialized) deliveryId :: rest =>
      (deliveryId, parcelSerialized) :: retrievedDeliveries rest
  | _ :: rest => retrievedDeliveries rest
  end.

(** The number of closes with [CANNOT_ACCEPT]. *)
Fixpoint refusals (out : list Action) : nat :=
  match out with
  | [] => 0
  | Close CANNOT_ACCEPT _ :: rest => S (refusals rest)
  | _ :: rest => refusals rest
  end.

(** The closes that the two loops of a session can still make: one by the
    delivery loop when it ends, one by the ACK loop when it leaves. *)
Definition closesLeft (s : Session) : nat :=
  (match deliveryLoop s with Delivering => 1 | DeliveryReturned => 0 end
   + match ackLoop s with AckReturned => 0 | _ => 1 end)%nat.

Definition refusalsLeft (s : Session) : nat :=
  match ackLoop s with AckReturned => 0 | _ => 1 end.

(** A parcel held by the store: its key, its serialisation, and the
    delivery-ID that [uuid()] returns for it. *)
Record StoredParcel := {
  storedKey : string;
  storedParcel : Buffer;
  storedDeliveryId : string
}.

(** The store hands over each of [parcels], in order. *)
Definition retrievals (parcels : list StoredParcel) : list Event :=
  map (fun p => ParcelKeyRetrieved (storedKey p) (Some (storedParcel p))
                  (storedDeliveryId p))
    parcels.

(** The client acknowledges each of [deliveryIds], in order, and the store
    resolves each deletion before the next acknowledgement is read. *)
Fixpoint acknowledgedInTurn (deliveryIds : list string) : list Event :=
  match deliveryIds with
  | [] => []
  | d :: rest => AckReceived d :: ParcelDeleted :: acknowledgedInTurn rest
  end.

(** The tracker after the parcels have been sent: each delivery-ID mapped
    to its parcel key. *)
Definition trackedParcels (parcels : list StoredParcel)
    (pending : gmap string string) : gmap string string :=
  foldl (fun m p => <[storedDeliveryId p := storedKey p]> m) pending parcels.

(** *** Handshake *)

Section Handshake.

(** [HandshakeResponse.deserialize]: the nonce signatures of the response, or
    [None] when it throws. *)
Variable deserializeHandshakeResponse : Buffer → option (list Buffer).

(** [DETACHED_SIGNATURE_TYPES.NONCE.verify(signature, nonce, trusted)]: the
    certificate of the signer, or [None] when it throws. *)
Variable verifyNonceSignature :
  Buffer → Buffer → list Certificate → option Certificate.

(** The loop of [verifyNonceSignatures]; [endpointCertificates] is the array
    the loop pushes to. *)
Fixpoint verifyNonceSignaturesFrom (endpointCertificates : list Certificate)
    (nonceSignatures : list Buffer) (nonce : Buffer)
    (ownCertificates : list Certificate) : option (list Certificate) :=
  match nonceSignatures with
  | [] => Some endpointCertificates
  | nonceSignature :: rest =>
      match verifyNonceSignature nonceSignature nonce ownCertificates with
      | Some endpointCertificate =>
          verifyNonceSignaturesFrom (endpointCertificates ++ [endpointCertificate])
            rest nonce ownCertificates
      | None => None
      end
  end.

Definition verifyNonceSignatures := verifyNonceSignaturesFrom [].

(** [doHandshake], for the message the [once('message')] listener receives:
    [nonce] is the value of [uuid.bin()], [ownCertificates] the result of
    [fetchNodeCertificates()]. The result is what the promise resolves to
    ([None] is [null]) and the actions taken. *)
Definition doHandshake (nonce : Buffer) (ownCertificates : list Certificate)
    (message : Buffer) : option (list string) * list Action :=
  match deserializeHandshakeResponse message with
  | None =>
      (None,
       [SendChallenge nonce;
        Close CANNOT_ACCEPT (Some "Malformed handshake response")])
  | Some nonceSignatures =>
      if Nat.eqb (length nonceSignatures) 0
      then
        (None,
         [SendChallenge nonce;
          Close CANNOT_ACCEPT
            (Some "Handshake response does not include any signatures")])
      else
        match verifyNonceSignatures nonceSignatures nonce ownCertificates with
        | None =>
            (None,
             [SendChallenge nonce;
              Close CANNOT_ACCEPT
                (Some "Handshake response includes malformed/invalid signature(s)")])
        | Some endpointCertificates =>
            (Some (map subjectPrivateAddress endpointCertificates),
             [SendChallenge nonce])
        end
  end.

(** [requestHeaders['x-relaynet-streaming-mode'] !== 'close-upon-completion'];
    a header that is absent reads as [undefined]. *)
Definition keepAliveOf (requestHeaders : gmap string string) : bool :=
  match requestHeaders !! "x-relaynet-streaming-mode" with
  | Some mode => negb (String.eqb mode "close-upon-completion")
  | None => true
  end.

(** The connection handler of [makeParcelCollectionServer]: the handshake,
    then the pipe of the key stream through the delivery stream and the ACK
    processor, driven by [events]. *)
Definition makeParcelCollectionServer (nonce : Buffer)
    (ownCertificates : list Certificate) (requestHeaders : gmap string string)
    (message : Buffer) (events : list Event) : list Action :=
  let '(endpointAddresses, handshake) :=
    doHandshake nonce ownCertificates message in
  match endpointAddresses with
  | None => handshake
  | Some addresses =>
      let keepAlive := keepAliveOf requestHeaders in
      handshake
      ++ StreamActiveBoundForEndpoints addresses keepAlive
         :: snd (run newSession events)
  end.

End Handshake.

End Collection.

(** ** The courier-sync subprocess *)

Module CourierSync.

(** How an awaited call ends. *)
Inductive Outcome (A : Type) :=
| Returned (value : A)
| Thrown (err : string).
Arguments Returned {A} value.
Arguments Thrown {A} err.

(** An async iterable that is consumed to its end: the items it yields and,
    when it ends by throwing, the error. *)
Definition Stream (A : Type) : Type := list A * option string.

Inductive CourierSyncStage := COLLECTION | WAIT | DELIVERY.

(** Modelled from the spec: the [CourierSyncExitCode] enum is declared in the
    index module of the package, which is not part of the sources at hand;
    section 4.8 of the specification gives its members and their numbers. *)
Inductive CourierSyncExitCode := OK | UNREGISTERED_GATEWAY | FAILED_SYNC.

Definition exitCodeNumber (c : CourierSyncExitCode) : Z :=
  match c with
  | OK => 0
  | UNREGISTERED_GATEWAY => 1
  | FAILED_SYNC => 2
  end%Z.

(** Modelled from the spec: [COURIER_PORT] is declared in the same index
    module; section 6 gives 21473. It only occurs interpolated in the URL of
    the courier. *)
Definition COURIER_PORT : string := "21473".

Definition DELAY_BETWEEN_COLLECTION_AND_DELIVERY_SECONDS : Z := 5.
Definition CLOCK_DRIFT_TOLERANCE_MINUTES : Z := 90.
Definition OUTBOUND_CARGO_TTL_DAYS : Z := 14.

(** *** Dates

    A [Date] is its time value, in milliseconds since the epoch. The three
    date-fns functions the subprocess uses: [subMinutes] and
    [differenceInSeconds] compute on time values, the latter truncating
    towards zero. *)
Definition subMinutes (date amount : Z) : Z := (date - amount * 60000)%Z.
Definition differenceInSeconds (dateLeft dateRight : Z) : Z :=
  ((dateLeft - dateRight) ÷ 1000)%Z.

(** [addDays] returns the date as it is for no days, and otherwise calls
    [date.setDate(date.getDate() + amount)], which moves the calendar day in
    local time and keeps the local time of day: the time value is taken to
    local time, moved by [amount] days of 24 hours there, and taken back.
    [localTZA t isUTC] is the offset of local time from UTC, in seconds, at
    the time value [t] when [isUTC] holds and at the local time [t]
    otherwise. *)
Definition addDays (localTZA : Z → bool → Z) (date amount : Z) : Z :=
  if (amount =? 0)%Z then date
  else
    let localTime := (date + 1000 * localTZA date true)%Z in
    let moved := (localTime + amount * 86400000)%Z in
    (moved - 1000 * localTZA moved false)%Z.
(** *** Messages *)

Record PublicGateway := {
  publicAddress : string;
  identityCertificate : Certificate
}.

Record UnboundKeyPair := {
  privateKey : Buffer;
  certificate : Certificate
}.

Record CogRPCClient := { serverUrl : string }.

Record ParcelCollectionAck := {
  senderEndpointPrivateAddress : string;
  recipientEndpointAddress : string;
  parcelId : string
}.

(** A row of the [ParcelCollection] table. *)
Record ParcelCollection := {
  collectionSenderEndpointPrivateAddress : string;
  collectionRecipientEndpointAddress : string;
  collectionParcelId : string;
  parcelExpiryDate : Z
}.

Record ParcelWithExpiryDate := {
  parcelKey : string;
  parcelWithExpiryDate_expiryDate : Z
}.

(** An item of a [CargoMessageStream]. *)
Record CargoMessageWithExpiry := {
  message : Buffer;
  expiryDate : Z
}.

Record CargoDeliveryRequest := {
  cargo : Buffer;
  localId : string
}.

Record Cargo := {
  cargoId : string;
  cargoPayload : Buffer
}.

Record Parcel := {
  parcelMessageId : string;
  parcelRecipientAddress : string
}.

Inductive CargoMessageSetItem :=
| ParcelItem (parcel : Parcel)
| ParcelCollectionAckItem (ack : ParcelCollectionAck).

(** A CCA, as the arguments its constructor is given: the message keeps the
    creation date and the TTL it is made with. *)
Record CargoCollectionAuthorization := {
  ccaRecipientAddress : string;
  ccaSenderCertificate : Certificate;
  ccaPayloadSerialized : Buffer;
  creationDate : Z;
  ttl : Z
}.

(** The expiry date of a RAMF message: its creation date plus its TTL, which
    is in seconds. *)
Definition ccaExpiryDate (cca : CargoCollectionAuthorization) : Z :=
  (creationDate cca + ttl cca * 1000)%Z.

Record GatewayCertificateIssuanceOptions := {
  issuerCertificate : Certificate;
  issuerPrivateKey : Buffer;
  subjectPublicKey : Buffer;
  validityEndDate : Z
}.

(** *** Effects *)

(** The levels at which a run is recorded. What the logger is given at the
    debug level is left out of the effects: the subprocess logs there each
    acknowledgement of a cargo delivery and each listed parcel that is gone
    from the store. *)
Inductive LogLevel := Fatal | Info.

(** The calls a run makes on its collaborators, in order. *)
Inductive Effect :=
| Log (level : LogLevel) (msg : string)
| NotifyStage (stage : CourierSyncStage)
| ClientInit (url : string)
| ClientClose
| SleepSeconds (seconds : Z)
| SignCCA (cca : CargoCollectionAuthorization)
| CollectCargo (ccaSerialized : Buffer)
| StoreEndpointBound (parcelSerialized : Buffer)
| DeleteInternetBoundFromACK (ack : ParcelCollectionAck)
| DeliverCargo (requests : list CargoDeliveryRequest).

(** A computation: how it ends and the effects it had up to there. *)
Definition Async (A : Type) : Type := Outcome A * list Effect.

Definition ret {A} (a : A) : Async A := (Returned a, []).
Definition throw {A} (err : string) : Async A := (Thrown err, []).
Definition perform (e : Effect) : Async unit := (Returned tt, [e]).
Definition await {A} (o : Outcome A) : Async A := (o, []).
Definition call {A} (e : Effect) (o : Outcome A) : Async A := (o, [e]).

Definition bind {A B} (m : Async A) (k : A → Async B) : Async B :=
  match m with
  | (Returned a, out) => let '(r, out') := k a in (r, out ++ out')
  | (Thrown err, out) => (Thrown err, out)
  end.

(** [try { body } catch (err) { handler err }] *)
Definition tryCatch {A} (body : Async A) (handler : string → Async A) : Async A :=
  match body with
  | (Returned a, out) => (Returned a, out)
  | (Thrown err, out) => let '(r, out') := handler err in (r, out ++ out')
  end.

(** [try { body } finally { cleanup }] *)
Definition finally {A} (body : Async A) (cleanup : Async unit) : Async A :=
  let '(r, out) := body in
  match cleanup with
  | (Returned _, out') => (r, out ++ out')
  | (Thrown err, out') => (Thrown err, out ++ out')
  end.

Declare Scope async_scope.
Delimit Scope async_scope with async.
Notation "x <- m ;; k" := (bind m (fun x => k))
  (at level 100, m at next level, k at level 200, right associativity)
  : async_scope.
Notation "m ;; k" := (bind m (fun _ => k))
  (at level 100, k at level 200, right associativity) : async_scope.
Open Scope async_scope.

(** Reading a property of a value that may be [null]. *)
Definition nonNull {A} (o : option A) : Async A :=
  match o with
  | Some a => ret a
  | None => throw "TypeError"
  end.

(** *** The collaborators

    What the key stores, the parcel store, the database, the network and the
    Relaynet library answer during one run of the subprocess. A call that
    can throw has an [Outcome]; [option] is a value that can be [null], or,
    for the calls made under a [try] that only logs and goes on, a call that
    throws. [newDate] is what the clock reads and [localTZA] the time zone
    of the host. *)
Record Environment := {
  getPublicGateway : Outcome (option PublicGateway);
  getDefaultGateway : Outcome string;
  getCurrentKey : Outcome (option UnboundKeyPair);
  clientInit : string → Outcome CogRPCClient;
  newDate : Z;
  localTZA : Z → bool → Z;
  getOrCreateCCAIssuer : Outcome Certificate;
  getPublicKey : Certificate → Outcome Buffer;
  issueGatewayCertificate : GatewayCertificateIssuanceOptions → Outcome Certificate;
  serializeCCR : Certificate → Outcome Buffer;
  encrypt : Buffer → Certificate → Outcome Buffer;
  serializeCCA : CargoCollectionAuthorization → Buffer → Outcome Buffer;
  clientCollectCargo : Buffer → Stream Buffer;
  fetchNodeCertificates : Outcome (list Certificate);
  deserializeCargo : Buffer → option Cargo;
  validateCargo : Cargo → list Certificate → bool;
  unwrapMessagePayload : Cargo → option (list Buffer);
  deserializeItem : Buffer → option CargoMessageSetItem;
  validateParcel : Parcel → list Certificate → bool;
  storeEndpointBound : Buffer → Parcel → Outcome string;
  deleteInternetBoundFromACK : ParcelCollectionAck → Outcome unit;
  collectionRepoFind : Outcome (list ParcelCollection);
  serializeAck : ParcelCollectionAck → Buffer;
  listInternetBound : Stream ParcelWithExpiryDate;
  retrieve : string → Outcome (option Buffer);
  generateCargoes :
    Stream CargoMessageWithExpiry → Certificate → Buffer → Certificate → string
    → Stream Buffer;
  uuid : nat → string;
  clientDeliverCargo : Stream CargoDeliveryRequest → Stream string
}.

(** *** What a run shows *)

(** The number of calls of [client.close()]. *)
Fixpoint clientCloses (effects : list Effect) : nat :=
  match effects with
  | [] => 0
  | ClientClose :: rest => S (clientCloses rest)
  | _ :: rest => clientCloses rest
  end.

(** The stages notified to the parent process, in order. *)
Fixpoint stagesNotified (effects : list Effect) : list CourierSyncStage :=
  match effects with
  | [] => []
  | NotifyStage stage :: rest => stage :: stagesNotified rest
  | _ :: rest => stagesNotified rest
  end.

(** Every effect of a computation satisfies [Q]. *)
Definition Emits (Q : Effect → Prop) {A} (m : Async A) : Prop :=
  Forall Q (snd m).

(** The validity window of a CCA generated at [now]: from 90 minutes before
    it to the same local time of day 14 calendar days after it. *)
Definition validityWindow (env : Environment)
    (cca : CargoCollectionAuthorization) : Prop :=
  creationDate cca = subMinutes (newDate env) CLOCK_DRIFT_TOLERANCE_MINUTES
  ∧ ccaExpiryDate cca
    = addDays (localTZA env) (newDate env) OUTBOUND_CARGO_TTL_DAYS.

(** The effects of the two phases: no call on the life cycle of the client,
    no sleep, and no CCA signed outside its validity window. *)
Definition phaseEffect (env : Environment) (e : Effect) : Prop :=
  match e with
  | ClientInit _ | ClientClose | SleepSeconds _ => False
  | SignCCA cca => validityWindow env cca
  | _ => True
  end.

Definition signsWithin (env : Environment) (e : Effect) : Prop :=
  match e with
  | SignCCA cca => validityWindow env cca
  | _ => True
  end.

(** The messages logged as fatal, in order. *)
Fixpoint fatalLogs (effects : list Effect) : list string :=
  match effects with
  | [] => []
  | Log Fatal msg :: rest => msg :: fatalLogs rest
  | _ :: rest => fatalLogs rest
  end.

(** What a phase does once it has notified its stage: calls on the key
    stores, on the parcel store and on the open client, and logs below
    fatal. *)
Definition withinPhase (e : Effect) : Prop :=
  match e with
  | Log Fatal _ | NotifyStage _ | ClientInit _ | ClientClose | SleepSeconds _ => False
  | _ => True
  end.

(** What happens between the opening of the client and its closing. *)
Definition whileOpen (e : Effect) : Prop :=
  match e with
  | ClientInit _ | ClientClose => False
  | _ => True
  end.

(** *** The subprocess *)

Section Subprocess.

Variable env : Environment.

Definition sendStageNotificationToParent (stage : CourierSyncStage) : Async unit :=
  perform (NotifyStage stage).

Definition filterSelfIssuedCertificates (certificates : list Certificate)
  : list Certificate :=
  List.filter
    (fun certificate =>
       String.eqb (issuerPrivateAddress certificate)
         (subjectPrivateAddress certificate))
    certificates.

Definition generateCCA (publicGateway : PublicGateway)
    (currentKey : option UnboundKeyPair) : Async Buffer :=
  let now := newDate env in
  let startDate := subMinutes now CLOCK_DRIFT_TOLERANCE_MINUTES in
  let endDate := addDays (localTZA env) now OUTBOUND_CARGO_TTL_DAYS in
  let recipientAddress := ("https://" ++ publicAddress publicGateway)%string in
  ccaIssuer <- await (getOrCreateCCAIssuer env) ;;
  key <- nonNull currentKey ;;
  publicKey <- await (getPublicKey env (identityCertificate publicGateway)) ;;
  cargoDeliveryAuthorization <-
    await (issueGatewayCertificate env
             {| issuerCertificate := ccaIssuer;
                issuerPrivateKey := privateKey key;
                subjectPublicKey := publicKey;
                validityEndDate := endDate |}) ;;
  ccrSerialized <- await (serializeCCR env cargoDeliveryAuthorization) ;;
  ccaPayload <-
    await (encrypt env ccrSerialized (identityCertificate publicGateway)) ;;
  let cca :=
    {| ccaRecipientAddress := recipientAddress;
       ccaSenderCertificate := certificate key;
       ccaPayloadSerialized := ccaPayload;
       creationDate := startDate;
       ttl := differenceInSeconds endDate startDate |} in
  call (SignCCA cca) (serializeCCA env cca (privateKey key)).

Definition processParcel (parcel : Parcel) (parcelSerialized : Buffer)
    (ownCertificates : list Certificate) : Async unit :=
  if validateParcel env parcel ownCertificates
  then
    _ <- call (StoreEndpointBound parcelSerialized)
           (storeEndpointBound env parcelSerialized parcel) ;;
    perform (Log Info "Stored parcel")
  else perform (Log Info "Ignoring invalid parcel").

Definition processParcelCollectionAck (ack : ParcelCollectionAck) : Async unit :=
  perform (Log Info "Deleting ACKed parcel") ;;
  call (DeleteInternetBoundFromACK ack) (deleteInternetBoundFromACK env ack).

(** The loop over [cargoMessageSet.messages]. *)
Fixpoint processItems (messages : list Buffer)
    (ownCertificates : list Certificate) : Async unit :=
  match messages with
  | [] => ret tt
  | itemSerialized :: rest =>
      match deserializeItem env itemSerialized with
      | None =>
          perform (Log Info "Ignoring invalid/malformed message") ;;
          processItems rest ownCertificates
      | Some (ParcelItem parcel) =>
          processParcel parcel itemSerialized ownCertificates ;;
          processItems rest ownCertificates
      | Some (ParcelCollectionAckItem ack) =>
          processParcelCollectionAck ack ;;
          processItems rest ownCertificates
      end
  end.

(** The loop over [cargoesSerialized]. *)
Fixpoint processCargoes (cargoesSerialized : list Buffer)
    (ownCertificates ownCDACertificates : list Certificate) : Async unit :=
  match cargoesSerialized with
  | [] => ret tt
  | cargoSerialized :: rest =>
      match deserializeCargo env cargoSerialized with
      | None =>
          perform (Log Info "Ignoring malformed/invalid cargo") ;;
          processCargoes rest ownCertificates ownCDACertificates
      | Some cargo =>
          if validateCargo env cargo ownCDACertificates
          then
            match unwrapMessagePayload env cargo with
            | None =>
                perform (Log Info "Ignored cargo with invalid payload") ;;
                processCargoes rest ownCertificates ownCDACertificates
            | Some messages =>
                processItems messages ownCertificates ;;
                processCargoes rest ownCertificates ownCDACertificates
            end
          else
            perform (Log Info "Ignoring cargo by unauthorized sender") ;;
            processCargoes rest ownCertificates ownCDACertificates
      end
  end.

Definition collectCargo (publicGateway : PublicGateway)
    (currentKey : option UnboundKeyPair) : Async unit :=
  sendStageNotificationToParent COLLECTION ;;
  ccaSerialized <- generateCCA publicGateway currentKey ;;
  let '(cargoesSerialized, failure) := clientCollectCargo env ccaSerialized in
  perform (CollectCargo ccaSerialized) ;;
  ownCertificates <- await (fetchNodeCertificates env) ;;
  let ownCDACertificates := filterSelfIssuedCertificates ownCertificates in
  processCargoes cargoesSerialized ownCertificates ownCDACertificates ;;
  match failure with
  | Some err => throw err
  | None => ret tt
  end.

(** The second loop of [makeCargoMessageStream]. *)
Fixpoint retrieveInternetBound (listing : list ParcelWithExpiryDate)
  : Stream CargoMessageWithExpiry :=
  match listing with
  | [] => ([], None)
  | parcelWithExpiryDate :: rest =>
      match retrieve env (parcelKey parcelWithExpiryDate) with
      | Thrown err => ([], Some err)
      | Returned None => retrieveInternetBound rest
      | Returned (Some parcelSerialized) =>
          let '(yielded, failure) := retrieveInternetBound rest in
          ({| message := parcelSerialized;
              expiryDate := parcelWithExpiryDate_expiryDate parcelWithExpiryDate |}
           :: yielded,
           failure)
      end
  end.

(** The message made of a listed parcel, when its retrieval returns a blob. *)
Definition parcelMessage (parcel : ParcelWithExpiryDate)
  : option CargoMessageWithExpiry :=
  match retrieve env (parcelKey parcel) with
  | Returned (Some parcelSerialized) =>
      Some {| message := parcelSerialized;
              expiryDate := parcelWithExpiryDate_expiryDate parcel |}
  | _ => None
  end.

Definition ackOfCollection (pendingACK : ParcelCollection) : ParcelCollectionAck :=
  {| senderEndpointPrivateAddress := collectionSenderEndpointPrivateAddress pendingACK;
     recipientEndpointAddress := collectionRecipientEndpointAddress pendingACK;
     parcelId := collectionParcelId pendingACK |}.

Definition makeCargoMessageStream : Stream CargoMessageWithExpiry :=
  match collectionRepoFind env with
  | Thrown err => ([], Some err)
  | Returned pendingACKs =>
      let acks :=
        map (fun pendingACK =>
               {| message := serializeAck env (ackOfCollection pendingACK);
                  expiryDate := parcelExpiryDate pendingACK |})
          pendingACKs in
      let '(listing, listingFailure) := listInternetBound env in
      let '(parcels, failure) := retrieveInternetBound listing in
      (acks ++ parcels,
       match failure with
       | Some err => Some err
       | None => listingFailure
       end)
  end.

(** The loop of [makeCargoDeliveryStream]; [n] counts the calls of [uuid]. *)
Fixpoint wrapCargoes (n : nat) (cargoes : list Buffer) : list CargoDeliveryRequest :=
  match cargoes with
  | [] => []
  | c :: rest => {| cargo := c; localId := uuid env n |} :: wrapCargoes (S n) rest
  end.

Definition makeCargoDeliveryStream (publicGateway : PublicGateway)
    (currentKey : option UnboundKeyPair) : Stream CargoDeliveryRequest :=
  match currentKey with
  | None => ([], Some "TypeError")
  | Some key =>
      let '(cargoes, failure) :=
        generateCargoes env makeCargoMessageStream
          (identityCertificate publicGateway) (privateKey key) (certificate key)
          ("https://" ++ publicAddress publicGateway)%string in
      (wrapCargoes 0 cargoes, failure)
  end.

(** The loop over [ackIds] only logs each of them, at the debug level. *)
Definition deliverCargo (publicGateway : PublicGateway)
    (currentKey : option UnboundKeyPair) : Async unit :=
  sendStageNotificationToParent DELIVERY ;;
  let cargoDeliveryStream := makeCargoDeliveryStream publicGateway currentKey in
  let '(ackIds, failure) := clientDeliverCargo env cargoDeliveryStream in
  perform (DeliverCargo (fst cargoDeliveryStream)) ;;
  match failure with
  | Some err => throw err
  | None => ret tt
  end.

Definition courierUrl (defaultGatewayIPAddress : string) : string :=
  ("https://" ++ defaultGatewayIPAddress ++ ":" ++ COURIER_PORT)%string.

(** The [try] block of [runCourierSync]; [None] stands for reaching its end
    without a [return]. *)
Definition syncWithCourier (publicGateway : PublicGateway)
    (currentKey : option UnboundKeyPair) (url : string)
  : Async (option CourierSyncExitCode) :=
  _ <- call (ClientInit url) (clientInit env url) ;;
  collectCargo publicGateway currentKey ;;
  sendStageNotificationToParent WAIT ;;
  perform (SleepSeconds DELAY_BETWEEN_COLLECTION_AND_DELIVERY_SECONDS) ;;
  deliverCargo publicGateway currentKey ;;
  ret None.

(** [runCourierSync]. A [Thrown] outcome is a rejection of the promise it
    returns. The variable [client] is assigned once, by the first statement
    of the [try] block, so that in the [finally] block it holds a client
    exactly when [CogRPCClient.init] has returned one. *)
Definition runCourierSync : Async CourierSyncExitCode :=
  publicGateway <- await (getPublicGateway env) ;;
  match publicGateway with
  | None =>
      perform (Log Fatal "Private gateway is unregistered") ;;
      ret UNREGISTERED_GATEWAY
  | Some publicGateway =>
      discovery <-
        tryCatch
          (defaultGateway <- await (getDefaultGateway env) ;;
           ret (inl defaultGateway))
          (fun _ =>
             perform (Log Fatal "System default gateway could not be found") ;;
             ret (inr FAILED_SYNC)) ;;
      match discovery with
      | inr code => ret code
      | inl defaultGatewayIPAddress =>
          currentKey <- await (getCurrentKey env) ;;
          let url := courierUrl defaultGatewayIPAddress in
          let client : option CogRPCClient :=
            match clientInit env url with
            | Returned c => Some c
            | Thrown _ => None
            end in
          completion <-
            finally
              (tryCatch
                 (syncWithCourier publicGateway currentKey url)
                 (fun _ =>
                    perform (Log Fatal "Sync failed") ;;
                    ret (Some FAILED_SYNC)))
              (match client with
               | Some _ => perform ClientClose
               | None => ret tt
               end) ;;
          match completion with
          | Some code => ret code
          | None =>
              perform (Log Info "Sync completed successfully") ;;
              ret OK
          end
      end
  end.

End Subprocess.

End CourierSync.

(** ** The configuration store *)

Module Config.

Inductive ConfigKey :=
| NODE_KEY_SERIAL_NUMBER
| NODE_CCA_ISSUER_KEY_SERIAL_NUMBER
| PUBLIC_GATEWAY_ADDRESS.

Definition configKeyName (key : ConfigKey) : string :=
  match key with
  | NODE_KEY_SERIAL_NUMBER => "node_key_serial_number"
  | NODE_CCA_ISSUER_KEY_SERIAL_NUMBER => "node_cca_issuer_key_serial_number"
  | PUBLIC_GATEWAY_ADDRESS => "public_gateway_address"
  end.

(** The [ConfigItem] repository: the value of each item, by its key.
    [get] is [item?.value ?? null]. *)
Definition get (key : ConfigKey) (configRepository : gmap string string)
  : option string :=
  configRepository !! configKeyName key.

Definition set (key : ConfigKey) (value : string)
    (configRepository : gmap string string) : gmap string string :=
  <[configKeyName key := value]> configRepository.

End Config.

(** ** The gateway registrar *)

Module GatewayRegistrar.

Import CourierSync Config.

Record PrivateNodeRegistration := {
  privateNodeCertificate : Certificate;
  publicGatewayIdentityCertificate : Certificate
}.

Record PrivateNodeRegistrationRequest := {
  privateNodePublicKey : Buffer;
  pnraSerialized : Buffer
}.

(** The calls of the registrar on the PoWeb client factory, the client, the
    key store and the configuration store, in order. *)
Inductive Call :=
| MakeGSCClient (publicAddress : string)
| PreRegisterNode (nodePublicKey : Buffer)
| RegisterNode (pnrrSerialized : Buffer)
| SaveNodeKey (nodePrivateKey : Buffer) (nodeCertificate : Certificate)
| ConfigSet (key : ConfigKey) (value : string).

(** A call that goes over the network. *)
Definition isNetworkCall (c : Call) : bool :=
  match c with
  | PreRegisterNode _ | RegisterNode _ => true
  | _ => false
  end.

(** A registration exchange with the public gateway starts with a
    pre-registration. *)
Definition isPreRegistration (c : Call) : bool :=
  match c with
  | PreRegisterNode _ => true
  | _ => false
  end.

Definition isClientConstruction (c : Call) : bool :=
  match c with
  | MakeGSCClient _ => true
  | _ => false
  end.

(** What persists: the configuration items and the node keys saved. *)
Record State := {
  configRepository : gmap string string;
  nodeKeys : list (Buffer * Certificate)
}.

Section Registrar.

(** The key pair of the node and what the public gateway at an address
    answers to the two calls. *)
Variable nodePublicKey nodePrivateKey : Buffer.
Variable signRequest : PrivateNodeRegistrationRequest → Buffer → Buffer.
Variable preRegisterNode : string → Buffer → Outcome Buffer.
Variable registerNode : string → Buffer → Outcome PrivateNodeRegistration.

(** Modelled from the spec: [GatewayRegistrar.register] is defined in
    [sync/publicGateway/GatewayRegistrar.ts], which is not part of the
    sources at hand (its test file is). The definition follows the six steps
    of section 4.7 of the specification; a failure of either call aborts with
    a [RegistrationError] and persists nothing. *)
Definition register (publicAddress : string) (st : State)
  : Outcome unit * State * list Call :=
  if bool_decide (get PUBLIC_GATEWAY_ADDRESS (configRepository st) = Some publicAddress)
  then (Returned tt, st, [])
  else
    match preRegisterNode publicAddress nodePublicKey with
    | Thrown _ =>
        (Thrown "RegistrationError", st,
         [MakeGSCClient publicAddress; PreRegisterNode nodePublicKey])
    | Returned registrationAuthorization =>
        let pnrrSerialized :=
          signRequest
            {| privateNodePublicKey := nodePublicKey;
               pnraSerialized := registrationAuthorization |}
            nodePrivateKey in
        match registerNode publicAddress pnrrSerialized with
        | Thrown _ =>
            (Thrown "RegistrationError", st,
             [MakeGSCClient publicAddress; PreRegisterNode nodePublicKey;
              RegisterNode pnrrSerialized])
        | Returned registration =>
            (Returned tt,
             {| configRepository :=
                  set PUBLIC_GATEWAY_ADDRESS publicAddress (configRepository st);
                nodeKeys :=
                  nodeKeys st
                  ++ [(nodePrivateKey, privateNodeCertificate registration)] |},
             [MakeGSCClient publicAddress; PreRegisterNode nodePublicKey;
              RegisterNode pnrrSerialized;
              SaveNodeKey nodePrivateKey (privateNodeCertificate registration);
              ConfigSet PUBLIC_GATEWAY_ADDRESS publicAddress])
        end
    end.

End Registrar.

End GatewayRegistrar.

(** ** The status stream of the user interface *)

Module UiSync.

Inductive CourierSyncStatus :=
| COLLECTING_CARGO
| WAITING
| DELIVERING_CARGO
| COMPLETE.

Inductive Error := CourierSyncError.

(** What an async generator does between two pulls. *)
Inductive GeneratorStep :=
| Yield (status : CourierSyncStatus)
| Sleep (seconds : Z).

(** How the iteration ends. *)
Inductive Completion :=
| Done
| Rejected (err : Error).

(** [_synchronizeWithCourier]. The body reads nothing but [token]:
    [stageSource], the stages that the source of the connection to the daemon
    would yield (the test file mocks it with [it-ws]), stands for what is in
    scope and is never consulted. *)
Definition _synchronizeWithCourier (stageSource : list string) (token : string)
  : list GeneratorStep * Completion :=
  if String.eqb token ""
  then ([], Rejected CourierSyncError)
  else
    ([Yield COLLECTING_CARGO; Sleep 5;
      Yield WAITING; Sleep 5;
      Yield DELIVERING_CARGO; Sleep 5;
      Yield COMPLETE],
     Done).

Fixpoint statusesOf (steps : list GeneratorStep) : list CourierSyncStatus :=
  match steps with
  | [] => []
  | Yield status :: rest => status :: statusesOf rest
  | Sleep _ :: rest => statusesOf rest
  end.

(** [synchronizeWithCourier(token).promise], as seen by a consumer that
    calls [abort] after it has received [n] statuses ([abortAfter = Some n])
    or never ([None]). With [returnOnAbort], an aborted iteration ends as if
    the generator had returned. *)
Definition synchronizeWithCourier (stageSource : list string) (token : string)
    (abortAfter : option nat) : list CourierSyncStatus * Completion :=
  let '(steps, completion) := _synchronizeWithCourier stageSource token in
  let statuses := statusesOf steps in
  match abortAfter with
  | Some n =>
      if Nat.leb n (length statuses)
      then (take n statuses, Done)
      else (statuses, completion)
  | None => (statuses, completion)
  end.

End UiSync.

(** ** The courier-sync manager *)

Module CourierSyncManager.

Import CourierSync.

(** The two members of [CourierConnectionStatus] that the manager returns. *)
Inductive CourierConnectionStatus := CONNECTED | DISCONNECTED.

Definition COURIER_CHECK_TIMEOUT_MS : Z := 3000.
Definition COURIER_CHECK_RETRY_MS : Z := 500.

(** The errors of the manager; the cause that a
    [DisconnectedFromCourierError] wraps is left out. *)
Inductive ManagerError :=
| UnregisteredGatewayError (msg : string)
| DisconnectedFromCourierError (msg : string).

(** What the network answers at one moment: [getDefaultGateway()] and
    [waitUntilUsedOnHost(port, host, retryTimeMs, timeOutMs)]. *)
Record Network := {
  getDefaultGateway : Outcome string;
  waitUntilUsedOnHost : string → string → Z → Z → Outcome unit
}.

Definition getDefaultGatewayIPAddress (network : Network) : ManagerError + string :=
  match getDefaultGateway network with
  | Returned defaultGatewayIPAddress => inr defaultGatewayIPAddress
  | Thrown _ =>
      inl (DisconnectedFromCourierError "Could not find default system gateway")
  end.

Definition getCourierConnectionStatus (network : Network) : CourierConnectionStatus :=
  match getDefaultGatewayIPAddress network with
  | inl _ => DISCONNECTED
  | inr gatewayIPAddress =>
      match waitUntilUsedOnHost network COURIER_PORT gatewayIPAddress
              COURIER_CHECK_RETRY_MS COURIER_CHECK_TIMEOUT_MS with
      | Thrown _ => DISCONNECTED
      | Returned _ => CONNECTED
      end
  end.

(** [newStatus !== lastStatus], where [lastStatus] may be [null]. *)
Definition differs (newStatus : CourierConnectionStatus)
    (lastStatus : option CourierConnectionStatus) : bool :=
  match lastStatus, newStatus with
  | Some CONNECTED, CONNECTED | Some DISCONNECTED, DISCONNECTED => false
  | _, _ => true
  end.

(** The loop of [streamStatus], which never ends by itself: what it yields
    while it goes through [polls], the answers of the network at its
    successive iterations. *)
Fixpoint streamStatusFrom (lastStatus : option CourierConnectionStatus)
    (polls : list Network) : list CourierConnectionStatus :=
  match polls with
  | [] => []
  | network :: rest =>
      let newStatus := getCourierConnectionStatus network in
      if differs newStatus lastStatus
      then newStatus :: streamStatusFrom (Some newStatus) rest
      else streamStatusFrom lastStatus rest
  end.

Definition streamStatus : list Network → list CourierConnectionStatus :=
  streamStatusFrom None.

(** Modelled from the spec: the [CourierSyncStage] enum is declared in the
    index module of the package, which is not part of the sources at hand;
    section 6 of the specification gives the values written to the parent
    process, which are the names of the members that the subprocess uses. *)
Definition stageName (stage : CourierSyncStage) : string :=
  match stage with
  | COLLECTION => "COLLECTION"
  | WAIT => "WAIT"
  | DELIVERY => "DELIVERY"
  end.

(** [name in CourierSyncStage], with the member that has that name: the
    keys of the enum object are the names of its members, the values
    being strings as said above. The names that the object inherits from
    [Object.prototype] are left out. *)
Definition stageOfName (name : string) : option CourierSyncStage :=
  if String.eqb name "COLLECTION" then Some COLLECTION
  else if String.eqb name "WAIT" then Some WAIT
  else if String.eqb name "DELIVERY" then Some DELIVERY
  else None.

(** A message of the subprocess: its [type] and its [stage], as a property
    key; a message without a stage has [None]. *)
Record IPCMessage := {
  type : string;
  stage : option string
}.

(** The message that [sendStageNotificationToParent] writes. *)
Definition stageNotification (stage : CourierSyncStage) : IPCMessage :=
  {| stage := Some (stageName stage); type := "stage" |}.

(** What the stream of the subprocess throws, as far as the manager looks
    at it: [err?.exitCode], when it is a number. *)
Record SubprocessError := { exitCode : option Z }.

Definition wrapSubprocessErrors
    (messages : list IPCMessage * option SubprocessError)
  : list IPCMessage * option ManagerError :=
  let '(yielded, failure) := messages in
  (yielded,
   match failure with
   | None => None
   | Some err =>
       Some
         (match exitCode err with
          | Some 1%Z => UnregisteredGatewayError "Private gateway is unregistered"
          | _ => DisconnectedFromCourierError "Courier sync failed"
          end)
   end).

(** The loop of [sync] over the messages. *)
Fixpoint stagesOf (messages : list IPCMessage) : list CourierSyncStage :=
  match messages with
  | [] => []
  | message :: rest =>
      if negb (String.eqb (type message) "stage")
      then stagesOf rest
      else
        match stage message with
        | Some name =>
            match stageOfName name with
            | Some stage => stage :: stagesOf rest
            | None => stagesOf rest
            end
        | None => stagesOf rest
        end
  end.

(** [sync], for the stream of messages of the forked subprocess. *)
Definition sync (syncSubprocess : list IPCMessage * option SubprocessError)
  : list CourierSyncStage * option ManagerError :=
  let '(messages, failure) := wrapSubprocessErrors syncSubprocess in
  (stagesOf messages, failure).

End CourierSyncManager.

(** ** The settings page of the user interface *)

Module Settings.

Inductive Status := DISPLAY | EDIT | DONE.

Record State := {
  status : Status;
  gateway : string;
  gatewayError : bool
}.

(** The state that the constructor sets. *)
Definition new : State :=
  {| gateway := "example.relaycorp.cloud";
     gatewayError := false;
     status := DISPLAY |}.

(** How [migratePublicGatewayAddress] settles. *)
Inductive Migration := Migrated | SettingError | OtherError.

(** What the component reacts to: the promise awaited by
    [componentDidMount] resolves, the user asks to edit, the promise awaited
    by [migrateGateway] settles. *)
Inductive Event :=
| GatewayAddressResolved (gateway : string)
| EditClicked
| MigrationSettled (newAddress : string) (outcome : Migration).

(** The rest of [componentDidMount]: [setState({ gateway })]. *)
Definition componentDidMount (gateway : string) (state : State) : State :=
  {| status := status state; gateway := gateway; gatewayError := gatewayError state |}.

(** The rest of [migrateGateway], once the migration has settled. *)
Definition migrateGateway (newAddress : string) (outcome : Migration)
    (state : State) : State :=
  match outcome with
  | Migrated =>
      {| status := DONE; gateway := newAddress; gatewayError := gatewayError state |}
  | SettingError =>
      {| status := EDIT; gateway := gateway state; gatewayError := true |}
  | OtherError => state
  end.

Definition editGateway (state : State) : State :=
  {| status := EDIT; gateway := gateway state; gatewayError := gatewayError state |}.

Definition step (state : State) (e : Event) : State :=
  match e with
  | GatewayAddressResolved gateway => componentDidMount gateway state
  | EditClicked => editGateway state
  | MigrationSettled newAddress outcome => migrateGateway newAddress outcome state
  end.

Definition run (events : list Event) : State := fold_left step events new.

(** What [render] returns: which of the three pages, with the properties it
    gives to it. *)
Inductive Page :=
| MigratedPage (gateway : string)
| GatewayEditorPage (gateway : string) (gatewayError : bool)
| GatewayPage (gateway : string).

Definition render (state : State) : Page :=
  match status state with
  | DONE => MigratedPage (gateway state)
  | EDIT => GatewayEditorPage (gateway state) (gatewayError state)
  | DISPLAY => GatewayPage (gateway state)
  end.

(** The events that leave the status as it is. *)
Definition keepsStatus (e : Event) : bool :=
  match e with
  | GatewayAddressResolved _ | MigrationSettled _ OtherError => true
  | _ => false
  end.

Definition resolvesGatewayAddress (e : Event) : bool :=
  match e with
  | GatewayAddressResolved _ => true
  | _ => false
  end.

End Settings.

(** ** Sample collaborators

    Small instances of the collaborators, on which the properties below are
    tried out. *)

Module Samples.

Import CourierSync.

Definition gatewayCertificate : Certificate :=
  {| subjectPrivateAddress := "0gateway";
     issuerPrivateAddress := "0gateway";
     certificateSerialized := [Byte.x30] |}.

Definition endpointCertificate (n : Byte.byte) : Certificate :=
  {| subjectPrivateAddress := String (Ascii.ascii_of_byte n) "-endpoint";
     issuerPrivateAddress := "0gateway";
     certificateSerialized := [n] |}.

(** A handshake response is one byte per signature; the empty message is
    malformed. *)
Definition deserializeHandshakeResponse (message : Buffer) : option (list Buffer) :=
  match message with
  | [] => None
  | Byte.x00 :: _ => Some []
  | _ => Some (map (fun b => [b]) message)
  end.

(** The signatures ["a"] and ["b"] verify; no other does. *)
Definition verifyNonceSignature (nonceSignature nonce : Buffer)
    (trusted : list Certificate) : option Certificate :=
  match nonceSignature with
  | [Byte.x61] => Some (endpointCertificate Byte.x61)
  | [Byte.x62] => Some (endpointCertificate Byte.x62)
  | _ => None
  end.

Definition publicGateway : PublicGateway :=
  {| publicAddress := "frankfurt.relaycorp.cloud";
     identityCertificate :=
       {| subjectPrivateAddress := "0public";
          issuerPrivateAddress := "0public";
          certificateSerialized := [Byte.x31] |} |}.

Definition currentKey : UnboundKeyPair :=
  {| privateKey := [Byte.x01]; certificate := gatewayCertificate |}.

Definition pendingCollection : ParcelCollection :=
  {| collectionSenderEndpointPrivateAddress := "0sender";
     collectionRecipientEndpointAddress := "https://example.com";
     collectionParcelId := "parcel-1";
     parcelExpiryDate := 1700000000000 |}.

(** A run in which every collaborator answers: the courier hands over no
    cargo; one collection acknowledgement is pending; the store lists two
    Internet-bound parcels, the second of which is gone when retrieved. *)
Definition reachableCourier : Environment :=
  {| getPublicGateway := Returned (Some publicGateway);
     getDefaultGateway := Returned "192.168.43.1";
     getCurrentKey := Returned (Some currentKey);
     clientInit := fun url => Returned {| serverUrl := url |};
     newDate := 1600000000000;
     localTZA := fun _ _ => 0%Z;
     getOrCreateCCAIssuer := Returned gatewayCertificate;
     getPublicKey := fun _ => Returned [Byte.x02];
     issueGatewayCertificate := fun _ => Returned gatewayCertificate;
     serializeCCR := fun _ => Returned [Byte.x03];
     encrypt := fun plaintext _ => Returned plaintext;
     serializeCCA := fun _ _ => Returned [Byte.x04];
     clientCollectCargo := fun _ => ([], None);
     fetchNodeCertificates := Returned [gatewayCertificate];
     deserializeCargo := fun _ => None;
     validateCargo := fun _ _ => false;
     unwrapMessagePayload := fun _ => None;
     deserializeItem := fun _ => None;
     validateParcel := fun _ _ => false;
     storeEndpointBound := fun _ _ => Returned "key";
     deleteInternetBoundFromACK := fun _ => Returned tt;
     collectionRepoFind := Returned [pendingCollection];
     serializeAck := fun _ => [Byte.x05];
     listInternetBound :=
       ([ {| parcelKey := "p1"; parcelWithExpiryDate_expiryDate := 1700000001000 |};
          {| parcelKey := "p2"; parcelWithExpiryDate_expiryDate := 1700000002000 |} ],
        None);
     retrieve :=
       fun key => if String.eqb key "p1" then Returned (Some [Byte.x06])
                  else Returned None;
     generateCargoes := fun _ _ _ _ _ => ([[Byte.x07]], None);
     uuid := fun _ => "local-id";
     clientDeliverCargo := fun _ => (["local-id"], None) |}.

(** The same run, but nothing listens on the courier port of the default
    gateway: [CogRPCClient.init] throws. *)
Definition unreachableCourier : Environment :=
  {| getPublicGateway := getPublicGateway reachableCourier;
     getDefaultGateway := getDefaultGateway reachableCourier;
     getCurrentKey := getCurrentKey reachableCourier;
     clientInit := fun _ => Thrown "ECONNREFUSED";
     newDate := newDate reachableCourier;
     localTZA := localTZA reachableCourier;
     getOrCreateCCAIssuer := getOrCreateCCAIssuer reachableCourier;
     getPublicKey := getPublicKey reachableCourier;
     issueGatewayCertificate := issueGatewayCertificate reachableCourier;
     serializeCCR := serializeCCR reachableCourier;
     encrypt := encrypt reachableCourier;
     serializeCCA := serializeCCA reachableCourier;
     clientCollectCargo := clientCollectCargo reachableCourier;
     fetchNodeCertificates := fetchNodeCertificates reachableCourier;
     deserializeCargo := deserializeCargo reachableCourier;
     validateCargo := validateCargo reachableCourier;
     unwrapMessagePayload := unwrapMessagePayload reachableCourier;
     deserializeItem := deserializeItem reachableCourier;
     validateParcel := validateParcel reachableCourier;
     storeEndpointBound := storeEndpointBound reachableCourier;
     deleteInternetBoundFromACK := deleteInternetBoundFromACK reachableCourier;
     collectionRepoFind := collectionRepoFind reachableCourier;
     serializeAck := serializeAck reachableCourier;
     listInternetBound := listInternetBound reachableCourier;
     retrieve := retrieve reachableCourier;
     generateCargoes := generateCargoes reachableCourier;
     uuid := uuid reachableCourier;
     clientDeliverCargo := clientDeliverCargo reachableCourier |}.

(** A public gateway that answers both calls of a registration, and one
    that is down. *)
Definition signRequest
    (request : GatewayRegistrar.PrivateNodeRegistrationRequest)
    (nodePrivateKey : Buffer) : Buffer :=
  GatewayRegistrar.privateNodePublicKey request
  ++ GatewayRegistrar.pnraSerialized request.

Definition preRegisterNode (publicAddress : string) (nodePublicKey : Buffer)
  : Outcome Buffer :=
  Returned [Byte.x0a].

Definition registerNode (publicAddress : string) (pnrrSerialized : Buffer)
  : Outcome GatewayRegistrar.PrivateNodeRegistration :=
  Returned
    {| GatewayRegistrar.privateNodeCertificate := gatewayCertificate;
       GatewayRegistrar.publicGatewayIdentityCertificate :=
         identityCertificate publicGateway |}.

Definition preRegisterNodeDown (publicAddress : string) (nodePublicKey : Buffer)
  : Outcome Buffer :=
  Thrown "ENOTFOUND".

Definition unregistered : GatewayRegistrar.State :=
  {| GatewayRegistrar.configRepository := ∅;
     GatewayRegistrar.nodeKeys := [] |}.

Definition registered (publicAddress : string) : GatewayRegistrar.State :=
  {| GatewayRegistrar.configRepository :=
       {[ "public_gateway_address" := publicAddress ]};
     GatewayRegistrar.nodeKeys := [] |}.

Definition parcelAck : ParcelCollectionAck :=
  {| senderEndpointPrivateAddress := "0sender";
     recipientEndpointAddress := "https://example.com";
     parcelId := "parcel-0" |}.

(** A run in which the courier hands over four cargoes: one that is
    malformed, one by an unauthorised sender, one with an invalid payload,
    and one that carries a valid parcel, an invalid parcel, a collection
    acknowledgement and a malformed item. Two cargoes are generated for the
    courier, and each call of [uuid] gives another id. *)
Definition loadedCourier : Environment :=
  {| getPublicGateway := Returned (Some publicGateway);
     getDefaultGateway := Returned "192.168.43.1";
     getCurrentKey := Returned (Some currentKey);
     clientInit := fun url => Returned {| serverUrl := url |};
     newDate := 1600000000000;
     localTZA := fun _ _ => 0%Z;
     getOrCreateCCAIssuer := Returned gatewayCertificate;
     getPublicKey := fun _ => Returned [Byte.x02];
     issueGatewayCertificate := fun _ => Returned gatewayCertificate;
     serializeCCR := fun _ => Returned [Byte.x03];
     encrypt := fun plaintext _ => Returned plaintext;
     serializeCCA := fun _ _ => Returned [Byte.x04];
     clientCollectCargo :=
       fun _ => ([[Byte.x10]; [Byte.x11]; [Byte.x12]; [Byte.x13]], None);
     fetchNodeCertificates :=
       Returned [gatewayCertificate; endpointCertificate Byte.x61];
     deserializeCargo :=
       fun cargoSerialized =>
         match cargoSerialized with
         | [Byte.x10] => None
         | _ => Some {| cargoId := "cargo"; cargoPayload := cargoSerialized |}
         end;
     validateCargo :=
       fun cargo trusted =>
         match cargoPayload cargo with
         | [Byte.x11] => false
         | _ => Nat.eqb (length trusted) 1
         end;
     unwrapMessagePayload :=
       fun cargo =>
         match cargoPayload cargo with
         | [Byte.x13] => Some [[Byte.x20]; [Byte.x21]; [Byte.x22]; [Byte.x23]]
         | _ => None
         end;
     deserializeItem :=
       fun itemSerialized =>
         match itemSerialized with
         | [Byte.x20] =>
             Some (ParcelItem {| parcelMessageId := "valid";
                                 parcelRecipientAddress := "a-endpoint" |})
         | [Byte.x21] =>
             Some (ParcelItem {| parcelMessageId := "invalid";
                                 parcelRecipientAddress := "a-endpoint" |})
         | [Byte.x22] => Some (ParcelCollectionAckItem parcelAck)
         | _ => None
         end;
     validateParcel :=
       fun parcel _ => String.eqb (parcelMessageId parcel) "valid";
     storeEndpointBound := fun _ _ => Returned "key";
     deleteInternetBoundFromACK := fun _ => Returned tt;
     collectionRepoFind := Returned [pendingCollection];
     serializeAck := fun _ => [Byte.x05];
     listInternetBound :=
       ([ {| parcelKey := "p1"; parcelWithExpiryDate_expiryDate := 1700000001000 |} ],
        None);
     retrieve := fun _ => Returned (Some [Byte.x06]);
     generateCargoes := fun _ _ _ _ _ => ([[Byte.x07]; [Byte.x08]], None);
     uuid := fun n => String (Ascii.ascii_of_nat (97 + n)) "";
     clientDeliverCargo := fun _ => (["a"; "b"], None) |}.

(** The run of a gateway whose key store has no current key. *)
Definition keylessGateway : Environment :=
  {| getPublicGateway := getPublicGateway reachableCourier;
     getDefaultGateway := getDefaultGateway reachableCourier;
     getCurrentKey := Returned None;
     clientInit := clientInit reachableCourier;
     newDate := newDate reachableCourier;
     localTZA := localTZA reachableCourier;
     getOrCreateCCAIssuer := getOrCreateCCAIssuer reachableCourier;
     getPublicKey := getPublicKey reachableCourier;
     issueGatewayCertificate := issueGatewayCertificate reachableCourier;
     serializeCCR := serializeCCR reachableCourier;
     encrypt := encrypt reachableCourier;
     serializeCCA := serializeCCA reachableCourier;
     clientCollectCargo := clientCollectCargo reachableCourier;
     fetchNodeCertificates := fetchNodeCertificates reachableCourier;
     deserializeCargo := deserializeCargo reachableCourier;
     validateCargo := validateCargo reachableCourier;
     unwrapMessagePayload := unwrapMessagePayload reachableCourier;
     deserializeItem := deserializeItem reachableCourier;
     validateParcel := validateParcel reachableCourier;
     storeEndpointBound := storeEndpointBound reachableCourier;
     deleteInternetBoundFromACK := deleteInternetBoundFromACK reachableCourier;
     collectionRepoFind := collectionRepoFind reachableCourier;
     serializeAck := serializeAck reachableCourier;
     listInternetBound := listInternetBound reachableCourier;
     retrieve := retrieve reachableCourier;
     generateCargoes := generateCargoes reachableCourier;
     uuid := uuid reachableCourier;
     clientDeliverCargo := clientDeliverCargo reachableCourier |}.

(** A network on which the courier answers, and one without a default
    gateway. *)
Definition courierNetwork : CourierSyncManager.Network :=
  {| CourierSyncManager.getDefaultGateway := Returned "192.168.43.1";
     CourierSyncManager.waitUntilUsedOnHost := fun _ _ _ _ => Returned tt |}.

Definition noNetwork : CourierSyncManager.Network :=
  {| CourierSyncManager.getDefaultGateway := Thrown "ENETUNREACH";
     CourierSyncManager.waitUntilUsedOnHost := fun _ _ _ _ => Returned tt |}.

(** The run of a gateway whose key store cannot be read. *)
Definition lockedKeyStore : Environment :=
  {| getPublicGateway := getPublicGateway reachableCourier;
     getDefaultGateway := getDefaultGateway reachableCourier;
     getCurrentKey := Thrown "SQLITE_BUSY";
     clientInit := clientInit reachableCourier;
     newDate := newDate reachableCourier;
     localTZA := localTZA reachableCourier;
     getOrCreateCCAIssuer := getOrCreateCCAIssuer reachableCourier;
     getPublicKey := getPublicKey reachableCourier;
     issueGatewayCertificate := issueGatewayCertificate reachableCourier;
     serializeCCR := serializeCCR reachableCourier;
     encrypt := encrypt reachableCourier;
     serializeCCA := serializeCCA reachableCourier;
     clientCollectCargo := clientCollectCargo reachableCourier;
     fetchNodeCertificates := fetchNodeCertificates reachableCourier;
     deserializeCargo := deserializeCargo reachableCourier;
     validateCargo := validateCargo reachableCourier;
     unwrapMessagePayload := unwrapMessagePayload reachableCourier;
     deserializeItem := deserializeItem reachableCourier;
     validateParcel := validateParcel reachableCourier;
     storeEndpointBound := storeEndpointBound reachableCourier;
     deleteInternetBoundFromACK := deleteInternetBoundFromACK reachableCourier;
     collectionRepoFind := collectionRepoFind reachableCourier;
     serializeAck := serializeAck reachableCourier;
     listInternetBound := listInternetBound reachableCourier;
     retrieve := retrieve reachableCourier;
     generateCargoes := generateCargoes reachableCourier;
     uuid := uuid reachableCourier;
     clientDeliverCargo := clientDeliverCargo reachableCourier |}.

(** Central European time about the end of the summer time of 2020, on
    25 October at 01:00 UTC, which is 03:00 local time: two hours ahead of
    UTC before it and one hour after it. *)
Definition centralEuropeanTime (t : Z) (isUTC : bool) : Z :=
  if isUTC
  then if (t <? 1603587600000)%Z then 7200%Z else 3600%Z
  else if (t <? 1603594800000)%Z then 7200%Z else 3600%Z.

(** The run of [reachableCourier] on a host in that time zone, a week before
    the clocks go back. *)
Definition autumnCourier : Environment :=
  {| getPublicGateway := getPublicGateway reachableCourier;
     getDefaultGateway := getDefaultGateway reachableCourier;
     getCurrentKey := getCurrentKey reachableCourier;
     clientInit := clientInit reachableCourier;
     newDate := 1603000000000;
     localTZA := centralEuropeanTime;
     getOrCreateCCAIssuer := getOrCreateCCAIssuer reachableCourier;
     getPublicKey := getPublicKey reachableCourier;
     issueGatewayCertificate := issueGatewayCertificate reachableCourier;
     serializeCCR := serializeCCR reachableCourier;
     encrypt := encrypt reachableCourier;
     serializeCCA := serializeCCA reachableCourier;
     clientCollectCargo := clientCollectCargo reachableCourier;
     fetchNodeCertificates := fetchNodeCertificates reachableCourier;
     deserializeCargo := deserializeCargo reachableCourier;
     validateCargo := validateCargo reachableCourier;
     unwrapMessagePayload := unwrapMessagePayload reachableCourier;
     deserializeItem := deserializeItem reachableCourier;
     validateParcel := validateParcel reachableCourier;
     storeEndpointBound := storeEndpointBound reachableCourier;
     deleteInternetBoundFromACK := deleteInternetBoundFromACK reachableCourier;
     collectionRepoFind := collectionRepoFind reachableCourier;
     serializeAck := serializeAck reachableCourier;
     listInternetBound := listInternetBound reachableCourier;
     retrieve := retrieve reachableCourier;
     generateCargoes := generateCargoes reachableCourier;
     uuid := uuid reachableCourier;
     clientDeliverCargo := clientDeliverCargo reachableCourier |}.

End Samples.

(** * Properties *)

(** ** The collection tracker and the collection session *)

Section CollectionFacts.

Import CollectionTracker Collection.

Lemma isCollectionComplete_true (tr : CollectionTracker.t) :
  isCollectionComplete tr = true
  ↔ wereAllParcelsDelivered tr = true ∧ pendingParcelKeyByDeliveryId tr = ∅.
Proof.
  unfold isCollectionComplete.
  rewrite andb_true_iff, Nat.eqb_eq, map_size_empty_iff. done.
Qed.

Lemma truthy_true (k : string) : truthy k = true ↔ k ≠ "".
Proof.
  unfold truthy. rewrite negb_true_iff. split.
  - intros H ->. discriminate.
  - intros H. apply String.eqb_neq. done.
Qed.

Lemma run_cons (s : Session) (e : Event) (events : list Event) :
  run s (e :: events)
  = (fst (run (fst (step s e)) events),
     snd (step s e) ++ snd (run (fst (step s e)) events)).
Proof.
  simpl. destruct (step s e) as [s1 out1]. simpl.
  destruct (run s1 events) as [s2 out2]. done.
Qed.

Lemma deletions_app (out1 out2 : list Action) :
  deletions (out1 ++ out2) = deletions out1 ++ deletions out2.
Proof.
  induction out1 as [|a out1 IH]; [done|].
  destruct a; simpl; by rewrite ?IH.
Qed.

(** [makeACKProcessor_body] by cases on what the tracker holds for the message. *)
Lemma makeACKProcessor_body_eq (a : string) (s : Session) :
  makeACKProcessor_body a s
  = match ackLoop s with
    | AwaitingAck =>
        match pendingParcelKeyByDeliveryId (tracker s) !! a with
        | Some k =>
            if truthy k
            then
              ({| tracker :=
                    {| wereAllParcelsDelivered := wereAllParcelsDelivered (tracker s);
                       pendingParcelKeyByDeliveryId :=
                         delete a (pendingParcelKeyByDeliveryId (tracker s)) |};
                  deliveryLoop := deliveryLoop s;
                  ackLoop := AwaitingDeletion |},
               [DeleteParcel k])
            else
              ({| tracker := tracker s; deliveryLoop := deliveryLoop s;
                  ackLoop := AckReturned |},
               [Close CANNOT_ACCEPT (Some unknownAckReason)])
        | None =>
            if inherited a
            then
              ({| tracker := tracker s; deliveryLoop := deliveryLoop s;
                  ackLoop := AwaitingDeletion |},
               [DeleteInherited a])
            else
              ({| tracker := tracker s; deliveryLoop := deliveryLoop s;
                  ackLoop := AckReturned |},
               [Close CANNOT_ACCEPT (Some unknownAckReason)])
        end
    | _ => (s, [])
    end.
Proof.
  unfold makeACKProcessor_body, popPendingParcelKey, read.
  destruct (ackLoop s); try done.
  destruct (pendingParcelKeyByDeliveryId (tracker s) !! a) as [k|] eqn:Hk.
  - cbn [truthyValue]. destruct (truthy k) eqn:Ht; by rewrite ?Ht.
  - destruct (inherited a); cbn [truthyValue]; [|done].
    rewrite delete_id by done. by destruct (tracker s).
Qed.

(** Unfolds a step down to the tests it makes. *)
Local Ltac step_cases e :=
  destruct e as [?pk ?blob ?d| |?a| |];
  simpl;
  unfold makeDeliveryStream_body, makeDeliveryStream_end,
    makeACKProcessor_resume, makeACKProcessor_end;
  rewrite ?makeACKProcessor_body_eq.

(** Only the ACK loop deletes, and only for a truthy key that was pending. *)
Lemma step_deletions (s : Session) (e : Event) :
  deletions (snd (step s e)) = []
  ∨ ∃ ackMessage k,
      e = AckReceived ackMessage ∧ ackLoop s = AwaitingAck
      ∧ pendingParcelKeyByDeliveryId (tracker s) !! ackMessage = Some k
      ∧ k ≠ ""
      ∧ step s e
        = ({| tracker :=
                {| wereAllParcelsDelivered := wereAllParcelsDelivered (tracker s);
                   pendingParcelKeyByDeliveryId :=
                     delete ackMessage (pendingParcelKeyByDeliveryId (tracker s)) |};
              deliveryLoop := deliveryLoop s;
              ackLoop := AwaitingDeletion |},
           [DeleteParcel k]).
Proof.
  step_cases e.
  - left. by destruct (deliveryLoop s), blob, (ackLoop s).
  - left. destruct (deliveryLoop s); [|done]. simpl.
    by destruct (isCollectionComplete _).
  - destruct (ackLoop s) eqn:Hloop; try (by left).
    destruct (pendingParcelKeyByDeliveryId (tracker s) !! a) as [k|] eqn:Hk;
      [|left; by destruct (inherited a)].
    destruct (truthy k) eqn:Ht; [|by left].
    right. exists a, k. by apply truthy_true in Ht.
  - left. destruct (ackLoop s); try done.
    by destruct (isCollectionComplete _).
  - left. by destruct (ackLoop s).
Qed.

(** Once the ACK loop has returned, it stays so and nothing is deleted. *)
Lemma ackReturned_step (s : Session) (e : Event) :
  ackLoop s = AckReturned →
  ackLoop (fst (step s e)) = AckReturned ∧ deletions (snd (step s e)) = [].
Proof.
  intros Hloop. step_cases e; rewrite ?Hloop; try done.
  - by destruct (deliveryLoop s), blob.
  - destruct (deliveryLoop s); [|done]. simpl.
    by destruct (isCollectionComplete _).
Qed.

Lemma inheritedDeletions_app (out1 out2 : list Action) :
  inheritedDeletions (out1 ++ out2)
  = inheritedDeletions out1 ++ inheritedDeletions out2.
Proof.
  induction out1 as [|a out1 IH]; [done|].
  destruct a; simpl; by rewrite ?IH.
Qed.

(** Once the ACK loop has returned, [parcelStore.delete] is not called any
    more, whatever with. *)
Lemma ackReturned_step_inherited (s : Session) (e : Event) :
  ackLoop s = AckReturned → inheritedDeletions (snd (step s e)) = [].
Proof.
  intros Hloop. step_cases e; rewrite ?Hloop; try done.
  - by destruct (deliveryLoop s), blob.
  - destruct (deliveryLoop s); [|done]. simpl.
    by destruct (isCollectionComplete _).
Qed.

Lemma ackReturned_run_inherited (events : list Event) (s : Session) :
  ackLoop s = AckReturned → inheritedDeletions (snd (run s events)) = [].
Proof.
  revert s. induction events as [|e events IH]; intros s Hloop; [done|].
  rewrite run_cons. simpl.
  destruct (ackReturned_step s e Hloop) as [Hloop1 _].
  by rewrite inheritedDeletions_app, (ackReturned_step_inherited s e Hloop),
    (IH _ Hloop1).
Qed.

Lemma ackReturned_run (events : list Event) (s : Session) :
  ackLoop s = AckReturned →
  ackLoop (fst (run s events)) = AckReturned
  ∧ deletions (snd (run s events)) = [].
Proof.
  revert s. induction events as [|e events IH]; intros s Hloop; [done|].
  rewrite run_cons. simpl.
  destruct (ackReturned_step s e Hloop) as [Hloop1 Hdel1].
  destruct (IH _ Hloop1) as [Hloop2 Hdel2].
  by rewrite deletions_app, Hdel1, Hdel2.
Qed.

(** A delivery-ID that is not pending stays so across a step that does not
    issue it. *)
Lemma step_pending_None (s : Session) (e : Event) (d : string) :
  pendingParcelKeyByDeliveryId (tracker s) !! d = None →
  d ∉ issuedDeliveryIds [e] →
  pendingParcelKeyByDeliveryId (tracker (fst (step s e))) !! d = None.
Proof.
  intros Hd Hfresh. step_cases e.
  - destruct (deliveryLoop s); [|done].
    destruct blob; [|done].
    assert (d0 ≠ d) as Hne by (intros ->; apply Hfresh, list_elem_of_here).
    destruct (ackLoop s); simpl in *; by rewrite lookup_insert_ne.
  - by destruct (deliveryLoop s).
  - destruct (ackLoop s); try done.
    destruct (pendingParcelKeyByDeliveryId (tracker s) !! a) as [k|] eqn:Hk;
      [|by destruct (inherited a)].
    destruct (truthy k); simpl; [|done].
    destruct (decide (a = d)) as [->|?].
    + by rewrite lookup_delete_eq.
    + by rewrite lookup_delete_ne.
  - destruct (ackLoop s); try done.
    by destruct (isCollectionComplete _).
  - by destruct (ackLoop s).
Qed.

Lemma issuedDeliveryIds_cons (e : Event) (events : list Event) :
  issuedDeliveryIds (e :: events) = issuedDeliveryIds [e] ++ issuedDeliveryIds events.
Proof. destruct e as [pk [blob|] d| |a| |]; done. Qed.

Lemma acknowledgements_cons (e : Event) (events : list Event) (a : string) :
  a ∈ acknowledgements events → a ∈ acknowledgements (e :: events).
Proof. intros Ha. destruct e; simpl; try done. by apply list_elem_of_further. Qed.

Lemma run_pending_None (events : list Event) (s : Session) (d : string) :
  pendingParcelKeyByDeliveryId (tracker s) !! d = None →
  d ∉ issuedDeliveryIds events →
  pendingParcelKeyByDeliveryId (tracker (fst (run s events))) !! d = None.
Proof.
  revert s. induction events as [|e events IH]; intros s Hd Hfresh; [done|].
  rewrite run_cons. simpl. rewrite issuedDeliveryIds_cons in Hfresh.
  apply not_elem_of_app in Hfresh as [Hnow Hlater].
  apply IH; [by apply step_pending_None|done].
Qed.

Lemma unknown_acks_no_deletion (events : list Event) (s : Session) :
  (∀ a, a ∈ acknowledgements events →
        pendingParcelKeyByDeliveryId (tracker s) !! a = None
        ∧ a ∉ issuedDeliveryIds events) →
  deletions (snd (run s events)) = [].
Proof.
  revert s. induction events as [|e events IH]; intros s Hacks; [done|].
  rewrite run_cons. simpl. rewrite deletions_app.
  assert (deletions (snd (step s e)) = []) as ->.
  { destruct (step_deletions s e) as [?|(a & k & -> & _ & Hk & _)]; [done|].
    destruct (Hacks a) as [Hnone _]; [apply list_elem_of_here|]. congruence. }
  simpl. apply IH. intros a Ha.
  destruct (Hacks a (acknowledgements_cons e events a Ha)) as [Hnone Hfresh].
  rewrite issuedDeliveryIds_cons in Hfresh.
  apply not_elem_of_app in Hfresh as [Hnow Hlater].
  split; [by apply step_pending_None|done].
Qed.

Lemma deliveryFlagSound_step (s : Session) (e : Event) :
  deliveryFlagSound s → deliveryFlagSound (fst (step s e)).
Proof.
  unfold deliveryFlagSound. intros Hs. step_cases e.
  - destruct (deliveryLoop s) eqn:Hd; [|by simpl].
    destruct blob; simpl; [|by rewrite Hd].
    destruct (ackLoop s); simpl; intros Hflag; try done;
      specialize (Hs Hflag); congruence.
  - destruct (deliveryLoop s) eqn:Hd; simpl; [done|]. by rewrite Hd.
  - destruct (ackLoop s); try by simpl.
    destruct (pendingParcelKeyByDeliveryId (tracker s) !! a) as [k|];
      [|by destruct (inherited a)].
    by destruct (truthy k).
  - destruct (ackLoop s); try by simpl.
    by destruct (isCollectionComplete _).
  - by destruct (ackLoop s).
Qed.

Lemma deliveryFlagSound_run (events : list Event) (s : Session) :
  deliveryFlagSound s → deliveryFlagSound (fst (run s events)).
Proof.
  revert s. induction events as [|e events IH]; intros s Hs; [done|].
  rewrite run_cons. simpl. by apply IH, deliveryFlagSound_step.
Qed.

Lemma deliveryFlagSound_new : deliveryFlagSound newSession.
Proof. intros H. discriminate H. Qed.

(** While the ACK loop awaits a deletion and the delivery loop has returned,
    nothing moves until the deletion resolves. *)
Lemma awaitingDeletion_stable (events : list Event) (s : Session) :
  ackLoop s = AwaitingDeletion →
  deliveryLoop s = DeliveryReturned →
  ParcelDeleted ∉ events →
  fst (run s events) = s.
Proof.
  intros Hack Hdel. induction events as [|e events IH]; intros Hno; [done|].
  apply not_elem_of_cons in Hno as [Hnow Hlater].
  rewrite run_cons. simpl.
  assert (fst (step s e) = s) as ->; [|by apply IH].
  step_cases e; rewrite ?Hdel, ?Hack; done.
Qed.

(** A close with [NORMAL] is only made on a complete collection. *)
Lemma step_normal_close (s : Session) (e : Event) (reason : option string) :
  Close NORMAL reason ∈ snd (step s e) →
  isCollectionComplete (tracker (fst (step s e))) = true.
Proof.
  step_cases e; intros Hin.
  - destruct (deliveryLoop s), blob, (ackLoop s); simpl in Hin;
      try (by apply not_elem_of_nil in Hin);
      by apply list_elem_of_singleton in Hin.
  - destruct (deliveryLoop s); simpl in *;
      [|by apply not_elem_of_nil in Hin].
    destruct (isCollectionComplete _); [done|by apply not_elem_of_nil in Hin].
  - destruct (ackLoop s); simpl in Hin; try (by apply not_elem_of_nil in Hin).
    destruct (pendingParcelKeyByDeliveryId (tracker s) !! a) as [k|];
      [destruct (truthy k)|destruct (inherited a)]; simpl in Hin;
      by apply list_elem_of_singleton in Hin.
  - destruct (ackLoop s); simpl in Hin; try (by apply not_elem_of_nil in Hin).
    destruct (isCollectionComplete (tracker s)) eqn:Hc; simpl in *;
      [done|by apply not_elem_of_nil in Hin].
  - destruct (ackLoop s); simpl in Hin; by apply not_elem_of_nil in Hin.
Qed.

Lemma occurrences_app (k : string) (l1 l2 : list string) :
  occurrences k (l1 ++ l2) = (occurrences k l1 + occurrences k l2)%nat.
Proof. unfold occurrences. by rewrite List.filter_app, length_app. Qed.

Lemma occurrences_singleton (k x : string) :
  occurrences k [x] = if decide (x = k) then 1%nat else 0%nat.
Proof.
  unfold occurrences. simpl. destruct (String.eqb_spec k x) as [->|Hne].
  - by rewrite decide_True.
  - by rewrite decide_False.
Qed.

Lemma occurrences_NoDup (k : string) (l : list string) :
  NoDup l → (occurrences k l ≤ 1)%nat.
Proof.
  induction 1 as [|x l Hx _ IH]; [unfold occurrences; simpl; lia|].
  change (x :: l) with ([x] ++ l). rewrite occurrences_app, occurrences_singleton.
  destruct (decide (x = k)) as [->|Hne]; [|lia].
  assert (occurrences k l = 0%nat) as ->; [|lia].
  clear IH. induction l as [|y l IH]; [done|].
  apply not_elem_of_cons in Hx as [Hy Hl].
  change (y :: l) with ([y] ++ l). rewrite occurrences_app, occurrences_singleton.
  rewrite decide_False by done. by rewrite IH.
Qed.

Lemma retrievedParcelKeys_cons (e : Event) (events : list Event) :
  retrievedParcelKeys (e :: events)
  = retrievedParcelKeys [e] ++ retrievedParcelKeys events.
Proof. destruct e as [pk [blob|] d| |a| |]; done. Qed.

(** Across a step, the deletions of a key are paid for by its pending
    entries, which only a retrieval adds. *)
Lemma step_deletion_count (k : string) (s : Session) (e : Event) :
  (occurrences k (deletions (snd (step s e))) + pendingFor k (fst (step s e))
   ≤ pendingFor k s + occurrences k (retrievedParcelKeys [e]))%nat.
Proof.
  unfold pendingFor.
  destruct (step_deletions s e) as [Hnone|(a & k0 & -> & Hloop & Hk0 & _ & ->)].
  - rewrite Hnone. change (occurrences k []) with 0%nat.
    step_cases e.
    + destruct (deliveryLoop s); [|simpl; lia].
      destruct blob as [blob|]; simpl; [|unfold occurrences; simpl; lia].
      assert (size (filter (λ entry : string * string, entry.2 = k)
                      (<[d:=pk]> (pendingParcelKeyByDeliveryId (tracker s))))
              ≤ size (filter (λ entry : string * string, entry.2 = k)
                        (pendingParcelKeyByDeliveryId (tracker s)))
                + occurrences k [pk])%nat as Hadded.
      { rewrite map_filter_insert, occurrences_singleton. simpl.
        destruct (decide (pk = k)) as [->|Hne].
        - rewrite map_size_insert.
          destruct (filter _ _ !! d); simpl; lia.
        - rewrite map_filter_delete, map_size_delete.
          destruct (filter _ _ !! d); simpl; lia. }
      destruct (ackLoop s); simpl; lia.
    + destruct (deliveryLoop s); simpl; lia.
    + destruct (ackLoop s); simpl; try lia.
      destruct (pendingParcelKeyByDeliveryId (tracker s) !! a) as [k1|] eqn:Hk1;
        simpl; [|destruct (inherited a); simpl; lia].
      destruct (truthy k1); simpl; [|lia].
      rewrite map_filter_delete, map_size_delete.
      destruct (filter _ _ !! a); simpl; lia.
    + destruct (ackLoop s); simpl; try lia.
      destruct (isCollectionComplete _); simpl; lia.
    + destruct (ackLoop s); simpl; lia.
  - simpl. rewrite map_filter_delete, map_size_delete.
    change (occurrences k []) with 0%nat.
    change (occurrences k (deletions [DeleteParcel k0])) with (occurrences k [k0]).
    rewrite occurrences_singleton.
    destruct (decide (k0 = k)) as [->|Hne].
    + assert (filter (λ entry : string * string, entry.2 = k)
                (pendingParcelKeyByDeliveryId (tracker s)) !! a = Some k) as Hin.
      { by apply map_lookup_filter_Some. }
      rewrite Hin.
      assert (size (filter (λ entry : string * string, entry.2 = k)
                      (pendingParcelKeyByDeliveryId (tracker s))) ≠ 0%nat).
      { apply map_size_ne_0_lookup_2 with a. by rewrite Hin. }
      simpl. lia.
    + destruct (filter _ _ !! a); simpl; lia.
Qed.

Lemma run_deletion_count (k : string) (events : list Event) (s : Session) :
  (occurrences k (deletions (snd (run s events)))
   + pendingFor k (fst (run s events))
   ≤ pendingFor k s + occurrences k (retrievedParcelKeys events))%nat.
Proof.
  revert s. induction events as [|e events IH]; intros s.
  - simpl. unfold occurrences. simpl. lia.
  - rewrite run_cons, retrievedParcelKeys_cons.
    cbn [fst snd].
    rewrite deletions_app, !occurrences_app.
    pose proof (step_deletion_count k s e).
    pose proof (IH (fst (step s e))). lia.
Qed.

(** An inherited value is passed to [parcelStore.delete] only when the ACK
    loop reads, as an acknowledgement, a name that the object of the tracker
    inherits and does not own. *)
Lemma step_inheritedDeletions (s : Session) (e : Event) (name : string) :
  name ∈ inheritedDeletions (snd (step s e)) →
  e = AckReceived name
  ∧ ackLoop s = AwaitingAck
  ∧ inherited name = true
  ∧ pendingParcelKeyByDeliveryId (tracker s) !! name = None
  ∧ step s e
    = ({| tracker := tracker s; deliveryLoop := deliveryLoop s;
          ackLoop := AwaitingDeletion |},
       [DeleteInherited name]).
Proof.
  step_cases e; intros Hin.
  - destruct (deliveryLoop s), blob, (ackLoop s); simpl in Hin;
      by apply not_elem_of_nil in Hin.
  - destruct (deliveryLoop s); simpl in Hin; [|by apply not_elem_of_nil in Hin].
    destruct (isCollectionComplete _); by apply not_elem_of_nil in Hin.
  - destruct (ackLoop s) eqn:Hloop; simpl in Hin;
      try (by apply not_elem_of_nil in Hin).
    destruct (pendingParcelKeyByDeliveryId (tracker s) !! a) as [k|] eqn:Hk.
    + destruct (truthy k); by apply not_elem_of_nil in Hin.
    + destruct (inherited a) eqn:Ha; simpl in Hin;
        [|by apply not_elem_of_nil in Hin].
      apply list_elem_of_singleton in Hin as ->. done.
  - destruct (ackLoop s); simpl in Hin; try (by apply not_elem_of_nil in Hin).
    destruct (isCollectionComplete _); by apply not_elem_of_nil in Hin.
  - destruct (ackLoop s); by apply not_elem_of_nil in Hin.
Qed.

Lemma run_inheritedDeletions (events : list Event) (s : Session) (name : string) :
  name ∈ inheritedDeletions (snd (run s events)) →
  name ∈ acknowledgements events ∧ inherited name = true.
Proof.
  revert s. induction events as [|e events IH]; intros s Hin.
  - by apply not_elem_of_nil in Hin.
  - rewrite run_cons in Hin. cbn [snd] in Hin.
    rewrite inheritedDeletions_app in Hin.
    apply elem_of_app in Hin as [Hin|Hin].
    + apply step_inheritedDeletions in Hin as (-> & _ & Hname & _).
      split; [apply list_elem_of_here|done].
    + destruct (IH _ Hin) as [Hack Hname].
      split; [by apply acknowledgements_cons|done].
Qed.

(** C2, as stated, fails for an acknowledgement that the ACK loop does not
    read. Once the one parcel of a collection has been acknowledged and
    deleted, the ACK loop closes the socket with [NORMAL] and leaves. A
    delivery-ID that the client sends after that, which was never issued and
    which the tracker does not map, is never read: the session does nothing
    at all in return, and it never closes with 1008. The same holds for what
    the client sends after a first unknown delivery-ID, on which the ACK
    loop has left as well. *)
Lemma unknown_ack_after_the_loop_has_left_is_not_read :
  let collected :=
    [ParcelKeyRetrieved "k1" (Some [Byte.x01]) "d1"; ParcelKeysEnded;
     AckReceived "d1"; ParcelDeleted] in
  let s := fst (run newSession collected) in
  pendingParcelKeyByDeliveryId (tracker s) !! "bogus" = None
  ∧ inherited "bogus" = false
  ∧ issuedDeliveryIds collected = ["d1"]
  ∧ snd (step s (AckReceived "bogus")) = []
  ∧ closes (snd (run newSession (collected ++ [AckReceived "bogus"])))
    = [(NORMAL, None)]
  ∧ snd (step (fst (run newSession [AckReceived "bogus"])) (AckReceived "other"))
    = [].
Proof. repeat split; reflexivity. Qed.

(** The ACK loop takes a name that the object of the tracker inherits for a
    pending delivery-ID: a client that acknowledges [constructor], which was
    never issued, is not refused, and [parcelStore.delete] is called with
    the value that [Object.prototype] has under that name. *)
Example inherited_name_is_not_refused :
  CollectionTracker.read "constructor" CollectionTracker.new
  = Some (Inherited "constructor")
  ∧ snd (run newSession [AckReceived "constructor"])
    = [DeleteInherited "constructor"]
  ∧ closes (snd (run newSession [AckReceived "constructor"; ParcelDeleted;
                                 AckReceived "constructor"; ParcelDeleted]))
    = [].
Proof. repeat split; reflexivity. Qed.

(** C2, amended. When the ACK loop, still running, reads a message that is
    neither a delivery-ID mapped in the tracker nor the name of a property
    that the object of the tracker inherits from [Object.prototype], all it
    does is close the socket with [CANNOT_ACCEPT] (1008) and a reason that
    starts with "Unknown delivery id", and from there on the session calls
    [parcelStore.delete] no more, whatever happens next. In particular a
    session in which every acknowledgement is such a message and is for a
    delivery-ID that was never issued deletes nothing at all. *)
Theorem unknown_ack_closes_without_deleting :
  (∀ (s : Session) (ackMessage : string),
      ackLoop s = AwaitingAck →
      pendingParcelKeyByDeliveryId (tracker s) !! ackMessage = None →
      inherited ackMessage = false →
      ∃ s',
        step s (AckReceived ackMessage)
        = (s', [Close CANNOT_ACCEPT (Some unknownAckReason)])
        ∧ webSocketCodeNumber CANNOT_ACCEPT = 1008%Z
        ∧ String.prefix "Unknown delivery id" unknownAckReason = true
        ∧ ∀ later,
            deletions (snd (run s' later)) = []
            ∧ inheritedDeletions (snd (run s' later)) = [])
  ∧ (∀ events : list Event,
      (∀ ackMessage, ackMessage ∈ acknowledgements events →
                     (ackMessage ∉ issuedDeliveryIds events)
                     ∧ inherited ackMessage = false) →
      deletions (snd (run newSession events)) = []
      ∧ inheritedDeletions (snd (run newSession events)) = []).
Proof.
  split.
  - intros s a Hloop Hnone Hown. eexists.
    split; [|split; [done|split; [done|]]].
    + simpl. rewrite makeACKProcessor_body_eq, Hloop, Hnone, Hown. reflexivity.
    + intros later. split; [by apply ackReturned_run|].
      by apply ackReturned_run_inherited.
  - intros events Hacks. split.
    + apply unknown_acks_no_deletion.
      intros a Ha. split; [apply lookup_empty|by apply Hacks].
    + destruct (inheritedDeletions (snd (run newSession events)))
        as [|name names] eqn:Hnames; [done|].
      exfalso.
      destruct (run_inheritedDeletions events newSession name) as [Hack Hname].
      { rewrite Hnames. apply list_elem_of_here. }
      destruct (Hacks name Hack) as [_ Hown]. congruence.
Qed.

Lemma unknown_ack_closes_without_deleting_witness :
  (∃ s',
      step newSession (AckReceived "bogus")
      = (s', [Close CANNOT_ACCEPT (Some unknownAckReason)])
      ∧ webSocketCodeNumber CANNOT_ACCEPT = 1008%Z
      ∧ String.prefix "Unknown delivery id" unknownAckReason = true
      ∧ ∀ later,
          deletions (snd (run s' later)) = []
          ∧ inheritedDeletions (snd (run s' later)) = [])
  ∧ (deletions
       (snd (run newSession
               [ParcelKeyRetrieved "k1" (Some []) "d1"; AckReceived "bogus";
                ParcelKeysEnded]))
     = []
     ∧ inheritedDeletions
         (snd (run newSession
                 [ParcelKeyRetrieved "k1" (Some []) "d1"; AckReceived "bogus";
                  ParcelKeysEnded]))
       = []).
Proof.
  split.
  - apply (proj1 unknown_ack_closes_without_deleting newSession "bogus").
    + reflexivity.
    + reflexivity.
    + reflexivity.
  - apply (proj2 unknown_ack_closes_without_deleting).
    intros a Ha. simpl in *.
    apply list_elem_of_singleton in Ha. subst a. split; [|reflexivity].
    intros Hin. apply list_elem_of_singleton in Hin. discriminate Hin.
Defined.

(** C3. In a session driven from its start: whenever the socket is closed
    with [NORMAL] (1000), the tracker has, at that moment, its flag set and
    no pending delivery-ID; and whenever a step makes that conjunction true,
    the session closes with [NORMAL]: at once when it is the delivery loop
    that ends, and, when it is the ACK loop that has removed the last pending
    delivery-ID, as soon as the deletion that it has issued has resolved. *)
Theorem normal_close_iff_collection_complete
    (events : list Event) (e : Event) :
  let s := fst (run newSession events) in
  let s' := fst (step s e) in
  let out := snd (step s e) in
  webSocketCodeNumber NORMAL = 1000%Z
  ∧ (∀ reason, Close NORMAL reason ∈ out →
       wereAllParcelsDelivered (tracker s') = true
       ∧ pendingParcelKeyByDeliveryId (tracker s') = ∅)
  ∧ (isCollectionComplete (tracker s) = false →
     isCollectionComplete (tracker s') = true →
     (e = ParcelKeysEnded ∧ out = [Close NORMAL None])
     ∨ (∃ ackMessage parcelKey,
          e = AckReceived ackMessage ∧ out = [DeleteParcel parcelKey]
          ∧ ackLoop s' = AwaitingDeletion
          ∧ ∀ later, ParcelDeleted ∉ later →
              snd (step (fst (run s' later)) ParcelDeleted)
              = [Close NORMAL None])).
Proof.
  intros s s' out.
  assert (deliveryFlagSound s) as Hsound
    by apply deliveryFlagSound_run, deliveryFlagSound_new.
  split; [done|split].
  - intros reason Hin. apply isCollectionComplete_true.
    by apply step_normal_close with reason.
  - intros Hbefore Hafter. subst s' out. revert Hafter. step_cases e; intros Hafter.
    + exfalso.
      destruct (deliveryLoop s) eqn:Hd; simpl in Hafter; [|congruence].
      destruct blob; simpl in Hafter; [|congruence].
      destruct (ackLoop s); simpl in Hafter;
        apply isCollectionComplete_true in Hafter as [Hflag _];
        simpl in Hflag; specialize (Hsound Hflag); congruence.
    + left. split; [done|].
      destruct (deliveryLoop s); simpl in *; [|congruence]. by rewrite Hafter.
    + right.
      destruct (ackLoop s) eqn:Hloop; simpl in *; try congruence.
      destruct (pendingParcelKeyByDeliveryId (tracker s) !! a) as [k|];
        simpl in *; [|destruct (inherited a); simpl in *; congruence].
      destruct (truthy k); simpl in *; [|congruence].
      exists a, k. split; [done|split; [done|split; [done|]]].
      intros later Hlater.
      apply isCollectionComplete_true in Hafter as Hc. destruct Hc as [Hflag _].
      simpl in Hflag.
      rewrite awaitingDeletion_stable; [|done|by apply Hsound|done].
      unfold makeACKProcessor_resume. simpl. by rewrite Hafter.
    + exfalso.
      destruct (ackLoop s); simpl in Hafter; try congruence.
      destruct (isCollectionComplete (tracker s)) eqn:Hc; simpl in Hafter;
        congruence.
    + exfalso. destruct (ackLoop s); simpl in Hafter; congruence.
Qed.

Lemma normal_close_iff_collection_complete_witness :
  let s :=
    fst (run newSession
           [ParcelKeyRetrieved "k1" (Some []) "d1"; ParcelKeysEnded]) in
  let s' := fst (step s (AckReceived "d1")) in
  isCollectionComplete (tracker s) = false
  ∧ isCollectionComplete (tracker s') = true
  ∧ snd (step (fst (run s' [])) ParcelDeleted) = [Close NORMAL None].
Proof.
  intros s s'. split; [reflexivity|]. split; [reflexivity|].
  destruct
    (normal_close_iff_collection_complete
       [ParcelKeyRetrieved "k1" (Some []) "d1"; ParcelKeysEnded]
       (AckReceived "d1")) as (_ & _ & Hbecomes).
  destruct Hbecomes as [[Habs _]|(a & k & _ & _ & _ & Hclose)].
  - reflexivity.
  - reflexivity.
  - discriminate Habs.
  - exact (Hclose [] (not_elem_of_nil _)).
Defined.

(** C10, as stated, fails on its last clause: a client whose first
    acknowledgement completes the collection is closed with [NORMAL] on that
    first acknowledgement; the ACK loop has left its loop and the second
    acknowledgement of the same delivery-ID is never read, so that no close
    with [CANNOT_ACCEPT] takes place. *)
Lemma second_ack_after_completion_is_not_refused :
  let events :=
    [ParcelKeyRetrieved "k1" (Some []) "d1"; ParcelKeysEnded;
     AckReceived "d1"; ParcelDeleted; AckReceived "d1"] in
  acknowledgements events = ["d1"; "d1"]
  ∧ closes (snd (run newSession events)) = [(NORMAL, None)]
  ∧ deletions (snd (run newSession events)) = ["k1"].
Proof. simpl. split; [reflexivity|]. split; reflexivity. Qed.

(** An empty parcel key is falsy: the tracker hands it out without removing
    its entry, and the ACK loop takes the delivery-ID for an unknown one. *)
Example empty_parcel_key_is_not_popped :
  let tr := addPendingACK "d1" "" CollectionTracker.new in
  popPendingParcelKey "d1" tr = (Some (ParcelKey ""), tr)
  ∧ snd (run newSession [ParcelKeyRetrieved "" (Some []) "d1"; AckReceived "d1"])
    = [SendParcelDelivery "d1" [];
       Close CANNOT_ACCEPT (Some unknownAckReason)].
Proof. split; reflexivity. Qed.

(** C10, amended. (1) When [popPendingParcelKey d] returns a parcel key that
    is not the empty string, the entry of [d] is removed, and, [d] not being
    the name of a property that the object of the tracker inherits from
    [Object.prototype], popping [d] again at once returns [undefined].
    (2) In a session, a parcel key is never deleted more often than a parcel
    was retrieved for it; when the store hands out no key twice, each is
    deleted at most once. (3) When the ACK loop reads an acknowledgement of
    such a [d], and later, still running and with [d] not issued again in
    between, reads a second one, all it does is close the socket with
    [CANNOT_ACCEPT] (1008). *)
Theorem pop_removes_and_second_ack_is_refused :
  (∀ (tr tr' : CollectionTracker.t) (d k : string),
      popPendingParcelKey d tr = (Some (ParcelKey k), tr') →
      k ≠ "" →
      pendingParcelKeyByDeliveryId tr' !! d = None
      ∧ (inherited d = false → popPendingParcelKey d tr' = (None, tr')))
  ∧ (∀ (events : list Event) (k : string),
      (occurrences k (deletions (snd (run newSession events)))
       ≤ occurrences k (retrievedParcelKeys events))%nat
      ∧ (NoDup (retrievedParcelKeys events) →
         (occurrences k (deletions (snd (run newSession events))) ≤ 1)%nat))
  ∧ (∀ (s : Session) (d : string) (between : list Event),
      ackLoop s = AwaitingAck →
      inherited d = false →
      d ∉ issuedDeliveryIds between →
      let s1 := fst (step s (AckReceived d)) in
      let s2 := fst (run s1 between) in
      ackLoop s2 = AwaitingAck →
      snd (step s2 (AckReceived d))
      = [Close CANNOT_ACCEPT (Some unknownAckReason)]
      ∧ webSocketCodeNumber CANNOT_ACCEPT = 1008%Z).
Proof.
  split; [|split].
  - intros tr tr' d k Hpop Hk. unfold popPendingParcelKey, read in Hpop.
    destruct (pendingParcelKeyByDeliveryId tr !! d) as [k'|] eqn:Hd.
    2:{ destruct (inherited d); cbn [truthyValue] in Hpop; congruence. }
    cbn [truthyValue] in Hpop.
    assert (k' = k) as -> by (destruct (truthy k'); congruence).
    apply truthy_true in Hk. rewrite Hk in Hpop.
    injection Hpop as <-. simpl. split; [apply lookup_delete_eq|].
    intros Hown. unfold popPendingParcelKey, read. simpl.
    by rewrite lookup_delete_eq, Hown.
  - intros events k.
    assert (occurrences k (deletions (snd (run newSession events)))
            ≤ occurrences k (retrievedParcelKeys events))%nat as Hcount.
    { pose proof (run_deletion_count k events newSession) as H.
      unfold pendingFor at 2 in H. simpl in H.
      rewrite map_filter_empty, map_size_empty in H. lia. }
    split; [done|]. intros Hnodup.
    pose proof (occurrences_NoDup k _ Hnodup). lia.
  - intros s d between Hloop Hown Hfresh s1 s2 Hloop2. split; [|done].
    assert (pendingParcelKeyByDeliveryId (tracker s1) !! d = None) as Hgone.
    { destruct (pendingParcelKeyByDeliveryId (tracker s) !! d) as [k|] eqn:Hd.
      - destruct (truthy k) eqn:Ht.
        + unfold s1. simpl. rewrite makeACKProcessor_body_eq, Hloop, Hd, Ht. simpl.
          apply lookup_delete_eq.
        + exfalso.
          assert (ackLoop s1 = AckReturned) as Hret1.
          { unfold s1. simpl. by rewrite makeACKProcessor_body_eq, Hloop, Hd, Ht. }
          destruct (ackReturned_run between s1 Hret1) as [Hret _].
          unfold s2 in Hloop2. congruence.
      - unfold s1. simpl. by rewrite makeACKProcessor_body_eq, Hloop, Hd, Hown. }
    simpl. rewrite makeACKProcessor_body_eq, Hloop2.
    unfold s2. by rewrite (run_pending_None between s1 d Hgone Hfresh), Hown.
Qed.

Lemma pop_removes_and_second_ack_is_refused_witness :
  (let tr := addPendingACK "d1" "k1" CollectionTracker.new in
   let tr' := snd (popPendingParcelKey "d1" tr) in
   pendingParcelKeyByDeliveryId tr' !! "d1" = None
   ∧ popPendingParcelKey "d1" tr' = (None, tr'))
  ∧ (let s :=
       fst (run newSession
              [ParcelKeyRetrieved "k1" (Some []) "d1";
               ParcelKeyRetrieved "k2" (Some []) "d2"]) in
     let s1 := fst (step s (AckReceived "d1")) in
     let s2 := fst (run s1 [ParcelDeleted]) in
     snd (step s2 (AckReceived "d1"))
     = [Close CANNOT_ACCEPT (Some unknownAckReason)]
     ∧ webSocketCodeNumber CANNOT_ACCEPT = 1008%Z).
Proof.
  split.
  - destruct (proj1 pop_removes_and_second_ack_is_refused
                (addPendingACK "d1" "k1" CollectionTracker.new)
                (snd (popPendingParcelKey "d1"
                        (addPendingACK "d1" "k1" CollectionTracker.new)))
                "d1" "k1") as [Hgone Hagain].
    + reflexivity.
    + discriminate.
    + split; [exact Hgone|]. apply Hagain. reflexivity.
  - apply (proj2 (proj2 pop_removes_and_second_ack_is_refused)
             _ "d1" [ParcelDeleted]).
    + reflexivity.
    + reflexivity.
    + simpl. apply not_elem_of_nil.
    + reflexivity.
Defined.

End CollectionFacts.

(** ** The handshake and the connection handler *)

Section HandshakeFacts.

Import CollectionTracker Collection.

Variable deserializeHandshakeResponse : Buffer → option (list Buffer).
Variable verifyNonceSignature :
  Buffer → Buffer → list Certificate → option Certificate.

Abbreviation verifyFrom := (verifyNonceSignaturesFrom verifyNonceSignature).
Abbreviation handshake :=
  (doHandshake deserializeHandshakeResponse verifyNonceSignature).
Abbreviation handle :=
  (makeParcelCollectionServer deserializeHandshakeResponse verifyNonceSignature).

Lemma verifyNonceSignaturesFrom_None (nonce : Buffer)
    (ownCertificates : list Certificate) (nonceSignatures : list Buffer) :
  ∀ (endpointCertificates : list Certificate) (nonceSignature : Buffer),
    nonceSignature ∈ nonceSignatures →
    verifyNonceSignature nonceSignature nonce ownCertificates = None →
    verifyFrom endpointCertificates nonceSignatures nonce ownCertificates = None.
Proof.
  induction nonceSignatures as [|sig rest IH]; intros acc bad Hin Hbad.
  - by apply not_elem_of_nil in Hin.
  - simpl.
    destruct (verifyNonceSignature sig nonce ownCertificates) as [c|] eqn:Hsig;
      [|done].
    apply elem_of_cons in Hin as [->|Hin]; [congruence|].
    by apply IH with bad.
Qed.

Lemma verifyNonceSignaturesFrom_Some (nonce : Buffer)
    (ownCertificates : list Certificate) (nonceSignatures : list Buffer) :
  ∀ endpointCertificates : list Certificate,
    (∀ nonceSignature, nonceSignature ∈ nonceSignatures →
       verifyNonceSignature nonceSignature nonce ownCertificates ≠ None) →
    ∃ verified,
      Forall2
        (λ nonceSignature endpointCertificate,
           verifyNonceSignature nonceSignature nonce ownCertificates
           = Some endpointCertificate)
        nonceSignatures verified
      ∧ verifyFrom endpointCertificates nonceSignatures nonce ownCertificates
        = Some (endpointCertificates ++ verified).
Proof.
  induction nonceSignatures as [|sig rest IH]; intros acc Hall.
  - exists []. split; [constructor|]. simpl. by rewrite app_nil_r.
  - simpl.
    destruct (verifyNonceSignature sig nonce ownCertificates) as [c|] eqn:Hsig.
    + destruct (IH (acc ++ [c])) as (verified & Hforall & Hrun).
      { intros sig' Hin. apply Hall. by apply list_elem_of_further. }
      exists (c :: verified). split; [by constructor|].
      rewrite Hrun. by rewrite <- app_assoc.
    + exfalso. apply (Hall sig); [apply list_elem_of_here|done].
Qed.

(** The two loops of a session neither open a key stream nor send a
    challenge: all they do is send parcels, delete them and close. *)
Lemma run_actions (events : list Event) (s : Session) (a : Action) :
  a ∈ snd (run s events) →
  match a with
  | SendChallenge _ | StreamActiveBoundForEndpoints _ _ => False
  | _ => True
  end.
Proof.
  revert s. induction events as [|e events IH]; intros s Hin.
  - by apply not_elem_of_nil in Hin.
  - rewrite run_cons in Hin. simpl in Hin.
    apply elem_of_app in Hin as [Hin|Hin]; [|by apply IH with (fst (step s e))].
    destruct e as [pk blob d| |ack| |]; simpl in Hin.
    + unfold makeDeliveryStream_body in Hin.
      destruct (deliveryLoop s), blob, (ackLoop s); simpl in Hin;
        try (by apply not_elem_of_nil in Hin);
        apply list_elem_of_singleton in Hin; by subst a.
    + unfold makeDeliveryStream_end in Hin. destruct (deliveryLoop s); simpl in Hin.
      * destruct (isCollectionComplete _).
        -- apply list_elem_of_singleton in Hin. by subst a.
        -- by apply not_elem_of_nil in Hin.
      * by apply not_elem_of_nil in Hin.
    + rewrite makeACKProcessor_body_eq in Hin.
      destruct (ackLoop s); simpl in Hin;
        try (by apply not_elem_of_nil in Hin).
      destruct (pendingParcelKeyByDeliveryId (tracker s) !! ack) as [k|];
        [destruct (truthy k)|destruct (inherited ack)]; simpl in Hin;
        apply list_elem_of_singleton in Hin; by subst a.
    + unfold makeACKProcessor_resume in Hin.
      destruct (ackLoop s); simpl in Hin;
        try (by apply not_elem_of_nil in Hin).
      destruct (isCollectionComplete _); simpl in Hin.
      * apply list_elem_of_singleton in Hin. by subst a.
      * by apply not_elem_of_nil in Hin.
    + unfold makeACKProcessor_end in Hin.
      destruct (ackLoop s); simpl in Hin; by apply not_elem_of_nil in Hin.
Qed.

Local Ltac refused :=
  right; eexists; split; [|reflexivity]; discriminate.

(** What [doHandshake] does, by cases. *)
Lemma doHandshake_actions (nonce : Buffer) (ownCertificates : list Certificate)
    (message : Buffer) :
  (∃ addresses,
      handshake nonce ownCertificates message
      = (Some addresses, [SendChallenge nonce]))
  ∨ (∃ reason,
      reason ≠ ""
      ∧ handshake nonce ownCertificates message
        = (None, [SendChallenge nonce; Close CANNOT_ACCEPT (Some reason)])).
Proof.
  unfold doHandshake.
  destruct (deserializeHandshakeResponse message) as [sigs|]; [|refused].
  destruct (Nat.eqb (length sigs) 0); [refused|].
  destruct (verifyNonceSignatures verifyNonceSignature sigs nonce ownCertificates);
    [|refused].
  left. eexists. reflexivity.
Qed.

(** C6. The session keeps the connection alive unless the request header
    [x-relaynet-streaming-mode] is exactly [close-upon-completion]: [keepAlive]
    is false for that value, and true when the header is absent or has any
    other value. Each session that passes the handshake opens the key stream
    of the parcel store with that value of [keepAlive], and no session opens
    it with another. *)
Theorem keepAlive_unless_close_upon_completion
    (requestHeaders : gmap string string) (nonce : Buffer)
    (ownCertificates : list Certificate) (message : Buffer)
    (events : list Event) :
  (keepAliveOf requestHeaders = false
   ↔ requestHeaders !! "x-relaynet-streaming-mode" = Some "close-upon-completion")
  ∧ (keepAliveOf requestHeaders = true
     ↔ requestHeaders !! "x-relaynet-streaming-mode" ≠ Some "close-upon-completion")
  ∧ (∀ addresses keepAlive,
       StreamActiveBoundForEndpoints addresses keepAlive
       ∈ handle nonce ownCertificates requestHeaders message events →
       keepAlive = keepAliveOf requestHeaders)
  ∧ (∀ addresses,
       fst (handshake nonce ownCertificates message) = Some addresses →
       StreamActiveBoundForEndpoints addresses (keepAliveOf requestHeaders)
       ∈ handle nonce ownCertificates requestHeaders message events).
Proof.
  assert (keepAliveOf requestHeaders = false
          ↔ requestHeaders !! "x-relaynet-streaming-mode"
            = Some "close-upon-completion") as Hfalse.
  { unfold keepAliveOf.
    destruct (requestHeaders !! "x-relaynet-streaming-mode") as [mode|];
      [|split; discriminate].
    rewrite negb_false_iff, String.eqb_eq. split; congruence. }
  split; [exact Hfalse|]. split; [|split].
  - rewrite <- Hfalse. by destruct (keepAliveOf requestHeaders).
  - intros addresses keepAlive Hin. unfold makeParcelCollectionServer in Hin.
    destruct (doHandshake_actions nonce ownCertificates message)
      as [(addrs & Hok)|(reason & _ & Hrefused)].
    + rewrite Hok in Hin. simpl in Hin.
      apply elem_of_cons in Hin as [Hin|Hin]; [discriminate Hin|].
      apply elem_of_cons in Hin as [Hin|Hin]; [congruence|].
      by apply run_actions in Hin.
    + rewrite Hrefused in Hin.
      apply elem_of_cons in Hin as [Hin|Hin]; [discriminate Hin|].
      apply list_elem_of_singleton in Hin. discriminate Hin.
  - intros addresses Hok. unfold makeParcelCollectionServer.
    destruct (handshake nonce ownCertificates message) as [result out].
    simpl in Hok. subst result.
    apply elem_of_app. right. apply list_elem_of_here.
Qed.

(** C7. When the handshake message is malformed, carries no nonce signature,
    or carries a signature that does not verify against the certificates of
    the gateway, the handshake resolves to [null] after closing the socket
    with [CANNOT_ACCEPT] (1008) and a reason, and the session ends there: no
    key stream is opened and no parcel is delivered. Otherwise the handshake
    returns, in the order of the signatures, the private address of the
    certificate that verifies each of them. *)
Theorem handshake_refuses_or_returns_addresses
    (nonce : Buffer) (ownCertificates : list Certificate) (message : Buffer) :
  ((deserializeHandshakeResponse message = None
    ∨ deserializeHandshakeResponse message = Some []
    ∨ ∃ nonceSignatures nonceSignature,
        deserializeHandshakeResponse message = Some nonceSignatures
        ∧ nonceSignature ∈ nonceSignatures
        ∧ verifyNonceSignature nonceSignature nonce ownCertificates = None) →
   ∃ reason,
     reason ≠ ""
     ∧ handshake nonce ownCertificates message
       = (None, [SendChallenge nonce; Close CANNOT_ACCEPT (Some reason)])
     ∧ webSocketCodeNumber CANNOT_ACCEPT = 1008%Z
     ∧ ∀ requestHeaders events,
         handle nonce ownCertificates requestHeaders message events
         = [SendChallenge nonce; Close CANNOT_ACCEPT (Some reason)])
  ∧ (∀ nonceSignatures,
       deserializeHandshakeResponse message = Some nonceSignatures →
       nonceSignatures ≠ [] →
       (∀ nonceSignature, nonceSignature ∈ nonceSignatures →
          verifyNonceSignature nonceSignature nonce ownCertificates ≠ None) →
       ∃ endpointCertificates,
         Forall2
           (λ nonceSignature endpointCertificate,
              verifyNonceSignature nonceSignature nonce ownCertificates
              = Some endpointCertificate)
           nonceSignatures endpointCertificates
         ∧ handshake nonce ownCertificates message
           = (Some (map subjectPrivateAddress endpointCertificates),
              [SendChallenge nonce])).
Proof.
  split.
  - intros Hbad.
    assert (∃ reason,
               reason ≠ ""
               ∧ handshake nonce ownCertificates message
                 = (None, [SendChallenge nonce; Close CANNOT_ACCEPT (Some reason)]))
      as (reason & Hreason & Hrefused).
    { unfold doHandshake.
      destruct Hbad as [->| [->| (sigs & bad & -> & Hin & Hbad)]].
      - eexists. split; [|reflexivity]. discriminate.
      - eexists. split; [|reflexivity]. discriminate.
      - destruct (Nat.eqb (length sigs) 0).
        + eexists. split; [|reflexivity]. discriminate.
        + unfold verifyNonceSignatures.
          rewrite (verifyNonceSignaturesFrom_None _ _ _ _ bad Hin Hbad).
          eexists. split; [|reflexivity]. discriminate. }
    exists reason. split; [done|]. split; [done|]. split; [done|].
    intros requestHeaders events. unfold makeParcelCollectionServer. by rewrite Hrefused.
  - intros sigs Hsigs Hnonempty Hall. unfold doHandshake. rewrite Hsigs.
    destruct sigs as [|sig rest]; [done|]. simpl Nat.eqb. cbv iota.
    destruct (verifyNonceSignaturesFrom_Some nonce ownCertificates (sig :: rest)
                [] Hall) as (verified & Hforall & Hrun).
    exists verified. split; [done|].
    unfold verifyNonceSignatures. by rewrite Hrun.
Qed.

End HandshakeFacts.

Section HandshakeSamples.

Import Collection.

Lemma keepAlive_unless_close_upon_completion_witness :
  let requestHeaders : gmap string string :=
    {[ "x-relaynet-streaming-mode" := "close-upon-completion" ]} in
  keepAliveOf requestHeaders = false
  ∧ StreamActiveBoundForEndpoints ["a-endpoint"] false
    ∈ makeParcelCollectionServer Samples.deserializeHandshakeResponse
        Samples.verifyNonceSignature [Byte.x10] [Samples.gatewayCertificate]
        requestHeaders [Byte.x61] [].
Proof.
  intros requestHeaders.
  pose proof
    (keepAlive_unless_close_upon_completion
       Samples.deserializeHandshakeResponse Samples.verifyNonceSignature
       requestHeaders [Byte.x10] [Samples.gatewayCertificate] [Byte.x61] [])
    as (Hfalse & _ & _ & Hopened).
  split.
  - apply Hfalse. reflexivity.
  - apply (Hopened ["a-endpoint"]). reflexivity.
Defined.

Lemma handshake_refuses_or_returns_addresses_witness :
  (∃ reason,
      reason ≠ ""
      ∧ doHandshake Samples.deserializeHandshakeResponse
          Samples.verifyNonceSignature [Byte.x10] [Samples.gatewayCertificate]
          [Byte.x61; Byte.x7a]
        = (None, [SendChallenge [Byte.x10]; Close CANNOT_ACCEPT (Some reason)])
      ∧ webSocketCodeNumber CANNOT_ACCEPT = 1008%Z
      ∧ ∀ requestHeaders events,
          makeParcelCollectionServer Samples.deserializeHandshakeResponse
            Samples.verifyNonceSignature [Byte.x10] [Samples.gatewayCertificate]
            requestHeaders [Byte.x61; Byte.x7a] events
          = [SendChallenge [Byte.x10]; Close CANNOT_ACCEPT (Some reason)])
  ∧ ∃ endpointCertificates,
      Forall2
        (λ nonceSignature endpointCertificate,
           Samples.verifyNonceSignature nonceSignature [Byte.x10]
             [Samples.gatewayCertificate]
           = Some endpointCertificate)
        [[Byte.x61]; [Byte.x62]] endpointCertificates
      ∧ doHandshake Samples.deserializeHandshakeResponse
          Samples.verifyNonceSignature [Byte.x10] [Samples.gatewayCertificate]
          [Byte.x61; Byte.x62]
        = (Some (map subjectPrivateAddress endpointCertificates),
           [SendChallenge [Byte.x10]]).
Proof.
  split.
  - apply (proj1 (handshake_refuses_or_returns_addresses
                    Samples.deserializeHandshakeResponse
                    Samples.verifyNonceSignature [Byte.x10]
                    [Samples.gatewayCertificate] [Byte.x61; Byte.x7a])).
    right. right. exists [[Byte.x61]; [Byte.x7a]], [Byte.x7a].
    split; [reflexivity|]. split; [|reflexivity].
    apply list_elem_of_further, list_elem_of_here.
  - apply (proj2 (handshake_refuses_or_returns_addresses
                    Samples.deserializeHandshakeResponse
                    Samples.verifyNonceSignature [Byte.x10]
                    [Samples.gatewayCertificate] [Byte.x61; Byte.x62])).
    + reflexivity.
    + discriminate.
    + intros nonceSignature Hin.
      apply elem_of_cons in Hin as [->|Hin]; [discriminate|].
      apply list_elem_of_singleton in Hin as ->. discriminate.
Defined.

End HandshakeSamples.

(** ** The courier-sync subprocess *)

Section CourierSyncFacts.

Import CourierSync.

(** *** Computations and their effects *)

Lemma bind_outcome {A B} (m : Async A) (k : A → Async B) :
  fst (bind m k)
  = match fst m with
    | Returned a => fst (k a)
    | Thrown err => Thrown err
    end.
Proof. destruct m as [[a|err] out]; simpl; [|done]. by destruct (k a). Qed.

Lemma bind_effects {A B} (m : Async A) (k : A → Async B) :
  snd (bind m k)
  = snd m ++ match fst m with
             | Returned a => snd (k a)
             | Thrown _ => []
             end.
Proof.
  destruct m as [[a|err] out]; simpl; [|by rewrite app_nil_r].
  by destruct (k a).
Qed.

Lemma Emits_ret (Q : Effect → Prop) {A} (a : A) : Emits Q (ret a).
Proof. constructor. Qed.

Lemma Emits_throw (Q : Effect → Prop) {A} (err : string) :
  Emits Q (throw (A := A) err).
Proof. constructor. Qed.

Lemma Emits_await (Q : Effect → Prop) {A} (o : Outcome A) : Emits Q (await o).
Proof. constructor. Qed.

Lemma Emits_perform (Q : Effect → Prop) (e : Effect) : Q e → Emits Q (perform e).
Proof. intros He. by repeat constructor. Qed.

Lemma Emits_call (Q : Effect → Prop) {A} (e : Effect) (o : Outcome A) :
  Q e → Emits Q (call e o).
Proof. intros He. by repeat constructor. Qed.

Lemma Emits_nonNull (Q : Effect → Prop) {A} (o : option A) : Emits Q (nonNull o).
Proof. destruct o; constructor. Qed.

Lemma Emits_bind (Q : Effect → Prop) {A B} (m : Async A) (k : A → Async B) :
  Emits Q m → (∀ a, Emits Q (k a)) → Emits Q (bind m k).
Proof.
  unfold Emits. intros Hm Hk. rewrite bind_effects. apply Forall_app. split; [done|].
  destruct (fst m); [apply Hk|constructor].
Qed.

Lemma Emits_tryCatch (Q : Effect → Prop) {A} (body : Async A)
    (handler : string → Async A) :
  Emits Q body → (∀ err, Emits Q (handler err)) → Emits Q (tryCatch body handler).
Proof.
  unfold Emits. intros Hbody Hhandler. destruct body as [[a|err] out]; simpl in *;
    [done|].
  specialize (Hhandler err). destruct (handler err) as [r out'].
  apply Forall_app. by split.
Qed.

Lemma Emits_finally (Q : Effect → Prop) {A} (body : Async A)
    (cleanup : Async unit) :
  Emits Q body → Emits Q cleanup → Emits Q (finally body cleanup).
Proof.
  unfold Emits. intros Hbody Hcleanup. destruct body as [r out].
  destruct cleanup as [[u|err] out']; simpl in *; apply Forall_app; by split.
Qed.

Lemma Emits_weaken (Q Q' : Effect → Prop) {A} (m : Async A) :
  (∀ e, Q e → Q' e) → Emits Q m → Emits Q' m.
Proof. unfold Emits. intros HQ Hm. by apply Forall_impl with Q. Qed.

Local Ltac emits :=
  repeat first
    [ apply Emits_ret | apply Emits_throw | apply Emits_await
    | apply Emits_nonNull
    | apply Emits_perform; simpl
    | apply Emits_call; simpl
    | apply Emits_bind; [|intros ?] ].

(** *** The validity window of a CCA *)

Variable env : Environment.

(** Fourteen days ahead: 14 days of 24 hours, and what the offset of local
    time at [date] exceeds the offset at the day reached by. *)
Lemma addDays_ttl (tza : Z → bool → Z) (date : Z) :
  addDays tza date OUTBOUND_CARGO_TTL_DAYS
  = (date + 14 * 86400000
     + 1000 * (tza date true
               - tza (date + 1000 * tza date true + 14 * 86400000) false))%Z.
Proof. unfold addDays, OUTBOUND_CARGO_TTL_DAYS. simpl. lia. Qed.

(** The TTL of a CCA, which is in whole seconds, takes its creation date to
    the end date it is computed from: the two are a whole number of seconds
    apart. *)
Lemma ttl_reaches_endDate (tza : Z → bool → Z) (now : Z) :
  let startDate := subMinutes now CLOCK_DRIFT_TOLERANCE_MINUTES in
  let endDate := addDays tza now OUTBOUND_CARGO_TTL_DAYS in
  (startDate + differenceInSeconds endDate startDate * 1000 = endDate)%Z.
Proof.
  intros startDate endDate. subst startDate endDate. rewrite addDays_ttl.
  unfold differenceInSeconds, subMinutes, CLOCK_DRIFT_TOLERANCE_MINUTES.
  set (shift := (tza now true - tza _ false)%Z).
  replace (now + 14 * 86400000 + 1000 * shift - (now - 90 * 60000))%Z
    with ((1215000 + shift) * 1000)%Z by lia.
  rewrite Z.quot_mul by lia. lia.
Qed.

Lemma generateCCA_window (publicGateway : PublicGateway)
    (currentKey : option UnboundKeyPair) :
  Emits (phaseEffect env) (generateCCA env publicGateway currentKey).
Proof.
  unfold generateCCA. emits; try done.
  split; [done|]. apply ttl_reaches_endDate.
Qed.

Lemma processItems_effects (ownCertificates : list Certificate)
    (messages : list Buffer) :
  Emits (phaseEffect env) (processItems env messages ownCertificates).
Proof.
  induction messages as [|itemSerialized rest IH]; cbn [processItems]; [emits|].
  destruct (deserializeItem env itemSerialized) as [[parcel|ack]|].
  - unfold processParcel. destruct (validateParcel env parcel ownCertificates);
      emits; done.
  - unfold processParcelCollectionAck. emits; done.
  - emits; done.
Qed.

Lemma processCargoes_effects (ownCertificates ownCDACertificates : list Certificate)
    (cargoesSerialized : list Buffer) :
  Emits (phaseEffect env)
    (processCargoes env cargoesSerialized ownCertificates ownCDACertificates).
Proof.
  induction cargoesSerialized as [|cargoSerialized rest IH];
    cbn [processCargoes]; [emits|].
  destruct (deserializeCargo env cargoSerialized) as [cargo|]; [|emits; done].
  destruct (validateCargo env cargo ownCDACertificates); [|emits; done].
  destruct (unwrapMessagePayload env cargo) as [messages|]; [|emits; done].
  apply Emits_bind; [apply processItems_effects|done].
Qed.

Lemma collectCargo_effects (publicGateway : PublicGateway)
    (currentKey : option UnboundKeyPair) :
  Emits (phaseEffect env) (collectCargo env publicGateway currentKey).
Proof.
  unfold collectCargo, sendStageNotificationToParent.
  apply Emits_bind; [by apply Emits_perform|intros _].
  apply Emits_bind; [apply generateCCA_window|intros ccaSerialized].
  destruct (clientCollectCargo env ccaSerialized) as [cargoesSerialized failure].
  apply Emits_bind; [by apply Emits_perform|intros _].
  apply Emits_bind; [apply Emits_await|intros ownCertificates].
  apply Emits_bind; [apply processCargoes_effects|intros _].
  destruct failure; emits.
Qed.

Lemma deliverCargo_effects (publicGateway : PublicGateway)
    (currentKey : option UnboundKeyPair) :
  Emits (phaseEffect env) (deliverCargo env publicGateway currentKey).
Proof.
  unfold deliverCargo, sendStageNotificationToParent.
  apply Emits_bind; [by apply Emits_perform|intros _].
  destruct (clientDeliverCargo env _) as [ackIds failure].
  apply Emits_bind; [by apply Emits_perform|intros _].
  destruct failure; emits.
Qed.

Lemma phaseEffect_signsWithin (e : Effect) :
  phaseEffect env e → signsWithin env e.
Proof. by destruct e. Qed.

Lemma syncWithCourier_effects (publicGateway : PublicGateway)
    (currentKey : option UnboundKeyPair) (url : string) :
  Emits (signsWithin env)
    (syncWithCourier env publicGateway currentKey url).
Proof.
  unfold syncWithCourier, sendStageNotificationToParent.
  apply Emits_bind; [by apply Emits_call|intros _].
  apply Emits_bind; [|intros _].
  { eapply Emits_weaken; [apply phaseEffect_signsWithin|apply collectCargo_effects]. }
  apply Emits_bind; [by apply Emits_perform|intros _].
  apply Emits_bind; [by apply Emits_perform|intros _].
  apply Emits_bind; [|intros _; apply Emits_ret].
  eapply Emits_weaken; [apply phaseEffect_signsWithin|apply deliverCargo_effects].
Qed.

Lemma runCourierSync_effects : Emits (signsWithin env) (runCourierSync env).
Proof.
  unfold runCourierSync.
  apply Emits_bind; [apply Emits_await|intros [publicGateway|]];
    [|emits; done].
  apply Emits_bind; [|intros [defaultGatewayIPAddress|code]]; [| |emits].
  { apply Emits_tryCatch; [emits|intros err; emits; done]. }
  apply Emits_bind; [apply Emits_await|intros currentKey].
  apply Emits_bind; [|intros [code|]; emits; done].
  apply Emits_finally.
  - apply Emits_tryCatch; [apply syncWithCourier_effects|intros err; emits; done].
  - destruct (clientInit env _); emits; done.
Qed.

(** C4, amended. Every CCA that the driver signs, and already every CCA
    that [generateCCA] signs, is created at [now] minus 90 minutes and
    expires at the same local time of day 14 calendar days after [now],
    [now] being the one reading of the clock that [generateCCA] starts with:
    that is 14 days of 24 hours after [now], and what the offset of local
    time from UTC at [now] exceeds the offset at the expiry by. Hence the
    creation date is not after [now]; the expiry date is not before it, the
    two offsets being no more than 14 days apart; and the two dates are 14
    days, 90 minutes and that difference of offsets apart. When the offset
    is the same at both ends, the CCA expires 14 days of 24 hours after
    [now], which is 14 days and 90 minutes after its creation. Dates are in
    milliseconds, offsets in seconds. *)
Theorem cca_validity_window (cca : CargoCollectionAuthorization) :
  let now := newDate env in
  let offsetAtNow := localTZA env now true in
  let offsetAtExpiry :=
    localTZA env (now + 1000 * offsetAtNow + 14 * 86400000)%Z false in
  ((∃ publicGateway currentKey,
       SignCCA cca ∈ snd (generateCCA env publicGateway currentKey))
   ∨ SignCCA cca ∈ snd (runCourierSync env)) →
  (creationDate cca = now - 90 * 60000
   ∧ ccaExpiryDate cca = addDays (localTZA env) now 14
   ∧ ccaExpiryDate cca
     = now + 14 * 86400000 + 1000 * (offsetAtNow - offsetAtExpiry)
   ∧ creationDate cca ≤ now
   ∧ (offsetAtExpiry - offsetAtNow ≤ 14 * 86400 → now ≤ ccaExpiryDate cca)
   ∧ ccaExpiryDate cca - creationDate cca
     = 14 * 86400000 + 90 * 60000 + 1000 * (offsetAtNow - offsetAtExpiry)
   ∧ (offsetAtNow = offsetAtExpiry →
      ccaExpiryDate cca = now + 14 * 86400000
      ∧ creationDate cca ≤ now ≤ ccaExpiryDate cca
      ∧ ccaExpiryDate cca - creationDate cca = 14 * 86400000 + 90 * 60000))%Z.
Proof.
  intros now offsetAtNow offsetAtExpiry Hsigned.
  assert (validityWindow env cca) as [Hcreation Hexpiry].
  { destruct Hsigned as [(publicGateway & currentKey & Hin)|Hin].
    - pose proof (generateCCA_window publicGateway currentKey) as Hall.
      unfold Emits in Hall. rewrite Forall_forall in Hall.
      exact (Hall _ Hin).
    - pose proof runCourierSync_effects as Hall.
      unfold Emits in Hall. rewrite Forall_forall in Hall.
      exact (Hall _ Hin). }
  split; [exact Hcreation|]. split; [exact Hexpiry|].
  rewrite Hexpiry, Hcreation, addDays_ttl.
  unfold subMinutes, CLOCK_DRIFT_TOLERANCE_MINUTES.
  fold now. fold offsetAtNow. fold offsetAtExpiry. lia.
Qed.

(** *** The exit code *)

Lemma clientCloses_app (out1 out2 : list Effect) :
  clientCloses (out1 ++ out2) = (clientCloses out1 + clientCloses out2)%nat.
Proof.
  induction out1 as [|e out1 IH]; [done|].
  destruct e; simpl; by rewrite ?IH.
Qed.

Lemma phase_clientCloses (out : list Effect) :
  Forall (phaseEffect env) out → clientCloses out = 0%nat.
Proof. induction 1 as [|e out He _ IH]; [done|]. by destruct e. Qed.

(** The [try] block of [runCourierSync], by cases on what the client
    initialisation and the two phases do. *)
Lemma syncWithCourier_eq (publicGateway : PublicGateway)
    (currentKey : option UnboundKeyPair) (url : string) :
  syncWithCourier env publicGateway currentKey url
  = match clientInit env url with
    | Thrown err => (Thrown err, [ClientInit url])
    | Returned _ =>
        match collectCargo env publicGateway currentKey with
        | (Thrown err, collected) => (Thrown err, ClientInit url :: collected)
        | (Returned _, collected) =>
            let waited :=
              ClientInit url :: collected
              ++ [NotifyStage WAIT;
                  SleepSeconds DELAY_BETWEEN_COLLECTION_AND_DELIVERY_SECONDS] in
            match deliverCargo env publicGateway currentKey with
            | (Thrown err, delivered) => (Thrown err, waited ++ delivered)
            | (Returned _, delivered) => (Returned None, waited ++ delivered)
            end
        end
    end.
Proof.
  unfold syncWithCourier, sendStageNotificationToParent, call, perform, ret.
  destruct (clientInit env url) as [client|err]; [|done].
  cbn [bind].
  destruct (collectCargo env publicGateway currentKey) as [[u|err] collected];
    [|done].
  destruct (deliverCargo env publicGateway currentKey) as [[u'|err] delivered];
    simpl; by rewrite ?app_nil_r, <- ?app_assoc.
Qed.

(** C1, amended. [runCourierSync] returns 1 ([UNREGISTERED_GATEWAY]) exactly
    when the registrar yields no public gateway. When there is one,
    it returns 2 ([FAILED_SYNC]) if the discovery of the default gateway
    fails, and, once the current key has been fetched, also if the CogRPC
    client cannot be opened, or if the collect phase or the deliver phase
    throws; it returns 0 ([OK]) when the client is opened and both phases
    complete. The client is closed exactly once when it was opened, and not
    at all when the gateway is unregistered, when the discovery fails or
    when the client cannot be opened. *)
Theorem runCourierSync_exit_code :
  let result := fst (runCourierSync env) in
  let effects := snd (runCourierSync env) in
  exitCodeNumber UNREGISTERED_GATEWAY = 1%Z
  ∧ exitCodeNumber FAILED_SYNC = 2%Z
  ∧ exitCodeNumber OK = 0%Z
  ∧ (result = Returned UNREGISTERED_GATEWAY
     ↔ getPublicGateway env = Returned None)
  ∧ (getPublicGateway env = Returned None → clientCloses effects = 0%nat)
  ∧ (∀ publicGateway,
       getPublicGateway env = Returned (Some publicGateway) →
       (∀ err, getDefaultGateway env = Thrown err →
          result = Returned FAILED_SYNC ∧ clientCloses effects = 0%nat)
       ∧ (∀ defaultGatewayIPAddress currentKey,
            getDefaultGateway env = Returned defaultGatewayIPAddress →
            getCurrentKey env = Returned currentKey →
            let url := courierUrl defaultGatewayIPAddress in
            let collected := fst (collectCargo env publicGateway currentKey) in
            let delivered := fst (deliverCargo env publicGateway currentKey) in
            (∀ err, clientInit env url = Thrown err →
               result = Returned FAILED_SYNC ∧ clientCloses effects = 0%nat)
            ∧ (∀ client, clientInit env url = Returned client →
                 clientCloses effects = 1%nat
                 ∧ (∀ err, collected = Thrown err →
                      result = Returned FAILED_SYNC)
                 ∧ (∀ err, collected = Returned tt → delivered = Thrown err →
                      result = Returned FAILED_SYNC)
                 ∧ (collected = Returned tt → delivered = Returned tt →
                      result = Returned OK)))).
Proof.
  intros result effects. split; [done|]. split; [done|]. split; [done|].
  subst result effects. unfold runCourierSync. split; [|split].
  - destruct (getPublicGateway env) as [[publicGateway|]|err]; simpl;
      [|by split|by split].
    split; [|discriminate].
    destruct (getDefaultGateway env) as [ip|err]; simpl; [|discriminate].
    destruct (getCurrentKey env) as [currentKey|err]; simpl; [|discriminate].
    rewrite syncWithCourier_eq.
    destruct (clientInit env (courierUrl ip)) as [client|err]; simpl;
      [|discriminate].
    destruct (collectCargo env publicGateway currentKey) as [[u|err] collected];
      simpl; [|discriminate].
    destruct (deliverCargo env publicGateway currentKey) as [[u'|err] delivered];
      simpl; discriminate.
  - by intros ->.
  - intros publicGateway ->. simpl. split.
    + by intros err ->.
    + intros ip currentKey -> ->. simpl. rewrite syncWithCourier_eq.
      pose proof (collectCargo_effects publicGateway currentKey) as Hc.
      pose proof (deliverCargo_effects publicGateway currentKey) as Hd.
      unfold Emits in Hc, Hd. split.
      * by intros err ->.
      * intros client ->.
        destruct (collectCargo env publicGateway currentKey)
          as [[[]|err] collected];
          destruct (deliverCargo env publicGateway currentKey)
            as [[[]|err'] delivered];
          simpl in *;
          rewrite ?clientCloses_app; simpl; rewrite ?clientCloses_app; simpl;
          rewrite ?(phase_clientCloses _ Hc), ?(phase_clientCloses _ Hd);
          repeat split; try done; intros; congruence.
Qed.

(** *** The cargo message stream *)

Lemma retrieveInternetBound_from_listing (listing : list ParcelWithExpiryDate)
    (yielded : CargoMessageWithExpiry) :
  yielded ∈ fst (retrieveInternetBound env listing) →
  ∃ parcel, parcel ∈ listing ∧ parcelMessage env parcel = Some yielded.
Proof.
  induction listing as [|parcel rest IH]; simpl; intros Hin.
  - by apply not_elem_of_nil in Hin.
  - unfold parcelMessage at 1.
    destruct (retrieve env (parcelKey parcel)) as [[blob|]|err] eqn:Hretrieve.
    + destruct (retrieveInternetBound env rest) as [later failure]. simpl in *.
      apply elem_of_cons in Hin as [->|Hin].
      * exists parcel. split; [apply list_elem_of_here|].
        unfold parcelMessage. by rewrite Hretrieve.
      * destruct (IH Hin) as (p & Hp & Hmsg).
        exists p. split; [by apply list_elem_of_further|done].
    + destruct (IH Hin) as (p & Hp & Hmsg).
      exists p. split; [by apply list_elem_of_further|done].
    + by apply not_elem_of_nil in Hin.
Qed.

Lemma retrieveInternetBound_all (listing : list ParcelWithExpiryDate) :
  (∀ parcel, parcel ∈ listing →
     ∃ parcelSerialized, retrieve env (parcelKey parcel) = Returned parcelSerialized) →
  retrieveInternetBound env listing = (omap (parcelMessage env) listing, None).
Proof.
  induction listing as [|parcel rest IH]; intros Hall; [done|].
  simpl. unfold parcelMessage at 1.
  destruct (Hall parcel) as [blob Hretrieve]; [apply list_elem_of_here|].
  rewrite Hretrieve, IH.
  - by destruct blob.
  - intros p Hp. apply Hall. by apply list_elem_of_further.
Qed.

(** C9. Once the collections table has been read, the cargo message stream
    yields first one collection acknowledgement for each of its rows, in
    order, built from the fields of the row and tagged with the expiry date
    of the parcel that the row records; what it yields after these are
    parcels that the store lists, each with the blob retrieved for it and
    tagged with its expiry date. When no retrieval throws, these are, in
    order, all the listed parcels but the ones whose retrieval returns
    [null], and skipping one adds no failure to the stream. *)
Theorem cargo_message_stream_acks_then_parcels
    (pendingACKs : list ParcelCollection) :
  collectionRepoFind env = Returned pendingACKs →
  let yielded := fst (makeCargoMessageStream env) in
  let listing := fst (listInternetBound env) in
  take (length pendingACKs) yielded
  = map (λ pendingACK,
           {| message := serializeAck env (ackOfCollection pendingACK);
              expiryDate := parcelExpiryDate pendingACK |})
      pendingACKs
  ∧ (∀ pendingACK,
       senderEndpointPrivateAddress (ackOfCollection pendingACK)
       = collectionSenderEndpointPrivateAddress pendingACK
       ∧ recipientEndpointAddress (ackOfCollection pendingACK)
         = collectionRecipientEndpointAddress pendingACK
       ∧ parcelId (ackOfCollection pendingACK) = collectionParcelId pendingACK)
  ∧ (∀ later, later ∈ drop (length pendingACKs) yielded →
       ∃ parcel parcelSerialized,
         parcel ∈ listing
         ∧ retrieve env (parcelKey parcel) = Returned (Some parcelSerialized)
         ∧ later = {| message := parcelSerialized;
                      expiryDate := parcelWithExpiryDate_expiryDate parcel |})
  ∧ ((∀ parcel, parcel ∈ listing →
        ∃ parcelSerialized,
          retrieve env (parcelKey parcel) = Returned parcelSerialized) →
     drop (length pendingACKs) yielded
     = omap
         (λ parcel,
            match retrieve env (parcelKey parcel) with
            | Returned (Some parcelSerialized) =>
                Some {| message := parcelSerialized;
                        expiryDate := parcelWithExpiryDate_expiryDate parcel |}
            | _ => None
            end)
         listing
     ∧ snd (makeCargoMessageStream env) = snd (listInternetBound env)).
Proof.
  intros Hfind yielded listing. subst yielded listing.
  unfold makeCargoMessageStream. rewrite Hfind.
  destruct (listInternetBound env) as [listing listingFailure].
  set (acks := map _ pendingACKs).
  assert (length pendingACKs = length acks) as Hlength
    by (symmetry; apply List.length_map).
  rewrite Hlength.
  pose proof (retrieveInternetBound_from_listing listing) as Hfrom.
  pose proof (retrieveInternetBound_all listing) as Hall.
  destruct (retrieveInternetBound env listing) as [parcels failure].
  cbn [fst snd] in *. rewrite take_app_length, drop_app_length.
  split; [done|]. split; [done|]. split.
  - intros later Hin. destruct (Hfrom later Hin) as (parcel & Hparcel & Hmsg).
    unfold parcelMessage in Hmsg.
    destruct (retrieve env (parcelKey parcel)) as [[blob|]|err] eqn:Hretrieve;
      try done.
    exists parcel, blob. split; [done|]. split; [done|]. congruence.
  - intros Hreturns. specialize (Hall Hreturns).
    injection Hall as -> ->. done.
Qed.

End CourierSyncFacts.

Section CourierSyncSamples.

Import CourierSync.

(** C1, as stated, fails on its last clause: with a registered gateway, a
    default gateway that is found and two phases that would both complete,
    the run still returns [FAILED_SYNC] (2), not [OK] (0), when the CogRPC
    client cannot be opened; neither phase has started by then, as no stage
    has been notified. *)
Lemma unreachable_courier_exits_with_failed_sync :
  let env := Samples.unreachableCourier in
  getPublicGateway env = Returned (Some Samples.publicGateway)
  ∧ getDefaultGateway env = Returned "192.168.43.1"
  ∧ getCurrentKey env = Returned (Some Samples.currentKey)
  ∧ fst (collectCargo env Samples.publicGateway (Some Samples.currentKey))
    = Returned tt
  ∧ fst (deliverCargo env Samples.publicGateway (Some Samples.currentKey))
    = Returned tt
  ∧ stagesNotified (snd (runCourierSync env)) = []
  ∧ fst (runCourierSync env) = Returned FAILED_SYNC
  ∧ exitCodeNumber FAILED_SYNC ≠ exitCodeNumber OK.
Proof. repeat split; try reflexivity. discriminate. Qed.

Lemma runCourierSync_exit_code_witness :
  (fst (runCourierSync Samples.reachableCourier) = Returned OK
   ∧ clientCloses (snd (runCourierSync Samples.reachableCourier)) = 1%nat)
  ∧ (fst (runCourierSync Samples.unreachableCourier) = Returned FAILED_SYNC
     ∧ clientCloses (snd (runCourierSync Samples.unreachableCourier)) = 0%nat).
Proof.
  split.
  - destruct (runCourierSync_exit_code Samples.reachableCourier)
      as (_ & _ & _ & _ & _ & Hregistered).
    destruct (Hregistered Samples.publicGateway eq_refl) as [_ Hdiscovered].
    destruct (Hdiscovered "192.168.43.1" (Some Samples.currentKey) eq_refl eq_refl)
      as [_ Hopened].
    destruct (Hopened {| serverUrl := courierUrl "192.168.43.1" |} eq_refl)
      as (Hcloses & _ & _ & Hok).
    split; [apply Hok; reflexivity|exact Hcloses].
  - destruct (runCourierSync_exit_code Samples.unreachableCourier)
      as (_ & _ & _ & _ & _ & Hregistered).
    destruct (Hregistered Samples.publicGateway eq_refl) as [_ Hdiscovered].
    destruct (Hdiscovered "192.168.43.1" (Some Samples.currentKey) eq_refl eq_refl)
      as [Hrefused _].
    exact (Hrefused "ECONNREFUSED" eq_refl).
Defined.

(** C4, as stated, fails on a host whose clocks change within the 14 days:
    [addDays] keeps the local time of day, so that, the clocks going back an
    hour, the CCA of the driver expires an hour later than 14 days of 24
    hours after [now], and is valid for 14 days, 90 minutes and an hour. *)
Lemma cca_expiry_across_a_clock_change :
  let env := Samples.autumnCourier in
  let cca :=
    {| ccaRecipientAddress := "https://frankfurt.relaycorp.cloud";
       ccaSenderCertificate := Samples.gatewayCertificate;
       ccaPayloadSerialized := [Byte.x03];
       creationDate := 1602994600000;
       ttl := 1218600 |} in
  (SignCCA cca ∈ snd (runCourierSync env)
   ∧ creationDate cca = newDate env - 90 * 60000
   ∧ ccaExpiryDate cca = newDate env + 14 * 86400000 + 3600000
   ∧ ccaExpiryDate cca ≠ newDate env + 14 * 86400000
   ∧ ccaExpiryDate cca - creationDate cca ≠ 14 * 86400000 + 90 * 60000)%Z.
Proof.
  intros env cca. split; [|by vm_compute].
  apply list_elem_of_In. vm_compute. tauto.
Qed.

Lemma cca_validity_window_witness :
  let cca :=
    {| ccaRecipientAddress := "https://frankfurt.relaycorp.cloud";
       ccaSenderCertificate := Samples.gatewayCertificate;
       ccaPayloadSerialized := [Byte.x03];
       creationDate := 1599994600000;
       ttl := 1215000 |} in
  let autumnCCA :=
    {| ccaRecipientAddress := "https://frankfurt.relaycorp.cloud";
       ccaSenderCertificate := Samples.gatewayCertificate;
       ccaPayloadSerialized := [Byte.x03];
       creationDate := 1602994600000;
       ttl := 1218600 |} in
  (SignCCA cca ∈ snd (runCourierSync Samples.reachableCourier)
   ∧ (creationDate cca = 1600000000000 - 90 * 60000
      ∧ ccaExpiryDate cca = 1600000000000 + 14 * 86400000
      ∧ creationDate cca ≤ 1600000000000 ≤ ccaExpiryDate cca
      ∧ ccaExpiryDate cca - creationDate cca = 14 * 86400000 + 90 * 60000)%Z)
  ∧ (SignCCA autumnCCA ∈ snd (runCourierSync Samples.autumnCourier)
     ∧ (creationDate autumnCCA = 1603000000000 - 90 * 60000
        ∧ ccaExpiryDate autumnCCA
          = 1603000000000 + 14 * 86400000 + 1000 * (7200 - 3600)
        ∧ 1603000000000 ≤ ccaExpiryDate autumnCCA)%Z).
Proof.
  intros cca autumnCCA. split.
  - assert (SignCCA cca ∈ snd (runCourierSync Samples.reachableCourier)) as Hin.
    { apply list_elem_of_In. vm_compute. tauto. }
    split; [exact Hin|].
    destruct (cca_validity_window Samples.reachableCourier cca (or_intror Hin))
      as (Hcreation & _ & _ & _ & _ & _ & Hsame).
    destruct (Hsame eq_refl) as (Hexpiry & Hbetween & Hapart).
    split; [exact Hcreation|]. split; [exact Hexpiry|]. split; assumption.
  - assert (SignCCA autumnCCA ∈ snd (runCourierSync Samples.autumnCourier))
      as Hin.
    { apply list_elem_of_In. vm_compute. tauto. }
    split; [exact Hin|].
    destruct (cca_validity_window Samples.autumnCourier autumnCCA
                (or_intror Hin))
      as (Hcreation & _ & Hexpiry & _ & Hafter & _).
    split; [exact Hcreation|]. split; [exact Hexpiry|].
    apply Hafter. by vm_compute.
Defined.

Lemma cargo_message_stream_acks_then_parcels_witness :
  let env := Samples.reachableCourier in
  fst (makeCargoMessageStream env)
  = [ {| message := [Byte.x05]; expiryDate := 1700000000000 |};
      {| message := [Byte.x06]; expiryDate := 1700000001000 |} ]
  ∧ take 1 (fst (makeCargoMessageStream env))
    = [ {| message := serializeAck env (ackOfCollection Samples.pendingCollection);
           expiryDate := parcelExpiryDate Samples.pendingCollection |} ]
  ∧ snd (makeCargoMessageStream env) = None.
Proof.
  intros env. split; [reflexivity|].
  destruct (cargo_message_stream_acks_then_parcels env
              [Samples.pendingCollection] eq_refl)
    as (Hacks & _ & _ & Hparcels).
  split; [exact Hacks|].
  destruct Hparcels as [_ Hfailure]; [|exact Hfailure].
  intros parcel Hin. simpl in Hin.
  apply elem_of_cons in Hin as [->|Hin]; [eexists; reflexivity|].
  apply list_elem_of_singleton in Hin as ->. eexists; reflexivity.
Defined.

End CourierSyncSamples.

(** ** The gateway registrar *)

Section RegistrarFacts.

Import CourierSync Config GatewayRegistrar.

Variable nodePublicKey nodePrivateKey : Buffer.
Variable signRequest : PrivateNodeRegistrationRequest → Buffer → Buffer.
Variable preRegisterNode : string → Buffer → Outcome Buffer.
Variable registerNode : string → Buffer → Outcome PrivateNodeRegistration.

Abbreviation registerWith :=
  (register nodePublicKey nodePrivateKey signRequest preRegisterNode registerNode).

Lemma get_set (key : ConfigKey) (value : string)
    (configRepository : gmap string string) :
  get key (set key value configRepository) = Some value.
Proof. unfold get, set. apply lookup_insert_eq. Qed.

Lemma register_registered (publicAddress : string) (st : State) :
  get PUBLIC_GATEWAY_ADDRESS (configRepository st) = Some publicAddress →
  registerWith publicAddress st = (Returned tt, st, []).
Proof. intros Hstored. unfold register. by rewrite bool_decide_eq_true_2. Qed.

(** A registration that succeeds leaves the address stored. *)
Lemma register_stores_address (publicAddress : string) (st st1 : State)
    (calls : list Call) :
  registerWith publicAddress st = (Returned tt, st1, calls) →
  get PUBLIC_GATEWAY_ADDRESS (configRepository st1) = Some publicAddress.
Proof.
  unfold register. case_bool_decide as Hstored.
  - by intros [= <- _].
  - destruct (preRegisterNode publicAddress nodePublicKey) as [auth|err];
      [|discriminate].
    destruct (registerNode publicAddress _) as [registration|err];
      [|discriminate].
    intros [= <- _]. simpl. apply get_set.
Qed.

(** C5, amended. When the stored [public_gateway_address] already equals the
    address, [register] returns without a single call: no PoWeb client is
    made, nothing goes over the network and nothing is persisted. Hence,
    after a [register] of an address that has succeeded, a second one of the
    same address makes no call; and two successive calls, the first of which
    starts from another stored address, or none, and succeeds, make one PoWeb
    client and go through one registration exchange in all: one
    pre-registration and one registration. *)
Theorem register_is_idempotent (publicAddress : string) (st : State) :
  (get PUBLIC_GATEWAY_ADDRESS (configRepository st) = Some publicAddress →
   registerWith publicAddress st = (Returned tt, st, []))
  ∧ (∀ st1 calls1,
       registerWith publicAddress st = (Returned tt, st1, calls1) →
       registerWith publicAddress st1 = (Returned tt, st1, [])
       ∧ (get PUBLIC_GATEWAY_ADDRESS (configRepository st) ≠ Some publicAddress →
          let calls := calls1 ++ snd (registerWith publicAddress st1) in
          length (List.filter isClientConstruction calls) = 1%nat
          ∧ length (List.filter isPreRegistration calls) = 1%nat
          ∧ length (List.filter isNetworkCall calls) = 2%nat)).
Proof.
  split; [apply register_registered|].
  intros st1 calls1 Hfirst.
  pose proof (register_stores_address _ _ _ _ Hfirst) as Hstored.
  rewrite (register_registered _ _ Hstored). split; [done|].
  intros Hunregistered. simpl. rewrite app_nil_r.
  unfold register in Hfirst. rewrite bool_decide_eq_false_2 in Hfirst by done.
  destruct (preRegisterNode publicAddress nodePublicKey) as [auth|err];
    [|discriminate].
  destruct (registerNode publicAddress _) as [registration|err];
    [|discriminate].
  by injection Hfirst as _ <-.
Qed.

End RegistrarFacts.

Section RegistrarSamples.

Import CourierSync Config GatewayRegistrar.

(** C5, as stated, fails on its last clause: when the address is already
    the stored one, two successive calls of [register] make no call at all,
    so that they go through no round-trip with the public gateway rather than
    through exactly one. *)
Lemma register_twice_when_registered_makes_no_round_trip :
  let publicAddress := "frankfurt.relaycorp.cloud" in
  let register :=
    register [Byte.x02] [Byte.x01] Samples.signRequest Samples.preRegisterNode
      Samples.registerNode publicAddress in
  let first := register (Samples.registered publicAddress) in
  let second := register (snd (fst first)) in
  fst (fst first) = Returned tt
  ∧ fst (fst second) = Returned tt
  ∧ snd first ++ snd second = []
  ∧ length (List.filter isNetworkCall (snd first ++ snd second)) ≠ 1%nat
  ∧ length (List.filter isPreRegistration (snd first ++ snd second)) ≠ 1%nat.
Proof. repeat split; try reflexivity; discriminate. Qed.

(** A registration that fails persists nothing, so that the next call goes
    over the network again. *)
Example register_after_failure_retries :
  let publicAddress := "frankfurt.relaycorp.cloud" in
  let register :=
    register [Byte.x02] [Byte.x01] Samples.signRequest
      Samples.preRegisterNodeDown Samples.registerNode publicAddress in
  let first := register Samples.unregistered in
  let second := register (snd (fst first)) in
  fst (fst first) = Thrown "RegistrationError"
  ∧ snd (fst first) = Samples.unregistered
  ∧ snd second
    = [MakeGSCClient publicAddress; PreRegisterNode [Byte.x02]].
Proof. repeat split; reflexivity. Qed.

Lemma register_is_idempotent_witness :
  let publicAddress := "frankfurt.relaycorp.cloud" in
  let register :=
    register [Byte.x02] [Byte.x01] Samples.signRequest Samples.preRegisterNode
      Samples.registerNode publicAddress in
  register (Samples.registered publicAddress)
  = (Returned tt, Samples.registered publicAddress, [])
  ∧ (let first := register Samples.unregistered in
     let second := register (snd (fst first)) in
     second = (Returned tt, snd (fst first), [])
     ∧ length (List.filter isClientConstruction (snd first ++ snd second)) = 1%nat
     ∧ length (List.filter isPreRegistration (snd first ++ snd second)) = 1%nat
     ∧ length (List.filter isNetworkCall (snd first ++ snd second)) = 2%nat).
Proof.
  intros publicAddress register. split.
  - apply (proj1 (register_is_idempotent [Byte.x02] [Byte.x01]
                    Samples.signRequest Samples.preRegisterNode
                    Samples.registerNode publicAddress
                    (Samples.registered publicAddress))).
    reflexivity.
  - intros first second.
    destruct (proj2 (register_is_idempotent [Byte.x02] [Byte.x01]
                       Samples.signRequest Samples.preRegisterNode
                       Samples.registerNode publicAddress Samples.unregistered)
                (snd (fst first)) (snd first) eq_refl)
      as [Hsecond Hcalls].
    split; [exact Hsecond|]. apply Hcalls. discriminate.
Defined.

End RegistrarSamples.

(** ** The status stream of the user interface *)

Section UiSyncFacts.

Import UiSync.

(** With a token, the generator goes through its four statuses and returns,
    whatever the source of stages holds. *)
Lemma synchronizeWithCourier_with_token (stageSource : list string)
    (token : string) :
  token ≠ "" →
  synchronizeWithCourier stageSource token None
  = ([COLLECTING_CARGO; WAITING; DELIVERING_CARGO; COMPLETE], Done).
Proof.
  intros Htoken. unfold synchronizeWithCourier, _synchronizeWithCourier.
  by rewrite (proj2 (String.eqb_neq token "") Htoken).
Qed.

(** C8 at the input of the test: the source yields an unknown stage and the
    token is not empty, yet the consumer receives the four statuses and
    then the end of the iteration, and no [CourierSyncError]. *)
Lemma unknown_stage_is_not_reported :
  synchronizeWithCourier ["UNKNOWN"] "TOKEN" None
  = ([COLLECTING_CARGO; WAITING; DELIVERING_CARGO; COMPLETE], Done)
  ∧ snd (synchronizeWithCourier ["UNKNOWN"] "TOKEN" None)
    ≠ Rejected CourierSyncError.
Proof. split; [reflexivity|discriminate]. Qed.

(** An empty token is the one input that the generator rejects. *)
Example empty_token_is_rejected (stageSource : list string) :
  synchronizeWithCourier stageSource "" None = ([], Rejected CourierSyncError).
Proof. reflexivity. Qed.

End UiSyncFacts.

(** * Further properties *)

(** ** The collection tracker *)

Section TrackerFacts.

Import CollectionTracker.

(** X1. Adding a pending ACK and popping it at once is a round trip: for a
    delivery-ID that is not pending, and is not [__proto__], which no
    delivery-ID is, and for a parcel key that is not empty,
    [popPendingParcelKey] gives the key back and leaves the tracker as it
    was before [addPendingACK]. With an entry pending the collection is not
    complete, whatever the flag; and popping another delivery-ID gives what
    it would have given without the entry added. Popping a delivery-ID that
    is not pending leaves the tracker as it is, and gives [undefined],
    unless the delivery-ID is the name of a property that the object
    inherits, and then what it inherits. *)
Theorem add_then_pop_round_trip (tr : CollectionTracker.t) (d k : string) :
  pendingParcelKeyByDeliveryId tr !! d = None →
  k ≠ "" →
  d ≠ "__proto__" →
  popPendingParcelKey d (addPendingACK d k tr) = (Some (ParcelKey k), tr)
  ∧ isCollectionComplete (addPendingACK d k tr) = false
  ∧ isCollectionComplete (markAllParcelsDelivered (addPendingACK d k tr)) = false
  ∧ (∀ d', d' ≠ d →
       fst (popPendingParcelKey d' (addPendingACK d k tr))
       = fst (popPendingParcelKey d' tr))
  ∧ (∀ d', pendingParcelKeyByDeliveryId tr !! d' = None →
       popPendingParcelKey d' tr
       = (if inherited d' then Some (Inherited d') else None, tr)).
Proof.
  intros Hfresh Hk _. destruct tr as [flag pending]. simpl in *.
  assert (truthy k = true) as Ht.
  { unfold truthy. rewrite negb_true_iff. by apply String.eqb_neq. }
  assert (Nat.eqb (size (<[d:=k]> pending)) 0 = false) as Hsize.
  { apply Nat.eqb_neq. rewrite map_size_insert_None by done. lia. }
  split; [|split; [|split; [|split]]].
  - unfold popPendingParcelKey, read, addPendingACK. simpl.
    rewrite lookup_insert_eq. cbn [truthyValue]. rewrite Ht.
    by rewrite delete_insert_id.
  - unfold isCollectionComplete, addPendingACK. simpl.
    rewrite Hsize. apply andb_false_r.
  - unfold isCollectionComplete, markAllParcelsDelivered, addPendingACK. simpl.
    by rewrite Hsize.
  - intros d' Hne. unfold popPendingParcelKey, read, addPendingACK. simpl.
    rewrite lookup_insert_ne by done.
    destruct (pending !! d') as [k'|].
    + cbn [truthyValue]. by destruct (truthy k').
    + by destruct (inherited d').
  - intros d' Hd'. unfold popPendingParcelKey, read. simpl. rewrite Hd'.
    destruct (inherited d'); cbn [truthyValue]; [|done].
    by rewrite delete_id.
Qed.

Lemma add_then_pop_round_trip_witness :
  let tr := addPendingACK "d0" "k0" CollectionTracker.new in
  popPendingParcelKey "d1" (addPendingACK "d1" "k1" tr)
  = (Some (ParcelKey "k1"), tr)
  ∧ isCollectionComplete (addPendingACK "d1" "k1" tr) = false
  ∧ isCollectionComplete (markAllParcelsDelivered (addPendingACK "d1" "k1" tr))
    = false
  ∧ (∀ d', d' ≠ "d1" →
       fst (popPendingParcelKey d' (addPendingACK "d1" "k1" tr))
       = fst (popPendingParcelKey d' tr))
  ∧ (∀ d', pendingParcelKeyByDeliveryId tr !! d' = None →
       popPendingParcelKey d' tr
       = (if inherited d' then Some (Inherited d') else None, tr)).
Proof.
  intros tr. apply (add_then_pop_round_trip tr "d1" "k1").
  - reflexivity.
  - discriminate.
  - discriminate.
Defined.

End TrackerFacts.

(** ** The collection session *)

Section SessionFacts.

Import CollectionTracker Collection.

Local Ltac step_cases e :=
  destruct e as [?pk ?blob ?d| |?a| |];
  simpl;
  unfold makeDeliveryStream_body, makeDeliveryStream_end,
    makeACKProcessor_resume, makeACKProcessor_end;
  rewrite ?makeACKProcessor_body_eq.

Lemma sends_app (out1 out2 : list Action) :
  sends (out1 ++ out2) = sends out1 ++ sends out2.
Proof.
  induction out1 as [|a out1 IH]; [done|].
  destruct a; simpl; by rewrite ?IH.
Qed.

Lemma closes_app (out1 out2 : list Action) :
  closes (out1 ++ out2) = closes out1 ++ closes out2.
Proof.
  induction out1 as [|a out1 IH]; [done|].
  destruct a; simpl; by rewrite ?IH.
Qed.

Lemma refusals_app (out1 out2 : list Action) :
  refusals (out1 ++ out2) = (refusals out1 + refusals out2)%nat.
Proof.
  induction out1 as [|a out1 IH]; [done|].
  destruct a as [| | | | |[] ?]; simpl; by rewrite ?IH.
Qed.

Lemma elem_of_deletions (k : string) (out : list Action) :
  DeleteParcel k ∈ out → k ∈ deletions out.
Proof.
  induction out as [|a out IH]; intros Hin; [by apply not_elem_of_nil in Hin|].
  apply elem_of_cons in Hin as [<-|Hin].
  - apply list_elem_of_here.
  - destruct a; simpl; try (by apply IH). by apply list_elem_of_further, IH.
Qed.

(** *** Deletion follows delivery and acknowledgement *)

(** As long as the ACK loop has not left, each pending entry of the tracker
    stands for a parcel that has been retrieved and sent under that
    delivery-ID. *)
Lemma step_tracked (before : list Event) (out : list Action) (s : Session)
    (e : Event) :
  (ackLoop s ≠ AckReturned →
   ∀ d k, pendingParcelKeyByDeliveryId (tracker s) !! d = Some k →
     ∃ blob, ParcelKeyRetrieved k (Some blob) d ∈ before
             ∧ SendParcelDelivery d blob ∈ out) →
  ackLoop (fst (step s e)) ≠ AckReturned →
  ∀ d k, pendingParcelKeyByDeliveryId (tracker (fst (step s e))) !! d = Some k →
    ∃ blob, ParcelKeyRetrieved k (Some blob) d ∈ before ++ [e]
            ∧ SendParcelDelivery d blob ∈ out ++ snd (step s e).
Proof.
  intros Hs Hrunning d k.
  assert (ackLoop s ≠ AckReturned) as Hbefore.
  { intros Hret. by destruct (ackReturned_step s e Hret). }
  specialize (Hs Hbefore).
  assert (pendingParcelKeyByDeliveryId (tracker s) !! d = Some k →
          ∃ blob, ParcelKeyRetrieved k (Some blob) d ∈ before ++ [e]
                  ∧ SendParcelDelivery d blob ∈ out ++ snd (step s e)) as Hold.
  { intros Hd. destruct (Hs d k Hd) as (blob & Hev & Hsent).
    exists blob. rewrite !elem_of_app. by split; left. }
  revert Hrunning Hold. step_cases e; intros Hrunning Hold.
  - destruct (deliveryLoop s); [|done].
    destruct blob as [blob|]; [|done].
    destruct (ackLoop s); simpl in *; try done;
      (destruct (decide (d0 = d)) as [->|Hne];
       [rewrite lookup_insert_eq; intros [= ->]; exists blob;
        rewrite !elem_of_app; split; right; apply list_elem_of_here
       |by rewrite lookup_insert_ne]).
  - by destruct (deliveryLoop s).
  - destruct (ackLoop s); try done.
    destruct (pendingParcelKeyByDeliveryId (tracker s) !! a) as [k'|];
      [|by destruct (inherited a)].
    destruct (truthy k'); [|done]. simpl.
    destruct (decide (a = d)) as [->|Hne].
    + by rewrite lookup_delete_eq.
    + by rewrite lookup_delete_ne.
  - destruct (ackLoop s); try done. by destruct (isCollectionComplete _).
  - by destruct (ackLoop s).
Qed.

Lemma run_tracked (events before : list Event) (out : list Action)
    (s : Session) :
  (ackLoop s ≠ AckReturned →
   ∀ d k, pendingParcelKeyByDeliveryId (tracker s) !! d = Some k →
     ∃ blob, ParcelKeyRetrieved k (Some blob) d ∈ before
             ∧ SendParcelDelivery d blob ∈ out) →
  ackLoop (fst (run s events)) ≠ AckReturned →
  ∀ d k,
    pendingParcelKeyByDeliveryId (tracker (fst (run s events))) !! d = Some k →
    ∃ blob, ParcelKeyRetrieved k (Some blob) d ∈ before ++ events
            ∧ SendParcelDelivery d blob ∈ out ++ snd (run s events).
Proof.
  revert before out s. induction events as [|e events IH]; intros before out s Hs.
  - simpl. rewrite !app_nil_r. intros Hrunning. by apply Hs.
  - rewrite run_cons. cbn [fst snd].
    replace (before ++ e :: events) with ((before ++ [e]) ++ events)
      by (by rewrite <- app_assoc).
    rewrite app_assoc. apply IH. by apply step_tracked.
Qed.

(** X2. [parcelStore.delete] is called only for what the client
    acknowledges, and with a parcel key only after the parcel was retrieved
    and sent under the delivery-ID acknowledged. When a step of a session
    deletes the parcel key [k], the step is the reading of an
    acknowledgement [d], and before it the store has handed out a parcel for
    [k] while [uuid()] returned [d], and that parcel has been sent with the
    delivery-ID [d]. The only other calls of [parcelStore.delete] pass a
    value that the object of the tracker inherits: then the step is the
    reading of an acknowledgement that is the name of an inherited property
    and is no pending delivery-ID. *)
Theorem deletion_follows_delivery_and_ack
    (before : list Event) (e : Event) :
  let s := fst (run newSession before) in
  (∀ k, DeleteParcel k ∈ snd (step s e) →
     ∃ d blob,
       e = AckReceived d
       ∧ ParcelKeyRetrieved k (Some blob) d ∈ before
       ∧ SendParcelDelivery d blob ∈ snd (run newSession before))
  ∧ (∀ name, DeleteInherited name ∈ snd (step s e) →
       e = AckReceived name
       ∧ inherited name = true
       ∧ pendingParcelKeyByDeliveryId (tracker s) !! name = None
       ∧ snd (step s e) = [DeleteInherited name]).
Proof.
  intros s. split.
  - intros k Hin.
    destruct (step_deletions s e)
      as [Hnone|(a & k0 & -> & Hloop & Hk0 & _ & Hstep)].
    + apply elem_of_deletions in Hin. rewrite Hnone in Hin.
      by apply not_elem_of_nil in Hin.
    + rewrite Hstep in Hin. apply list_elem_of_singleton in Hin as [= ->].
      destruct (run_tracked before [] [] newSession) with (d := a) (k := k0)
        as (blob & Hev & Hsent); [by intros _ d k Hd| |done|].
      { fold s. congruence. }
      exists a, blob. by split.
  - intros name Hin.
    assert (name ∈ inheritedDeletions (snd (step s e))) as Hname.
    { clear -Hin. induction (snd (step s e)) as [|a out IH];
        [by apply not_elem_of_nil in Hin|].
      apply elem_of_cons in Hin as [<-|Hin]; [apply list_elem_of_here|].
      destruct a; simpl; try (by apply IH). by apply list_elem_of_further, IH. }
    apply step_inheritedDeletions in Hname as (-> & _ & Hname & Hnone & ->).
    done.
Qed.

Lemma deletion_follows_delivery_and_ack_witness :
  (∃ d blob,
      AckReceived "d2" = AckReceived d
      ∧ ParcelKeyRetrieved "k2" (Some blob) d
        ∈ [ParcelKeyRetrieved "k1" (Some []) "d1";
           ParcelKeyRetrieved "k2" (Some [Byte.x01]) "d2"]
      ∧ SendParcelDelivery d blob
        ∈ snd (run newSession
                 [ParcelKeyRetrieved "k1" (Some []) "d1";
                  ParcelKeyRetrieved "k2" (Some [Byte.x01]) "d2"]))
  ∧ (AckReceived "valueOf" = AckReceived "valueOf"
     ∧ inherited "valueOf" = true
     ∧ pendingParcelKeyByDeliveryId
         (tracker (fst (run newSession
                          [ParcelKeyRetrieved "k1" (Some []) "d1"])))
       !! "valueOf" = None
     ∧ snd (step (fst (run newSession [ParcelKeyRetrieved "k1" (Some []) "d1"]))
              (AckReceived "valueOf"))
       = [DeleteInherited "valueOf"]).
Proof.
  split.
  - apply (proj1 (deletion_follows_delivery_and_ack
                    [ParcelKeyRetrieved "k1" (Some []) "d1";
                     ParcelKeyRetrieved "k2" (Some [Byte.x01]) "d2"]
                    (AckReceived "d2")) "k2").
    apply list_elem_of_In. vm_compute. auto.
  - apply (proj2 (deletion_follows_delivery_and_ack
                    [ParcelKeyRetrieved "k1" (Some []) "d1"]
                    (AckReceived "valueOf")) "valueOf").
    apply list_elem_of_In. vm_compute. auto.
Defined.

(** *** A session that is kept alive *)

Lemma step_flag (s : Session) (e : Event) :
  e ≠ ParcelKeysEnded →
  wereAllParcelsDelivered (tracker (fst (step s e)))
  = wereAllParcelsDelivered (tracker s).
Proof.
  intros He. step_cases e; try done.
  - by destruct (deliveryLoop s), blob, (ackLoop s).
  - destruct (ackLoop s); try done.
    destruct (pendingParcelKeyByDeliveryId (tracker s) !! a) as [k|];
      [|by destruct (inherited a)].
    by destruct (truthy k).
  - destruct (ackLoop s); try done. by destruct (isCollectionComplete _).
  - by destruct (ackLoop s).
Qed.

(** X3. As long as the key stream does not end, which is how the store
    serves a session that is kept alive, the session never closes the socket
    with [NORMAL], however many parcels are acknowledged: all it can close
    with is [CANNOT_ACCEPT]. *)
Theorem no_normal_close_before_keys_end (events : list Event) :
  ParcelKeysEnded ∉ events →
  ∀ code reason,
    (code, reason) ∈ closes (snd (run newSession events)) →
    code = CANNOT_ACCEPT.
Proof.
  assert (∀ s,
            ParcelKeysEnded ∉ events →
            wereAllParcelsDelivered (tracker s) = false →
            ∀ code reason,
              (code, reason) ∈ closes (snd (run s events)) →
              code = CANNOT_ACCEPT) as Hgen.
  { induction events as [|e events IH]; intros s Hno Hflag code reason Hin.
    - by apply not_elem_of_nil in Hin.
    - apply not_elem_of_cons in Hno as [Hne Hno].
      rewrite run_cons in Hin. cbn [snd] in Hin.
      rewrite closes_app in Hin. apply elem_of_app in Hin as [Hin|Hin].
      + destruct code; [exfalso|done].
        assert (Close NORMAL reason ∈ snd (step s e)) as Hclose.
        { clear -Hin. induction (snd (step s e)) as [|a out IHout];
            [by apply not_elem_of_nil in Hin|].
          destruct a; simpl in Hin;
            try (by apply list_elem_of_further, IHout).
          apply elem_of_cons in Hin as [[= <- <-]|Hin];
            [apply list_elem_of_here|by apply list_elem_of_further, IHout]. }
        apply step_normal_close, isCollectionComplete_true in Hclose as [Hset _].
        rewrite step_flag in Hset by done. congruence.
      + apply (IH (fst (step s e))) with reason; [done| |done].
        by rewrite step_flag. }
  intros Hno. by apply Hgen.
Qed.

Lemma no_normal_close_before_keys_end_witness :
  let events :=
    [ParcelKeyRetrieved "k1" (Some []) "d1"; AckReceived "d1";
     ParcelDeleted; AckReceived "d1"] in
  closes (snd (run newSession events))
  = [(CANNOT_ACCEPT, Some "Unknown delivery id sent as acknowledgement")]
  ∧ ∀ code reason,
      (code, reason) ∈ closes (snd (run newSession events)) →
      code = CANNOT_ACCEPT.
Proof.
  intros events. split; [reflexivity|].
  apply (no_normal_close_before_keys_end events).
  intros Hin. apply list_elem_of_In in Hin. simpl in Hin.
  destruct Hin as [H|[H|[H|[H|[]]]]]; discriminate H.
Defined.

(** *** What is sent and how often the socket is closed *)

Lemma run_app (s : Session) (events1 events2 : list Event) :
  run s (events1 ++ events2)
  = (fst (run (fst (run s events1)) events2),
     snd (run s events1) ++ snd (run (fst (run s events1)) events2)).
Proof.
  revert s. induction events1 as [|e events1 IH]; intros s.
  - simpl. by destruct (run s events2).
  - rewrite <- app_comm_cons, !run_cons, IH. simpl. by rewrite app_assoc.
Qed.

Lemma retrievedDeliveries_cons (e : Event) (events : list Event) :
  retrievedDeliveries (e :: events)
  = retrievedDeliveries [e] ++ retrievedDeliveries events.
Proof. destruct e as [pk [blob|] d| |a| |]; done. Qed.

(** Nothing is sent once the delivery loop has returned or the ACK loop
    has left. *)
Lemma sends_stopped (events : list Event) (s : Session) :
  deliveryLoop s = DeliveryReturned ∨ ackLoop s = AckReturned →
  sends (snd (run s events)) = [].
Proof.
  revert s. induction events as [|e events IH]; intros s Hstopped; [done|].
  rewrite run_cons. cbn [snd]. rewrite sends_app.
  assert (sends (snd (step s e)) = []
          ∧ (deliveryLoop (fst (step s e)) = DeliveryReturned
             ∨ ackLoop (fst (step s e)) = AckReturned)) as [-> Hstopped'].
  { destruct Hstopped as [Hloop|Hloop]; step_cases e; rewrite ?Hloop;
      try (split; [done|by auto]).
    - destruct (ackLoop s); try (split; [done|by auto]).
      destruct (pendingParcelKeyByDeliveryId (tracker s) !! a) as [k|];
        [destruct (truthy k)|destruct (inherited a)]; split; by auto.
    - destruct (ackLoop s); try (split; [done|by auto]).
      destruct (isCollectionComplete _); split; by auto.
    - destruct (ackLoop s); split; by auto.
    - destruct (deliveryLoop s), blob; split; by auto.
    - destruct (deliveryLoop s); [|split; by auto]. simpl.
      destruct (isCollectionComplete _); split; by auto. }
  by apply IH.
Qed.

Lemma sends_running (events : list Event) (s : Session) :
  deliveryLoop s = Delivering →
  ParcelKeysEnded ∉ events →
  ackLoop (fst (run s events)) ≠ AckReturned →
  sends (snd (run s events)) = retrievedDeliveries events
  ∧ deliveryLoop (fst (run s events)) = Delivering.
Proof.
  revert s. induction events as [|e events IH]; intros s Hloop Hno Hrunning;
    [done|].
  apply not_elem_of_cons in Hno as [Hne Hno].
  rewrite run_cons in Hrunning. cbn [fst] in Hrunning.
  assert (ackLoop (fst (step s e)) ≠ AckReturned) as Hrunning1.
  { intros Hret. by destruct (ackReturned_run events _ Hret). }
  rewrite run_cons, retrievedDeliveries_cons. cbn [fst snd]. rewrite sends_app.
  assert (sends (snd (step s e)) = retrievedDeliveries [e]
          ∧ deliveryLoop (fst (step s e)) = Delivering) as [-> Hloop'].
  { revert Hrunning1. step_cases e; rewrite ?Hloop; try done.
    - destruct blob; [|done]. by destruct (ackLoop s).
    - destruct (ackLoop s); try done.
      destruct (pendingParcelKeyByDeliveryId (tracker s) !! a) as [k|];
        [|by destruct (inherited a)].
      by destruct (truthy k).
    - destruct (ackLoop s); try done. by destruct (isCollectionComplete _).
    - by destruct (ackLoop s). }
  destruct (IH _ Hloop' Hno Hrunning) as [-> ?]. done.
Qed.

Lemma sends_prefix (events : list Event) (s : Session) :
  sends (snd (run s events)) `prefix_of` retrievedDeliveries events.
Proof.
  revert s. induction events as [|e events IH]; intros s; [done|].
  rewrite run_cons, retrievedDeliveries_cons. cbn [snd]. rewrite sends_app.
  assert (sends (snd (step s e)) = retrievedDeliveries [e]
          ∨ (sends (snd (step s e)) = []
             ∧ (deliveryLoop (fst (step s e)) = DeliveryReturned
                ∨ ackLoop (fst (step s e)) = AckReturned))) as [->|[-> Hstopped]].
  { step_cases e.
    - destruct blob; [|left; by destruct (deliveryLoop s)].
      destruct (deliveryLoop s) eqn:Hloop; [|right; split; by auto].
      destruct (ackLoop s); simpl; try (by left). right. split; by auto.
    - left. destruct (deliveryLoop s); [|done]. simpl.
      by destruct (isCollectionComplete _).
    - left. destruct (ackLoop s); try done.
      destruct (pendingParcelKeyByDeliveryId (tracker s) !! a) as [k|];
        [|by destruct (inherited a)].
      by destruct (truthy k).
    - left. destruct (ackLoop s); try done. by destruct (isCollectionComplete _).
    - left. by destruct (ackLoop s). }
  - by apply prefix_app.
  - rewrite (sends_stopped events _ Hstopped). apply prefix_nil.
Qed.

(** X4. What a session sends is an initial part of what the store hands
    over: one parcel delivery for each key whose parcel the store still
    holds, in the order of the key stream and under the delivery-ID issued
    for it, a key whose parcel is gone being passed over. As long as the key
    stream has not ended and the ACK loop has not left, all of these have
    been sent; once the key stream has ended nothing more is sent, whatever
    arrives, and neither once the ACK loop has left, the connection being
    closed. *)
Theorem sends_follow_retrievals (before after : list Event) :
  ParcelKeysEnded ∉ before →
  ackLoop (fst (run newSession before)) ≠ AckReturned →
  sends (snd (run newSession before)) = retrievedDeliveries before
  ∧ sends (snd (run newSession (before ++ ParcelKeysEnded :: after)))
    = retrievedDeliveries before
  ∧ (∀ events,
       sends (snd (run newSession events)) `prefix_of` retrievedDeliveries events)
  ∧ (∀ events later,
       ackLoop (fst (run newSession events)) = AckReturned →
       sends (snd (run newSession (events ++ later)))
       = sends (snd (run newSession events))).
Proof.
  intros Hno Hrunning.
  destruct (sends_running before newSession eq_refl Hno Hrunning)
    as [Hsent Hloop].
  split; [done|]. split; [|split].
  - rewrite run_app. cbn [snd]. rewrite sends_app, Hsent, run_cons. cbn [snd].
    rewrite sends_app.
    assert (sends (snd (step (fst (run newSession before)) ParcelKeysEnded)) = []
            ∧ deliveryLoop
                (fst (step (fst (run newSession before)) ParcelKeysEnded))
              = DeliveryReturned) as [-> Hret].
    { simpl. unfold makeDeliveryStream_end. rewrite Hloop. simpl.
      by destruct (isCollectionComplete _). }
    rewrite (sends_stopped after _ (or_introl Hret)). by rewrite !app_nil_r.
  - intros events. apply sends_prefix.
  - intros events later Hleft. rewrite run_app. cbn [snd].
    rewrite sends_app, (sends_stopped later _ (or_intror Hleft)).
    by rewrite app_nil_r.
Qed.

Lemma sends_follow_retrievals_witness :
  sends
    (snd (run newSession
            ([ParcelKeyRetrieved "k1" (Some [Byte.x01]) "d1";
              ParcelKeyRetrieved "k2" None "d2";
              ParcelKeyRetrieved "k3" (Some [Byte.x03]) "d3"]
             ++ ParcelKeysEnded
                :: [ParcelKeyRetrieved "k4" (Some [Byte.x04]) "d4"])))
  = [("d1", [Byte.x01]); ("d3", [Byte.x03])]
  ∧ sends
      (snd (run newSession
              ([ParcelKeyRetrieved "k1" (Some [Byte.x01]) "d1";
                AckReceived "bogus"]
               ++ [ParcelKeyRetrieved "k2" (Some [Byte.x02]) "d2"])))
    = [("d1", [Byte.x01])].
Proof.
  split.
  - refine (proj1 (proj2 (sends_follow_retrievals
                            [ParcelKeyRetrieved "k1" (Some [Byte.x01]) "d1";
                             ParcelKeyRetrieved "k2" None "d2";
                             ParcelKeyRetrieved "k3" (Some [Byte.x03]) "d3"]
                            [ParcelKeyRetrieved "k4" (Some [Byte.x04]) "d4"]
                            _ _))).
    + intros Hin. apply list_elem_of_In in Hin. simpl in Hin.
      destruct Hin as [H|[H|[H|[]]]]; discriminate H.
    + discriminate.
  - refine (proj2 (proj2 (proj2 (sends_follow_retrievals [] [] _ _)))
              [ParcelKeyRetrieved "k1" (Some [Byte.x01]) "d1";
               AckReceived "bogus"]
              [ParcelKeyRetrieved "k2" (Some [Byte.x02]) "d2"] _).
    + apply not_elem_of_nil.
    + discriminate.
    + reflexivity.
Defined.

Lemma step_closes_left (s : Session) (e : Event) :
  (length (closes (snd (step s e))) + closesLeft (fst (step s e))
   ≤ closesLeft s)%nat
  ∧ (refusals (snd (step s e)) + refusalsLeft (fst (step s e))
     ≤ refusalsLeft s)%nat.
Proof.
  unfold closesLeft, refusalsLeft. destruct s as [tr dl al]. step_cases e.
  - destruct dl, blob, al; simpl; lia.
  - destruct dl; simpl; [|lia].
    destruct (isCollectionComplete _); simpl; destruct al; lia.
  - destruct al; simpl; try lia.
    destruct (pendingParcelKeyByDeliveryId tr !! a) as [k|];
      [destruct (truthy k)|destruct (inherited a)]; simpl; destruct dl; lia.
  - destruct al; simpl; try lia.
    destruct (isCollectionComplete _); simpl; destruct dl; lia.
  - destruct al; simpl; destruct dl; lia.
Qed.

Lemma run_closes_left (events : list Event) (s : Session) :
  (length (closes (snd (run s events))) + closesLeft (fst (run s events))
   ≤ closesLeft s)%nat
  ∧ (refusals (snd (run s events)) + refusalsLeft (fst (run s events))
     ≤ refusalsLeft s)%nat.
Proof.
  revert s. induction events as [|e events IH]; intros s; [simpl; lia|].
  rewrite run_cons. cbn [fst snd].
  rewrite closes_app, length_app, refusals_app.
  pose proof (step_closes_left s e). pose proof (IH (fst (step s e))). lia.
Qed.

(** X5. Whatever the store and the client do, a session calls
    [socket.close] at most twice, once from each of its two loops, and at
    most once with [CANNOT_ACCEPT]: the ACK loop leaves on its first close. *)
Theorem session_closes_at_most_twice (events : list Event) :
  (length (closes (snd (run newSession events))) ≤ 2)%nat
  ∧ (refusals (snd (run newSession events)) ≤ 1)%nat.
Proof.
  pose proof (run_closes_left events newSession) as [Hcloses Hrefusals].
  unfold closesLeft, refusalsLeft in *. simpl in *. lia.
Qed.

(** *** A session that drains *)

Lemma trackedParcels_lookup_other (parcels : list StoredParcel)
    (m : gmap string string) (d : string) :
  d ∉ map storedDeliveryId parcels →
  trackedParcels parcels m !! d = m !! d.
Proof.
  revert m. induction parcels as [|p parcels IH]; intros m Hd; [done|].
  simpl in Hd. apply not_elem_of_cons in Hd as [Hne Hd].
  unfold trackedParcels in *. simpl. rewrite IH by done.
  by rewrite lookup_insert_ne.
Qed.

Lemma trackedParcels_lookup (parcels : list StoredParcel)
    (m : gmap string string) (p : StoredParcel) :
  NoDup (map storedDeliveryId parcels) →
  p ∈ parcels →
  trackedParcels parcels m !! storedDeliveryId p = Some (storedKey p).
Proof.
  revert m. induction parcels as [|p0 parcels IH]; intros m Hnodup Hin.
  - by apply not_elem_of_nil in Hin.
  - simpl in Hnodup. apply NoDup_cons in Hnodup as [Hfresh Hnodup].
    apply elem_of_cons in Hin as [->|Hin].
    + change (trackedParcels (p0 :: parcels) m)
        with (trackedParcels parcels
                (<[storedDeliveryId p0 := storedKey p0]> m)).
      rewrite trackedParcels_lookup_other by done. apply lookup_insert_eq.
    + by apply IH.
Qed.

Lemma trackedParcels_size (parcels : list StoredParcel)
    (m : gmap string string) :
  NoDup (map storedDeliveryId parcels) →
  (∀ p, p ∈ parcels → m !! storedDeliveryId p = None) →
  size (trackedParcels parcels m) = (size m + length parcels)%nat.
Proof.
  revert m. induction parcels as [|p0 parcels IH]; intros m Hnodup Hfresh.
  - simpl. lia.
  - simpl in Hnodup. apply NoDup_cons in Hnodup as [Hp0 Hnodup].
    change (trackedParcels (p0 :: parcels) m)
      with (trackedParcels parcels
              (<[storedDeliveryId p0 := storedKey p0]> m)).
    rewrite IH; [|done|].
    + rewrite map_size_insert_None; [simpl; lia|].
      apply Hfresh, list_elem_of_here.
    + intros p Hp. rewrite lookup_insert_ne.
      * by apply Hfresh, list_elem_of_further.
      * intros Heq. apply Hp0. rewrite Heq.
        apply list_elem_of_fmap. by exists p.
Qed.

(** The session after the store has handed over [parcels]. *)
Lemma run_retrievals (parcels : list StoredParcel) (s : Session) :
  deliveryLoop s = Delivering →
  ackLoop s = AwaitingAck →
  run s (retrievals parcels)
  = ({| tracker :=
          {| wereAllParcelsDelivered := wereAllParcelsDelivered (tracker s);
             pendingParcelKeyByDeliveryId :=
               trackedParcels parcels
                 (pendingParcelKeyByDeliveryId (tracker s)) |};
        deliveryLoop := Delivering;
        ackLoop := ackLoop s |},
     map (fun p => SendParcelDelivery (storedDeliveryId p) (storedParcel p))
       parcels).
Proof.
  revert s. induction parcels as [|p parcels IH]; intros s Hloop Hack.
  - destruct s as [[flag pending] dl al]. simpl in *. by subst dl.
  - unfold retrievals. rewrite map_cons, run_cons. fold (retrievals parcels).
    simpl step. unfold makeDeliveryStream_body. rewrite Hloop, Hack.
    cbn [fst snd]. by rewrite IH.
Qed.

(** The key under which a delivery-ID is pending. *)
Local Abbreviation keyIn m := (fun d : string => default "" (m !! d)).

Lemma step_known_ack (s : Session) (d k : string) :
  ackLoop s = AwaitingAck →
  pendingParcelKeyByDeliveryId (tracker s) !! d = Some k →
  k ≠ "" →
  step s (AckReceived d)
  = ({| tracker :=
          {| wereAllParcelsDelivered := wereAllParcelsDelivered (tracker s);
             pendingParcelKeyByDeliveryId :=
               delete d (pendingParcelKeyByDeliveryId (tracker s)) |};
        deliveryLoop := deliveryLoop s;
        ackLoop := AwaitingDeletion |},
     [DeleteParcel k]).
Proof.
  intros Hack Hd Hk. simpl. rewrite makeACKProcessor_body_eq, Hack, Hd.
  by rewrite (proj2 (truthy_true k) Hk).
Qed.

(** The ACK loop works through the acknowledgements of all the pending
    delivery-IDs of a session whose delivery loop has returned. *)
Lemma run_acknowledgedInTurn (acks : list string) :
  ∀ (m : gmap string string) (dl : DeliveryLoop),
    NoDup acks →
    (∀ d, d ∈ acks → ∃ k, m !! d = Some k ∧ k ≠ "") →
    size m = length acks →
    acks ≠ [] →
    let s :=
      {| tracker :=
           {| wereAllParcelsDelivered := true;
              pendingParcelKeyByDeliveryId := m |};
         deliveryLoop := dl;
         ackLoop := AwaitingAck |} in
    snd (run s (acknowledgedInTurn acks))
    = map (fun d => DeleteParcel (keyIn m d)) acks ++ [Close NORMAL None]
    ∧ isCollectionComplete (tracker (fst (run s (acknowledgedInTurn acks))))
      = true.
Proof.
  induction acks as [|d acks IH];
    intros m dl Hnodup Hknown Hsize Hnonempty s; [done|].
  apply NoDup_cons in Hnodup as [Hfresh Hnodup].
  destruct (Hknown d) as (k & Hd & Hk); [apply list_elem_of_here|].
  assert (size (delete d m) = length acks) as Hsize'.
  { rewrite map_size_delete, Hd. simpl in *. lia. }
  cbn [acknowledgedInTurn]. rewrite run_cons.
  rewrite (step_known_ack s d k eq_refl Hd Hk). cbn [fst snd].
  rewrite run_cons. simpl step. unfold makeACKProcessor_resume.
  cbn [ackLoop tracker deliveryLoop wereAllParcelsDelivered
         pendingParcelKeyByDeliveryId s].
  assert (isCollectionComplete
            {| wereAllParcelsDelivered := true;
               pendingParcelKeyByDeliveryId := delete d m |}
          = Nat.eqb (length acks) 0) as Hcomplete'.
  { unfold isCollectionComplete. simpl. by rewrite Hsize'. }
  rewrite !Hcomplete'. cbn [map]. rewrite Hd. cbn [default].
  destruct acks as [|d' acks].
  - simpl. split; [done|]. by rewrite Hcomplete'.
  - change (Nat.eqb (length (d' :: acks)) 0) with false. cbn [fst snd].
    destruct (IH (delete d m) dl) as [Hout Hcomplete]; try done.
    { intros d0 Hd0. destruct (Hknown d0) as (k0 & Hk0 & Htruthy);
        [by apply list_elem_of_further|].
      exists k0. split; [|done]. rewrite lookup_delete_ne; [done|].
      intros ->. by apply Hfresh. }
    split; [|done]. rewrite Hout. cbn [app].
    f_equal. f_equal.
    apply map_ext_in. intros d0 Hd0. rewrite lookup_delete_ne; [done|].
    intros ->. by apply Hfresh, list_elem_of_In.
Qed.

Lemma deletions_sends (parcels : list StoredParcel) :
  deletions
    (map (fun p => SendParcelDelivery (storedDeliveryId p) (storedParcel p))
       parcels)
  = []
  ∧ closes
      (map (fun p => SendParcelDelivery (storedDeliveryId p) (storedParcel p))
         parcels)
    = []
  ∧ sends
      (map (fun p => SendParcelDelivery (storedDeliveryId p) (storedParcel p))
         parcels)
    = map (fun p => (storedDeliveryId p, storedParcel p)) parcels.
Proof.
  induction parcels as [|p parcels (IH1 & IH2 & IH3)]; [done|].
  simpl. by rewrite IH3.
Qed.

Lemma deletions_deletes (keys : list string) :
  deletions (map DeleteParcel keys ++ [Close NORMAL None]) = keys
  ∧ closes (map DeleteParcel keys ++ [Close NORMAL None]) = [(NORMAL, None)]
  ∧ sends (map DeleteParcel keys ++ [Close NORMAL None]) = [].
Proof.
  induction keys as [|k keys (IH1 & IH2 & IH3)]; [done|].
  simpl. by rewrite IH1.
Qed.

(** X6. A session drains: when the store hands over parcels with non-empty
    keys under distinct delivery-IDs, the key stream then ends, and the
    client acknowledges every delivery-ID once, in any order, then the
    session sends each parcel in the order of the store, deletes exactly the
    parcels handed over (each key as often as it was handed over), and
    closes the socket once, with [NORMAL], as its last action, leaving a
    complete collection. With no parcel at all, the close is all it does. *)
Theorem session_drains (parcels : list StoredParcel) (acks : list string) :
  NoDup (map storedDeliveryId parcels) →
  (∀ p, p ∈ parcels → storedKey p ≠ "") →
  acks ≡ₚ map storedDeliveryId parcels →
  let events :=
    retrievals parcels ++ ParcelKeysEnded :: acknowledgedInTurn acks in
  let out := snd (run newSession events) in
  sends out = map (fun p => (storedDeliveryId p, storedParcel p)) parcels
  ∧ deletions out ≡ₚ map storedKey parcels
  ∧ closes out = [(NORMAL, None)]
  ∧ last out = Some (Close NORMAL None)
  ∧ isCollectionComplete (tracker (fst (run newSession events))) = true.
Proof.
  intros Hnodup Hkeys Hperm events out. subst events out.
  rewrite run_app, (run_retrievals parcels newSession eq_refl eq_refl), run_cons.
  cbn [fst snd]. simpl step. unfold makeDeliveryStream_end.
  cbn [deliveryLoop tracker ackLoop newSession CollectionTracker.new
         wereAllParcelsDelivered pendingParcelKeyByDeliveryId].
  set (m := trackedParcels parcels ∅).
  assert (size m = length parcels) as Hsize.
  { unfold m. rewrite trackedParcels_size; [by rewrite map_size_empty|done|].
    intros p _. apply lookup_empty. }
  assert (length acks = length parcels) as Hlength.
  { rewrite (Permutation_length Hperm). apply length_map. }
  assert (isCollectionComplete
            {| wereAllParcelsDelivered := true;
               pendingParcelKeyByDeliveryId := m |}
          = Nat.eqb (length parcels) 0) as Hended.
  { unfold isCollectionComplete. simpl. by rewrite Hsize. }
  unfold markAllParcelsDelivered.
  cbn [wereAllParcelsDelivered pendingParcelKeyByDeliveryId].
  fold m. rewrite !Hended.
  destruct (deletions_sends parcels) as (Hd1 & Hc1 & Hs1).
  destruct parcels as [|p parcels].
  - destruct acks; [|discriminate Hlength]. simpl. by repeat split.
  - change (Nat.eqb (length (p :: parcels)) 0) with false. cbn [fst snd].
    destruct (run_acknowledgedInTurn acks m DeliveryReturned)
      as [Hout Hcomplete]; try done.
    { by rewrite Hperm. }
    { intros d Hd. rewrite Hperm in Hd.
      apply list_elem_of_fmap in Hd as (q & -> & Hq).
      exists (storedKey q). split; [by apply trackedParcels_lookup|by apply Hkeys]. }
    { lia. }
    { intros ->. discriminate Hlength. }
    rewrite Hout. rewrite app_nil_l.
    destruct (deletions_deletes (map (keyIn m) acks)) as (Hd2 & Hc2 & Hs2).
    rewrite <- (map_map (keyIn m) DeleteParcel) in *.
    rewrite sends_app, deletions_app, closes_app, Hs1, Hd1, Hc1, Hs2, Hd2, Hc2.
    rewrite app_nil_r. split; [done|]. split; [|split; [done|split; [|done]]].
    + cbn [app]. rewrite Hperm, map_map.
      rewrite (map_ext_in _ storedKey); [done|].
      intros q Hq. cbn beta. unfold m.
      rewrite (trackedParcels_lookup (p :: parcels) ∅ q); [done|done|].
      by apply list_elem_of_In.
    + rewrite app_assoc. apply last_snoc.
Qed.

Lemma session_drains_witness :
  let parcels :=
    [ {| storedKey := "k1"; storedParcel := [Byte.x01]; storedDeliveryId := "d1" |};
      {| storedKey := "k2"; storedParcel := [Byte.x02]; storedDeliveryId := "d2" |} ] in
  let events :=
    retrievals parcels ++ ParcelKeysEnded :: acknowledgedInTurn ["d2"; "d1"] in
  let out := snd (run newSession events) in
  sends out = [("d1", [Byte.x01]); ("d2", [Byte.x02])]
  ∧ deletions out ≡ₚ ["k1"; "k2"]
  ∧ closes out = [(NORMAL, None)]
  ∧ last out = Some (Close NORMAL None)
  ∧ isCollectionComplete (tracker (fst (run newSession events))) = true.
Proof.
  intros parcels.
  apply (session_drains parcels ["d2"; "d1"]).
  - apply (bool_decide_unpack _). vm_compute. exact I.
  - intros p Hp. apply list_elem_of_In in Hp. simpl in Hp.
    destruct Hp as [<-|[<-|[]]]; discriminate.
  - apply perm_swap.
Defined.

End SessionFacts.

(** ** The connection handler *)

Section ServerFacts.

Import CollectionTracker Collection.

Variable deserializeHandshakeResponse : Buffer → option (list Buffer).
Variable verifyNonceSignature :
  Buffer → Buffer → list Certificate → option Certificate.

Local Ltac step_cases e :=
  destruct e as [?pk ?blob ?d| |?a| |];
  simpl;
  unfold makeDeliveryStream_body, makeDeliveryStream_end,
    makeACKProcessor_resume, makeACKProcessor_end;
  rewrite ?makeACKProcessor_body_eq.

Lemma verifyNonceSignaturesFrom_inv (nonce : Buffer)
    (ownCertificates : list Certificate) (nonceSignatures : list Buffer) :
  ∀ endpointCertificates verified : list Certificate,
    verifyNonceSignaturesFrom verifyNonceSignature endpointCertificates
      nonceSignatures nonce ownCertificates
    = Some verified →
    ∃ added,
      verified = endpointCertificates ++ added
      ∧ Forall2
          (λ nonceSignature endpointCertificate,
             verifyNonceSignature nonceSignature nonce ownCertificates
             = Some endpointCertificate)
          nonceSignatures added.
Proof.
  induction nonceSignatures as [|sig rest IH]; intros acc verified; simpl.
  - intros [= <-]. exists []. split; [by rewrite app_nil_r|constructor].
  - destruct (verifyNonceSignature sig nonce ownCertificates) as [c|] eqn:Hsig;
      [|done].
    intros Hrest. destruct (IH _ _ Hrest) as (added & -> & Hall).
    exists (c :: added). split; [by rewrite <- app_assoc|by constructor].
Qed.

Lemma sent_was_retrieved (events : list Event) (s : Session) (d : string)
    (parcel : Buffer) :
  SendParcelDelivery d parcel ∈ snd (run s events) →
  ∃ k, ParcelKeyRetrieved k (Some parcel) d ∈ events.
Proof.
  revert s. induction events as [|e events IH]; intros s Hin.
  - by apply not_elem_of_nil in Hin.
  - rewrite run_cons in Hin. cbn [snd] in Hin.
    apply elem_of_app in Hin as [Hin|Hin].
    + revert Hin. step_cases e; intros Hin.
      * destruct (deliveryLoop s), blob as [blob|], (ackLoop s);
          simpl in Hin; try (by apply not_elem_of_nil in Hin);
          apply list_elem_of_singleton in Hin; injection Hin as -> ->;
          exists pk; apply list_elem_of_here.
      * destruct (deliveryLoop s); simpl in Hin;
          [|by apply not_elem_of_nil in Hin].
        destruct (isCollectionComplete _);
          [|by apply not_elem_of_nil in Hin].
        apply list_elem_of_singleton in Hin. discriminate Hin.
      * destruct (ackLoop s); simpl in Hin;
          try (by apply not_elem_of_nil in Hin).
        destruct (pendingParcelKeyByDeliveryId (tracker s) !! a) as [k|];
          [destruct (truthy k)|destruct (inherited a)]; simpl in Hin;
          apply list_elem_of_singleton in Hin; discriminate Hin.
      * destruct (ackLoop s); simpl in Hin;
          try (by apply not_elem_of_nil in Hin).
        destruct (isCollectionComplete _); simpl in Hin;
          [|by apply not_elem_of_nil in Hin].
        apply list_elem_of_singleton in Hin. discriminate Hin.
      * destruct (ackLoop s); simpl in Hin; by apply not_elem_of_nil in Hin.
    + destruct (IH _ Hin) as [k Hk]. exists k. by apply list_elem_of_further.
Qed.

(** X7. The connection handler sends a parcel only to a peer that has passed
    the handshake: when it sends a parcel, the handshake response carried at
    least one nonce signature and each of them verified against the
    certificates of the gateway; the handler has sent the challenge first,
    then opened the key stream for the private addresses of the verifying
    certificates, with [keepAlive] as the request header sets it, and
    everything after that is what the session did; and the parcel is one
    that the key stream handed out, sent under the delivery-ID generated for
    it. *)
Theorem parcels_go_to_verified_endpoints (nonce : Buffer)
    (ownCertificates : list Certificate) (requestHeaders : gmap string string)
    (message : Buffer) (events : list Event) (d : string) (parcel : Buffer) :
  let actions :=
    makeParcelCollectionServer deserializeHandshakeResponse verifyNonceSignature
      nonce ownCertificates requestHeaders message events in
  SendParcelDelivery d parcel ∈ actions →
  ∃ nonceSignatures endpointCertificates,
    deserializeHandshakeResponse message = Some nonceSignatures
    ∧ nonceSignatures ≠ []
    ∧ Forall2
        (λ nonceSignature endpointCertificate,
           verifyNonceSignature nonceSignature nonce ownCertificates
           = Some endpointCertificate)
        nonceSignatures endpointCertificates
    ∧ actions
      = SendChallenge nonce
        :: StreamActiveBoundForEndpoints
             (map subjectPrivateAddress endpointCertificates)
             (keepAliveOf requestHeaders)
        :: snd (run newSession events)
    ∧ ∃ k, ParcelKeyRetrieved k (Some parcel) d ∈ events.
Proof.
  intros actions. subst actions.
  unfold makeParcelCollectionServer, doHandshake.
  destruct (deserializeHandshakeResponse message) as [sigs|] eqn:Hsigs.
  2:{ intros Hin. apply elem_of_cons in Hin as [Hin|Hin]; [discriminate Hin|].
      apply list_elem_of_singleton in Hin. discriminate Hin. }
  destruct sigs as [|sig rest]; simpl Nat.eqb; cbv iota.
  { intros Hin. apply elem_of_cons in Hin as [Hin|Hin]; [discriminate Hin|].
    apply list_elem_of_singleton in Hin. discriminate Hin. }
  unfold verifyNonceSignatures.
  destruct (verifyNonceSignaturesFrom verifyNonceSignature [] (sig :: rest)
              nonce ownCertificates) as [verified|] eqn:Hverified.
  2:{ intros Hin. apply elem_of_cons in Hin as [Hin|Hin]; [discriminate Hin|].
      apply list_elem_of_singleton in Hin. discriminate Hin. }
  intros Hin. cbn [app] in Hin.
  apply elem_of_cons in Hin as [Hin|Hin]; [discriminate Hin|].
  apply elem_of_cons in Hin as [Hin|Hin]; [discriminate Hin|].
  destruct (verifyNonceSignaturesFrom_inv _ _ _ _ _ Hverified)
    as (added & -> & Hall).
  exists (sig :: rest), added.
  split; [done|]. split; [done|]. split; [done|]. split; [done|].
  by apply sent_was_retrieved with newSession.
Qed.

End ServerFacts.

Section ServerSamples.

Import Collection.

Lemma parcels_go_to_verified_endpoints_witness :
  let actions :=
    makeParcelCollectionServer Samples.deserializeHandshakeResponse
      Samples.verifyNonceSignature [Byte.x10] [Samples.gatewayCertificate] ∅
      [Byte.x61; Byte.x62]
      [ParcelKeyRetrieved "k1" (Some [Byte.x01]) "d1"; ParcelKeysEnded] in
  ∃ nonceSignatures endpointCertificates,
    Samples.deserializeHandshakeResponse [Byte.x61; Byte.x62]
    = Some nonceSignatures
    ∧ nonceSignatures ≠ []
    ∧ Forall2
        (λ nonceSignature endpointCertificate,
           Samples.verifyNonceSignature nonceSignature [Byte.x10]
             [Samples.gatewayCertificate]
           = Some endpointCertificate)
        nonceSignatures endpointCertificates
    ∧ actions
      = SendChallenge [Byte.x10]
        :: StreamActiveBoundForEndpoints
             (map subjectPrivateAddress endpointCertificates) (keepAliveOf ∅)
        :: snd (run newSession
                  [ParcelKeyRetrieved "k1" (Some [Byte.x01]) "d1"; ParcelKeysEnded])
    ∧ ∃ k, ParcelKeyRetrieved k (Some [Byte.x01]) "d1"
           ∈ [ParcelKeyRetrieved "k1" (Some [Byte.x01]) "d1"; ParcelKeysEnded].
Proof.
  intros actions.
  apply (parcels_go_to_verified_endpoints Samples.deserializeHandshakeResponse
           Samples.verifyNonceSignature [Byte.x10] [Samples.gatewayCertificate]
           ∅ [Byte.x61; Byte.x62]
           [ParcelKeyRetrieved "k1" (Some [Byte.x01]) "d1"; ParcelKeysEnded]
           "d1" [Byte.x01]).
  apply list_elem_of_In. vm_compute. tauto.
Defined.

End ServerSamples.

(** ** The run of the courier-sync subprocess *)

Section SubprocessFacts.

Import CourierSync.

Variable env : Environment.

Local Ltac emits :=
  repeat first
    [ apply Emits_ret | apply Emits_throw | apply Emits_await
    | apply Emits_nonNull
    | apply Emits_perform; simpl
    | apply Emits_call; simpl
    | apply Emits_bind; [|intros ?] ].

Lemma generateCCA_withinPhase (publicGateway : PublicGateway)
    (currentKey : option UnboundKeyPair) :
  Emits withinPhase (generateCCA env publicGateway currentKey).
Proof. unfold generateCCA. emits; done. Qed.

Lemma processItems_withinPhase (ownCertificates : list Certificate)
    (messages : list Buffer) :
  Emits withinPhase (processItems env messages ownCertificates).
Proof.
  induction messages as [|itemSerialized rest IH]; cbn [processItems]; [emits|].
  destruct (deserializeItem env itemSerialized) as [[parcel|ack]|].
  - unfold processParcel. destruct (validateParcel env parcel ownCertificates);
      emits; done.
  - unfold processParcelCollectionAck. emits; done.
  - emits; done.
Qed.

Lemma processCargoes_withinPhase
    (ownCertificates ownCDACertificates : list Certificate)
    (cargoesSerialized : list Buffer) :
  Emits withinPhase
    (processCargoes env cargoesSerialized ownCertificates ownCDACertificates).
Proof.
  induction cargoesSerialized as [|cargoSerialized rest IH];
    cbn [processCargoes]; [emits|].
  destruct (deserializeCargo env cargoSerialized) as [cargo|]; [|emits; done].
  destruct (validateCargo env cargo ownCDACertificates); [|emits; done].
  destruct (unwrapMessagePayload env cargo) as [messages|]; [|emits; done].
  apply Emits_bind; [apply processItems_withinPhase|done].
Qed.

(** A phase notifies its stage first, and only that one. *)
Lemma collectCargo_stage (publicGateway : PublicGateway)
    (currentKey : option UnboundKeyPair) :
  ∃ inner,
    snd (collectCargo env publicGateway currentKey) = NotifyStage COLLECTION :: inner
    ∧ Forall withinPhase inner.
Proof.
  unfold collectCargo, sendStageNotificationToParent.
  rewrite bind_effects. cbn [perform fst snd app]. eexists. split; [reflexivity|].
  apply (Emits_bind withinPhase); [apply generateCCA_withinPhase|].
  intros ccaSerialized.
  destruct (clientCollectCargo env ccaSerialized) as [cargoesSerialized failure].
  apply Emits_bind; [by apply Emits_perform|intros _].
  apply Emits_bind; [apply Emits_await|intros ownCertificates].
  apply Emits_bind; [apply processCargoes_withinPhase|intros _].
  destruct failure; emits.
Qed.

Lemma deliverCargo_stage (publicGateway : PublicGateway)
    (currentKey : option UnboundKeyPair) :
  ∃ inner,
    snd (deliverCargo env publicGateway currentKey) = NotifyStage DELIVERY :: inner
    ∧ Forall withinPhase inner.
Proof.
  unfold deliverCargo, sendStageNotificationToParent.
  rewrite bind_effects. cbn [perform fst snd app]. eexists. split; [reflexivity|].
  destruct (clientDeliverCargo env _) as [ackIds failure].
  apply (Emits_bind withinPhase); [by apply Emits_perform|intros _].
  destruct failure; emits.
Qed.

Lemma stagesNotified_app (out1 out2 : list Effect) :
  stagesNotified (out1 ++ out2) = stagesNotified out1 ++ stagesNotified out2.
Proof.
  induction out1 as [|e out1 IH]; [done|].
  destruct e; simpl; by rewrite ?IH.
Qed.

Lemma fatalLogs_app (out1 out2 : list Effect) :
  fatalLogs (out1 ++ out2) = fatalLogs out1 ++ fatalLogs out2.
Proof.
  induction out1 as [|e out1 IH]; [done|].
  destruct e as [[]| | | | | | | | |]; simpl; by rewrite ?IH.
Qed.

Lemma withinPhase_quiet (out : list Effect) :
  Forall withinPhase out →
  stagesNotified out = [] ∧ fatalLogs out = [] ∧ clientCloses out = 0%nat
  ∧ Forall whileOpen out
  ∧ ∀ seconds, SleepSeconds seconds ∉ out.
Proof.
  induction 1 as [|e out He _ (IH1 & IH2 & IH3 & IH4 & IH5)].
  - repeat split; try done. intros seconds. apply not_elem_of_nil.
  - destruct e as [[]| | | | | | | | |]; try done; simpl;
      (split; [done|]); (split; [done|]); (split; [done|]);
      (split; [by constructor|]);
      intros seconds; apply not_elem_of_cons; by split.
Qed.

(** The run, by cases on what the collaborators answer. *)
Lemma runCourierSync_eq :
  runCourierSync env
  = match getPublicGateway env with
    | Thrown err => (Thrown err, [])
    | Returned None =>
        (Returned UNREGISTERED_GATEWAY, [Log Fatal "Private gateway is unregistered"])
    | Returned (Some publicGateway) =>
        match getDefaultGateway env with
        | Thrown _ =>
            (Returned FAILED_SYNC,
             [Log Fatal "System default gateway could not be found"])
        | Returned defaultGatewayIPAddress =>
            match getCurrentKey env with
            | Thrown err => (Thrown err, [])
            | Returned currentKey =>
                let url := courierUrl defaultGatewayIPAddress in
                match clientInit env url with
                | Thrown _ =>
                    (Returned FAILED_SYNC, [ClientInit url; Log Fatal "Sync failed"])
                | Returned _ =>
                    match collectCargo env publicGateway currentKey with
                    | (Thrown _, collected) =>
                        (Returned FAILED_SYNC,
                         ClientInit url
                         :: collected ++ [Log Fatal "Sync failed"; ClientClose])
                    | (Returned _, collected) =>
                        let waited :=
                          [NotifyStage WAIT;
                           SleepSeconds DELAY_BETWEEN_COLLECTION_AND_DELIVERY_SECONDS] in
                        match deliverCargo env publicGateway currentKey with
                        | (Thrown _, delivered) =>
                            (Returned FAILED_SYNC,
                             ClientInit url
                             :: collected ++ waited ++ delivered
                                ++ [Log Fatal "Sync failed"; ClientClose])
                        | (Returned _, delivered) =>
                            (Returned OK,
                             ClientInit url
                             :: collected ++ waited ++ delivered
                                ++ [ClientClose;
                                    Log Info "Sync completed successfully"])
                        end
                    end
                end
            end
        end
    end.
Proof.
  unfold runCourierSync.
  destruct (getPublicGateway env) as [[publicGateway|]|err]; simpl; try done.
  destruct (getDefaultGateway env) as [ip|err]; simpl; [|done].
  destruct (getCurrentKey env) as [currentKey|err]; simpl; [|done].
  rewrite syncWithCourier_eq.
  destruct (clientInit env (courierUrl ip)) as [client|err]; simpl; [|done].
  destruct (collectCargo env publicGateway currentKey) as [[u|err] collected];
    simpl.
  - destruct (deliverCargo env publicGateway currentKey) as [[u'|err] delivered];
      simpl; by rewrite <- ?app_assoc.
  - by rewrite <- ?app_assoc.
Qed.

(** Splits a run into the cases of [runCourierSync_eq]; in the cases in
    which the client is opened, the effects of a phase are its stage
    notification and what it does within the phase. *)
Local Ltac run_cases :=
  rewrite runCourierSync_eq;
  destruct (getPublicGateway env) as [[?publicGateway|]|?err] eqn:?Hregistered;
    [destruct (getDefaultGateway env) as [?ip|?err] eqn:?Hdiscovered;
       [destruct (getCurrentKey env) as [?currentKey|?err] eqn:?Hkey;
          [cbv zeta;
           destruct (clientInit env (courierUrl ip)) as [?client|?err] eqn:?Hinit;
             [let collected := fresh "collected" in
              let delivered := fresh "delivered" in
              let Hc := fresh "Hcollected" in
              let Hd := fresh "Hdelivered" in
              let Hci := fresh "Hcollecting" in
              let Hdi := fresh "Hdelivering" in
              destruct (collectCargo_stage publicGateway currentKey)
                as (collected & Hc & Hci);
              destruct (deliverCargo_stage publicGateway currentKey)
                as (delivered & Hd & Hdi);
              apply withinPhase_quiet in Hci;
              apply withinPhase_quiet in Hdi;
              destruct Hci as (?Hstages & ?Hfatal & ?Hcloses & ?Hopen & ?Hsleep);
              destruct Hdi as (?Hstages & ?Hfatal & ?Hcloses & ?Hopen & ?Hsleep);
              destruct (collectCargo env publicGateway currentKey)
                as [[[]|?err] ?out] eqn:?Hcollect;
              cbn [snd] in Hc; subst;
              [destruct (deliverCargo env publicGateway currentKey)
                 as [[[]|?err] ?out] eqn:?Hdeliver;
               cbn [snd] in Hd; subst|]
             |]
          |]
       |]
    | |].

(** Case analysis on the membership of an effect in a trace that is given
    by its pieces, and the search of an effect in such a trace. *)
Local Ltac in_cases H :=
  repeat match type of H with
         | _ ∈ [] => by apply not_elem_of_nil in H
         | _ ∈ _ :: _ => apply elem_of_cons in H as [H|H]
         | _ ∈ _ ++ _ => apply elem_of_app in H as [H|H]
         end.

Local Ltac in_list :=
  repeat first
    [ apply list_elem_of_here
    | apply list_elem_of_further
    | apply elem_of_app; right ].

(** X8. The stages that a run notifies to the parent process are none, or
    [COLLECTION] alone, or [COLLECTION], [WAIT] and [DELIVERY] in that
    order: a stage is never notified twice nor out of order. The three are
    notified exactly in the runs that sleep between the two phases, the
    sleep lasts five seconds, and a run that returns [OK] has notified all
    three. *)
Theorem stages_follow_the_phases :
  let effects := snd (runCourierSync env) in
  (stagesNotified effects = []
   ∨ stagesNotified effects = [COLLECTION]
   ∨ stagesNotified effects = [COLLECTION; WAIT; DELIVERY])
  ∧ (stagesNotified effects = [COLLECTION; WAIT; DELIVERY]
     ↔ SleepSeconds 5 ∈ effects)
  ∧ (∀ seconds, SleepSeconds seconds ∈ effects → seconds = 5%Z)
  ∧ (fst (runCourierSync env) = Returned OK →
     stagesNotified effects = [COLLECTION; WAIT; DELIVERY]).
Proof.
  intros effects. subst effects. run_cases.
  all: cbn [fst snd stagesNotified app];
    rewrite ?stagesNotified_app; cbn [stagesNotified app];
    rewrite ?stagesNotified_app; cbn [stagesNotified app];
    rewrite ?Hstages, ?Hstages0; cbn [app].
  all: unfold DELAY_BETWEEN_COLLECTION_AND_DELIVERY_SECONDS.
  all: repeat split; try (intros; discriminate); auto.
  all: try (intros _; solve [in_list]).
  all: intros; in_cases H; try discriminate H; try congruence;
    solve [by apply Hsleep in H | by apply Hsleep0 in H].
Qed.

(** X9. The promise of a run is rejected in two cases only: the registrar
    throws when asked for the public gateway, or, with a public gateway and
    a default gateway found, the key store throws when asked for the current
    key. Both calls are made outside the [try] block: the error is the one
    thrown, and the run has logged nothing, notified no stage and opened no
    client. *)
Theorem run_rejects_only_on_failed_lookups (err : string) :
  (fst (runCourierSync env) = Thrown err
   ↔ getPublicGateway env = Thrown err
     ∨ ∃ publicGateway defaultGatewayIPAddress,
         getPublicGateway env = Returned (Some publicGateway)
         ∧ getDefaultGateway env = Returned defaultGatewayIPAddress
         ∧ getCurrentKey env = Thrown err)
  ∧ (fst (runCourierSync env) = Thrown err → snd (runCourierSync env) = []).
Proof.
  run_cases; cbn [fst snd]; (split; [split|]); try discriminate; try done.
  all: try (intros [?|(? & ? & ? & ? & ?)]; congruence).
  all: try (intros [= ->]; auto; right; eauto).
Qed.

(** X10. Each exit code other than [OK] comes with exactly one fatal log,
    and [OK] with none: a run that returns [UNREGISTERED_GATEWAY] has done
    nothing but log that the gateway is unregistered; a run that returns
    [FAILED_SYNC] has logged either that the default gateway could not be
    found, before any stage, or that the sync failed, after trying to open
    the client; a run that returns [OK] has logged nothing as fatal and ends
    by logging its success. *)
Theorem failures_are_logged_as_fatal (code : CourierSyncExitCode) :
  fst (runCourierSync env) = Returned code →
  let effects := snd (runCourierSync env) in
  match code with
  | OK =>
      fatalLogs effects = []
      ∧ last effects = Some (Log Info "Sync completed successfully")
  | UNREGISTERED_GATEWAY =>
      effects = [Log Fatal "Private gateway is unregistered"]
  | FAILED_SYNC =>
      (effects = [Log Fatal "System default gateway could not be found"])
      ∨ (fatalLogs effects = ["Sync failed"]
         ∧ ∃ url, head effects = Some (ClientInit url))
  end.
Proof.
  run_cases; cbn [fst snd]; intros [= <-]; cbv zeta.
  - split.
    + repeat (progress (rewrite ?fatalLogs_app; cbn [fatalLogs app])).
      by rewrite Hfatal, Hfatal0.
    + rewrite !app_comm_cons, !app_assoc.
      change [ClientClose; Log Info "Sync completed successfully"]
        with ([ClientClose] ++ [Log Info "Sync completed successfully"]).
      rewrite app_assoc. apply last_snoc.
  - right. split; [|by eexists].
    repeat (progress (rewrite ?fatalLogs_app; cbn [fatalLogs app])).
    by rewrite Hfatal, Hfatal0.
  - right. split; [|by eexists].
    repeat (progress (rewrite ?fatalLogs_app; cbn [fatalLogs app])).
    by rewrite Hfatal.
  - right. split; [done|by eexists].
  - by left.
  - done.
Qed.

Lemma collectCargo_keyless (publicGateway : PublicGateway) :
  ∃ err,
    collectCargo env publicGateway None = (Thrown err, [NotifyStage COLLECTION]).
Proof.
  unfold collectCargo, sendStageNotificationToParent, generateCCA.
  destruct (getOrCreateCCAIssuer env) as [ccaIssuer|err]; by eexists.
Qed.

(** X11. A gateway whose key store has no current key cannot collect: with
    a public gateway, a default gateway and a client that opens, the run
    notifies the collection stage, fails while it generates the CCA, logs
    the failure, closes the client and returns [FAILED_SYNC]; it has signed
    no CCA and called the courier neither for collection nor for
    delivery. *)
Theorem keyless_gateway_fails_in_collection (publicGateway : PublicGateway)
    (defaultGatewayIPAddress : string) (client : CogRPCClient) :
  getPublicGateway env = Returned (Some publicGateway) →
  getDefaultGateway env = Returned defaultGatewayIPAddress →
  getCurrentKey env = Returned None →
  clientInit env (courierUrl defaultGatewayIPAddress) = Returned client →
  runCourierSync env
  = (Returned FAILED_SYNC,
     [ClientInit (courierUrl defaultGatewayIPAddress);
      NotifyStage COLLECTION;
      Log Fatal "Sync failed";
      ClientClose]).
Proof.
  intros Hregistered Hdiscovered Hkey Hinit.
  rewrite runCourierSync_eq, Hregistered, Hdiscovered, Hkey. cbv zeta.
  rewrite Hinit.
  destruct (collectCargo_keyless publicGateway) as [err ->]. done.
Qed.

(** X12. The client brackets the two phases. Either the run never has an
    open client, and then all it does is log a fatal error, after a failed
    attempt to open the client or without one, and it closes nothing; or
    its first effect is the opening of the client, which succeeds, the
    client is closed exactly once, nothing between the two is an opening or
    a closing, and after the closing nothing happens but the logging of the
    success. *)
Theorem client_brackets_the_phases :
  let effects := snd (runCourierSync env) in
  (clientCloses effects = 0%nat
   ∧ Forall
       (λ e, match e with Log Fatal _ | ClientInit _ => True | _ => False end)
       effects)
  ∨ ∃ url client body tail,
      effects = ClientInit url :: body ++ ClientClose :: tail
      ∧ clientInit env url = Returned client
      ∧ Forall whileOpen body
      ∧ (tail = [] ∨ tail = [Log Info "Sync completed successfully"]).
Proof.
  intros effects. subst effects. run_cases; cbn [fst snd].
  - right.
    exists (courierUrl ip), client,
      (NotifyStage COLLECTION :: collected
       ++ [NotifyStage WAIT;
           SleepSeconds DELAY_BETWEEN_COLLECTION_AND_DELIVERY_SECONDS]
       ++ NotifyStage DELIVERY :: delivered),
      [Log Info "Sync completed successfully"].
    split; [|split; [done|split; [|by right]]].
    + cbn [app]. repeat (rewrite <- app_assoc; cbn [app]). reflexivity.
    + constructor; [done|]. apply Forall_app. split; [done|].
      repeat (constructor; [done|]). done.
  - right.
    exists (courierUrl ip), client,
      (NotifyStage COLLECTION :: collected
       ++ [NotifyStage WAIT;
           SleepSeconds DELAY_BETWEEN_COLLECTION_AND_DELIVERY_SECONDS]
       ++ NotifyStage DELIVERY :: delivered ++ [Log Fatal "Sync failed"]),
      [].
    split; [|split; [done|split; [|by left]]].
    + cbn [app]. repeat (rewrite <- app_assoc; cbn [app]). reflexivity.
    + constructor; [done|]. apply Forall_app. split; [done|].
      repeat (constructor; [done|]). apply Forall_app. split; [done|].
      by repeat constructor.
  - right.
    exists (courierUrl ip), client,
      (NotifyStage COLLECTION :: collected ++ [Log Fatal "Sync failed"]), [].
    split; [|split; [done|split; [|by left]]].
    + cbn [app]. repeat (rewrite <- app_assoc; cbn [app]). reflexivity.
    + constructor; [done|]. apply Forall_app. split; [done|].
      by repeat constructor.
  - left. split; [done|]. by repeat constructor.
  - left. split; [done|]. constructor.
  - left. split; [done|]. by repeat constructor.
  - left. split; [done|]. by repeat constructor.
  - left. split; [done|]. constructor.
Qed.

(** *** The collection phase *)

(** X13. What a CCA is made of. When [generateCCA] signs a CCA, there is a
    current key, and the CCA is addressed to the public gateway over HTTPS,
    sent under the certificate of the current key and signed with its
    private key; its payload is the encryption, for the identity certificate
    of the public gateway, of a cargo collection request whose cargo
    delivery authorisation is issued by the CCA issuer of the key store,
    with the current private key, to the public key of the public gateway,
    and expires exactly when the CCA does. Nothing else is signed, and the
    result of [generateCCA] is the result of that signature. *)
Theorem cca_contents (publicGateway : PublicGateway)
    (currentKey : option UnboundKeyPair) (cca : CargoCollectionAuthorization) :
  SignCCA cca ∈ snd (generateCCA env publicGateway currentKey) →
  ∃ key ccaIssuer publicKey cargoDeliveryAuthorization ccrSerialized,
    currentKey = Some key
    ∧ getOrCreateCCAIssuer env = Returned ccaIssuer
    ∧ getPublicKey env (identityCertificate publicGateway) = Returned publicKey
    ∧ issueGatewayCertificate env
        {| issuerCertificate := ccaIssuer;
           issuerPrivateKey := privateKey key;
           subjectPublicKey := publicKey;
           validityEndDate := ccaExpiryDate cca |}
      = Returned cargoDeliveryAuthorization
    ∧ serializeCCR env cargoDeliveryAuthorization = Returned ccrSerialized
    ∧ encrypt env ccrSerialized (identityCertificate publicGateway)
      = Returned (ccaPayloadSerialized cca)
    ∧ ccaRecipientAddress cca = ("https://" ++ publicAddress publicGateway)%string
    ∧ ccaSenderCertificate cca = certificate key
    ∧ generateCCA env publicGateway currentKey
      = (serializeCCA env cca (privateKey key), [SignCCA cca]).
Proof.
  unfold generateCCA.
  destruct (getOrCreateCCAIssuer env) as [ccaIssuer|err] eqn:Hissuer; simpl;
    [|intros Hin; by apply not_elem_of_nil in Hin].
  destruct currentKey as [key|]; simpl;
    [|intros Hin; by apply not_elem_of_nil in Hin].
  destruct (getPublicKey env (identityCertificate publicGateway))
    as [publicKey|err] eqn:Hpublic; simpl;
    [|intros Hin; by apply not_elem_of_nil in Hin].
  destruct (issueGatewayCertificate env _) as [cda|err] eqn:Hcda; simpl;
    [|intros Hin; by apply not_elem_of_nil in Hin].
  destruct (serializeCCR env cda) as [ccr|err] eqn:Hccr; simpl;
    [|intros Hin; by apply not_elem_of_nil in Hin].
  destruct (encrypt env ccr (identityCertificate publicGateway))
    as [payload|err] eqn:Hpayload; simpl;
    [|intros Hin; by apply not_elem_of_nil in Hin].
  intros Hin. apply list_elem_of_singleton in Hin. injection Hin as ->.
  exists key, ccaIssuer, publicKey, cda, ccr.
  split; [done|]. split; [done|]. split; [done|]. split.
  { rewrite <- Hcda. f_equal. f_equal. apply ttl_reaches_endDate. }
  repeat split; done.
Qed.

Lemma generateCCA_signs (publicGateway : PublicGateway)
    (currentKey : option UnboundKeyPair) (e : Effect) :
  e ∈ snd (generateCCA env publicGateway currentKey) → ∃ cca, e = SignCCA cca.
Proof.
  unfold generateCCA.
  destruct (getOrCreateCCAIssuer env); simpl;
    [|intros Hin; by apply not_elem_of_nil in Hin].
  destruct currentKey; simpl;
    [|intros Hin; by apply not_elem_of_nil in Hin].
  destruct (getPublicKey env _); simpl;
    [|intros Hin; by apply not_elem_of_nil in Hin].
  destruct (issueGatewayCertificate env _); simpl;
    [|intros Hin; by apply not_elem_of_nil in Hin].
  destruct (serializeCCR env _); simpl;
    [|intros Hin; by apply not_elem_of_nil in Hin].
  destruct (encrypt env _ _); simpl;
    [|intros Hin; by apply not_elem_of_nil in Hin].
  intros Hin. apply list_elem_of_singleton in Hin. by eexists.
Qed.

Lemma processItems_origin (ownCertificates : list Certificate)
    (messages : list Buffer) (e : Effect) :
  e ∈ snd (processItems env messages ownCertificates) →
  match e with
  | StoreEndpointBound parcelSerialized =>
      parcelSerialized ∈ messages
      ∧ ∃ parcel,
          deserializeItem env parcelSerialized = Some (ParcelItem parcel)
          ∧ validateParcel env parcel ownCertificates = true
  | DeleteInternetBoundFromACK ack =>
      ∃ itemSerialized,
        itemSerialized ∈ messages
        ∧ deserializeItem env itemSerialized = Some (ParcelCollectionAckItem ack)
  | Log Info _ => True
  | _ => False
  end.
Proof.
  induction messages as [|itemSerialized rest IH]; cbn [processItems].
  - intros Hin. by apply not_elem_of_nil in Hin.
  - assert (e ∈ snd (processItems env rest ownCertificates) →
            match e with
            | StoreEndpointBound parcelSerialized =>
                parcelSerialized ∈ itemSerialized :: rest
                ∧ ∃ parcel,
                    deserializeItem env parcelSerialized = Some (ParcelItem parcel)
                    ∧ validateParcel env parcel ownCertificates = true
            | DeleteInternetBoundFromACK ack =>
                ∃ item,
                  item ∈ itemSerialized :: rest
                  ∧ deserializeItem env item = Some (ParcelCollectionAckItem ack)
            | Log Info _ => True
            | _ => False
            end) as Hrest.
    { intros Hin. specialize (IH Hin).
      destruct e as [[]| | | | | | | | |]; try done.
      - destruct IH as [Hb Hparcel]. split; [by apply list_elem_of_further|done].
      - destruct IH as (item & Hitem & Hack). exists item.
        split; [by apply list_elem_of_further|done]. }
    destruct (deserializeItem env itemSerialized) as [[parcel|ack]|] eqn:Hitem;
      rewrite bind_effects; intros Hin;
      apply elem_of_app in Hin as [Hin|Hin].
    + unfold processParcel in Hin.
      destruct (validateParcel env parcel ownCertificates) eqn:Hvalid.
      * rewrite bind_effects in Hin. cbn [call perform fst snd] in Hin.
        apply elem_of_app in Hin as [Hin|Hin].
        -- apply list_elem_of_singleton in Hin as ->.
           split; [apply list_elem_of_here|]. by exists parcel.
        -- destruct (storeEndpointBound env itemSerialized parcel);
             [|by apply not_elem_of_nil in Hin].
           by apply list_elem_of_singleton in Hin as ->.
      * by apply list_elem_of_singleton in Hin as ->.
    + destruct (fst (processParcel env parcel itemSerialized ownCertificates));
        [by apply Hrest|by apply not_elem_of_nil in Hin].
    + unfold processParcelCollectionAck in Hin.
      rewrite bind_effects in Hin. cbn [call perform fst snd] in Hin.
      apply elem_of_app in Hin as [Hin|Hin].
      * by apply list_elem_of_singleton in Hin as ->.
      * apply list_elem_of_singleton in Hin as ->.
        exists itemSerialized. split; [apply list_elem_of_here|done].
    + destruct (fst (processParcelCollectionAck env ack));
        [by apply Hrest|by apply not_elem_of_nil in Hin].
    + by apply list_elem_of_singleton in Hin as ->.
    + by apply Hrest.
Qed.

Lemma processCargoes_origin (ownCertificates ownCDACertificates : list Certificate)
    (cargoesSerialized : list Buffer) (e : Effect) :
  e ∈ snd (processCargoes env cargoesSerialized ownCertificates ownCDACertificates) →
  (∃ msg, e = Log Info msg)
  ∨ ∃ cargoSerialized cargo messages,
      cargoSerialized ∈ cargoesSerialized
      ∧ deserializeCargo env cargoSerialized = Some cargo
      ∧ validateCargo env cargo ownCDACertificates = true
      ∧ unwrapMessagePayload env cargo = Some messages
      ∧ e ∈ snd (processItems env messages ownCertificates).
Proof.
  induction cargoesSerialized as [|cargoSerialized rest IH];
    cbn [processCargoes].
  - intros Hin. by apply not_elem_of_nil in Hin.
  - assert (e ∈ snd (processCargoes env rest ownCertificates ownCDACertificates) →
            (∃ msg, e = Log Info msg)
            ∨ ∃ c cargo messages,
                c ∈ cargoSerialized :: rest
                ∧ deserializeCargo env c = Some cargo
                ∧ validateCargo env cargo ownCDACertificates = true
                ∧ unwrapMessagePayload env cargo = Some messages
                ∧ e ∈ snd (processItems env messages ownCertificates)) as Hrest.
    { intros Hin. destruct (IH Hin) as [Hlog|(c & cargo & messages & Hc & H)];
        [by left|].
      right. exists c, cargo, messages. split; [by apply list_elem_of_further|done]. }
    destruct (deserializeCargo env cargoSerialized) as [cargo|] eqn:Hcargo.
    2:{ rewrite bind_effects. intros Hin. apply elem_of_app in Hin as [Hin|Hin].
        - apply list_elem_of_singleton in Hin as ->. left. by eexists.
        - by apply Hrest. }
    destruct (validateCargo env cargo ownCDACertificates) eqn:Hvalid.
    2:{ rewrite bind_effects. intros Hin. apply elem_of_app in Hin as [Hin|Hin].
        - apply list_elem_of_singleton in Hin as ->. left. by eexists.
        - by apply Hrest. }
    destruct (unwrapMessagePayload env cargo) as [messages|] eqn:Hmessages.
    2:{ rewrite bind_effects. intros Hin. apply elem_of_app in Hin as [Hin|Hin].
        - apply list_elem_of_singleton in Hin as ->. left. by eexists.
        - by apply Hrest. }
    rewrite bind_effects. intros Hin. apply elem_of_app in Hin as [Hin|Hin].
    + right. exists cargoSerialized, cargo, messages.
      split; [apply list_elem_of_here|done].
    + destruct (fst (processItems env messages ownCertificates));
        [by apply Hrest|by apply not_elem_of_nil in Hin].
Qed.

Lemma elem_of_filterSelfIssuedCertificates (certificates : list Certificate)
    (certificate : Certificate) :
  certificate ∈ filterSelfIssuedCertificates certificates
  ↔ certificate ∈ certificates
    ∧ issuerPrivateAddress certificate = subjectPrivateAddress certificate.
Proof.
  unfold filterSelfIssuedCertificates.
  rewrite !list_elem_of_In, filter_In, String.eqb_eq. done.
Qed.

(** What the collection phase does after its stage notification, when the
    CCA is generated and the certificates of the node are fetched. *)
Lemma collectCargo_effects_eq (publicGateway : PublicGateway)
    (currentKey : option UnboundKeyPair) (ccaSerialized : Buffer)
    (ownCertificates : list Certificate) :
  fst (generateCCA env publicGateway currentKey) = Returned ccaSerialized →
  fetchNodeCertificates env = Returned ownCertificates →
  snd (collectCargo env publicGateway currentKey)
  = NotifyStage COLLECTION
    :: snd (generateCCA env publicGateway currentKey)
    ++ CollectCargo ccaSerialized
    :: snd (processCargoes env (fst (clientCollectCargo env ccaSerialized))
              ownCertificates (filterSelfIssuedCertificates ownCertificates))
  ∧ fst (collectCargo env publicGateway currentKey)
    = match fst (processCargoes env (fst (clientCollectCargo env ccaSerialized))
                   ownCertificates (filterSelfIssuedCertificates ownCertificates)) with
      | Returned _ =>
          match snd (clientCollectCargo env ccaSerialized) with
          | Some err => Thrown err
          | None => Returned tt
          end
      | Thrown err => Thrown err
      end.
Proof.
  intros Hcca Hown. unfold collectCargo, sendStageNotificationToParent.
  rewrite bind_effects, bind_outcome. cbn [perform fst snd app].
  rewrite bind_effects, bind_outcome, Hcca.
  destruct (clientCollectCargo env ccaSerialized) as [cargoesSerialized failure].
  rewrite bind_effects, bind_outcome. cbn [perform fst snd app].
  rewrite bind_effects, bind_outcome, Hown. cbn [await fst snd app].
  rewrite bind_effects, bind_outcome.
  destruct (processCargoes env cargoesSerialized ownCertificates _)
    as [[[]|err] out]; cbn [fst snd].
  - destruct failure; cbn [throw ret fst snd]; by rewrite app_nil_r.
  - by rewrite app_nil_r.
Qed.

(** X14. Nothing enters or leaves the parcel store during collection but
    what an authorised cargo carries. A parcel is stored only if it is an
    item of the payload of a cargo that the courier handed over for the CCA,
    that deserialises, and that validates against the self-issued
    certificates among those of the node; the item deserialises to a parcel
    that validates against the certificates of the node, and what is stored
    is the item as it was received. A parcel is deleted on an
    acknowledgement only if the acknowledgement is an item of such a
    cargo. The certificates that a cargo is validated against are the
    certificates of the node whose issuer is their subject. *)
Theorem collection_stores_only_authorised_items (publicGateway : PublicGateway)
    (currentKey : option UnboundKeyPair) (e : Effect) :
  e ∈ snd (collectCargo env publicGateway currentKey) →
  (∃ parcelSerialized, e = StoreEndpointBound parcelSerialized)
  ∨ (∃ ack, e = DeleteInternetBoundFromACK ack) →
  ∃ ccaSerialized ownCertificates cargoSerialized cargo messages itemSerialized,
    fst (generateCCA env publicGateway currentKey) = Returned ccaSerialized
    ∧ fetchNodeCertificates env = Returned ownCertificates
    ∧ cargoSerialized ∈ fst (clientCollectCargo env ccaSerialized)
    ∧ deserializeCargo env cargoSerialized = Some cargo
    ∧ validateCargo env cargo (filterSelfIssuedCertificates ownCertificates) = true
    ∧ (∀ certificate,
         certificate ∈ filterSelfIssuedCertificates ownCertificates
         ↔ certificate ∈ ownCertificates
           ∧ issuerPrivateAddress certificate = subjectPrivateAddress certificate)
    ∧ unwrapMessagePayload env cargo = Some messages
    ∧ itemSerialized ∈ messages
    ∧ match e with
      | StoreEndpointBound parcelSerialized =>
          parcelSerialized = itemSerialized
          ∧ ∃ parcel,
              deserializeItem env itemSerialized = Some (ParcelItem parcel)
              ∧ validateParcel env parcel ownCertificates = true
      | DeleteInternetBoundFromACK ack =>
          deserializeItem env itemSerialized = Some (ParcelCollectionAckItem ack)
      | _ => False
      end.
Proof.
  intros Hin Hkind.
  destruct (fst (generateCCA env publicGateway currentKey))
    as [ccaSerialized|err] eqn:Hcca.
  2:{ exfalso. revert Hin. unfold collectCargo, sendStageNotificationToParent.
      rewrite bind_effects. cbn [perform fst snd app].
      rewrite bind_effects, Hcca, app_nil_r. intros Hin.
      apply elem_of_cons in Hin as [->|Hin].
      - by destruct Hkind as [[b Hb]|[ack Hack]].
      - destruct (generateCCA_signs _ _ _ Hin) as [cca ->].
        by destruct Hkind as [[b Hb]|[ack Hack]]. }
  destruct (fetchNodeCertificates env) as [ownCertificates|err] eqn:Hown.
  2:{ exfalso. revert Hin. unfold collectCargo, sendStageNotificationToParent.
      rewrite bind_effects. cbn [perform fst snd app].
      rewrite bind_effects, Hcca.
      destruct (clientCollectCargo env ccaSerialized) as [cargoes failure].
      rewrite bind_effects. cbn [perform fst snd app].
      rewrite bind_effects, Hown. cbn [await fst snd app].
      intros Hin. apply elem_of_cons in Hin as [->|Hin];
        [by destruct Hkind as [[b Hb]|[ack Hack]]|].
      apply elem_of_app in Hin as [Hin|Hin].
      - destruct (generateCCA_signs _ _ _ Hin) as [cca ->].
        by destruct Hkind as [[b Hb]|[ack Hack]].
      - apply list_elem_of_singleton in Hin as ->.
        by destruct Hkind as [[b Hb]|[ack Hack]]. }
  destruct (collectCargo_effects_eq _ _ _ _ Hcca Hown) as [Heffects _].
  rewrite Heffects in Hin.
  apply elem_of_cons in Hin as [->|Hin];
    [by destruct Hkind as [[b Hb]|[ack Hack]]|].
  apply elem_of_app in Hin as [Hin|Hin].
  { destruct (generateCCA_signs _ _ _ Hin) as [cca ->].
    by destruct Hkind as [[b Hb]|[ack Hack]]. }
  apply elem_of_cons in Hin as [->|Hin];
    [by destruct Hkind as [[b Hb]|[ack Hack]]|].
  apply processCargoes_origin in Hin
    as [[msg ->]|(cargoSerialized & cargo & messages & Hc & Hcargo & Hvalid
                  & Hmessages & Hin)];
    [by destruct Hkind as [[b Hb]|[ack Hack]]|].
  apply processItems_origin in Hin.
  destruct Hkind as [[b ->]|[ack ->]].
  - destruct Hin as [Hb Hparcel].
    exists ccaSerialized, ownCertificates, cargoSerialized, cargo, messages, b.
    repeat (split; [done|]). split.
    { intros c. apply elem_of_filterSelfIssuedCertificates. }
    done.
  - destruct Hin as (item & Hitem & Hack).
    exists ccaSerialized, ownCertificates, cargoSerialized, cargo, messages, item.
    repeat (split; [done|]). split.
    { intros c. apply elem_of_filterSelfIssuedCertificates. }
    done.
Qed.

Lemma processItems_returns (ownCertificates : list Certificate)
    (messages : list Buffer) :
  (∀ parcelSerialized parcel,
     ∃ key, storeEndpointBound env parcelSerialized parcel = Returned key) →
  (∀ ack, deleteInternetBoundFromACK env ack = Returned tt) →
  fst (processItems env messages ownCertificates) = Returned tt.
Proof.
  intros Hstore Hdelete.
  induction messages as [|itemSerialized rest IH]; cbn [processItems]; [done|].
  destruct (deserializeItem env itemSerialized) as [[parcel|ack]|];
    rewrite bind_outcome.
  - unfold processParcel.
    destruct (validateParcel env parcel ownCertificates); [|done].
    rewrite bind_outcome. cbn [call fst].
    by destruct (Hstore itemSerialized parcel) as [key ->].
  - unfold processParcelCollectionAck. rewrite bind_outcome. cbn [perform call fst].
    by rewrite Hdelete.
  - done.
Qed.

Lemma processCargoes_returns (ownCertificates ownCDACertificates : list Certificate)
    (cargoesSerialized : list Buffer) :
  (∀ parcelSerialized parcel,
     ∃ key, storeEndpointBound env parcelSerialized parcel = Returned key) →
  (∀ ack, deleteInternetBoundFromACK env ack = Returned tt) →
  fst (processCargoes env cargoesSerialized ownCertificates ownCDACertificates)
  = Returned tt.
Proof.
  intros Hstore Hdelete.
  induction cargoesSerialized as [|cargoSerialized rest IH];
    cbn [processCargoes]; [done|].
  destruct (deserializeCargo env cargoSerialized) as [cargo|];
    [|by rewrite bind_outcome].
  destruct (validateCargo env cargo ownCDACertificates);
    [|by rewrite bind_outcome].
  destruct (unwrapMessagePayload env cargo) as [messages|];
    [|by rewrite bind_outcome].
  rewrite bind_outcome. by rewrite processItems_returns.
Qed.

(** X15. A cargo that is malformed, comes from an unauthorised sender or
    has an invalid payload, and an item that is malformed or is an invalid
    parcel, never fail the collection. Once the CCA is generated and the
    certificates of the node are fetched, and as long as the parcel store
    does what it is asked, the collection phase fails exactly when the
    stream of cargoes of the courier does, with its error, after everything
    that the stream had yielded has been processed. The courier is asked for
    cargo once, with the CCA generated. *)
Theorem collection_survives_bad_cargo (publicGateway : PublicGateway)
    (currentKey : option UnboundKeyPair) (ccaSerialized : Buffer)
    (ownCertificates : list Certificate) :
  fst (generateCCA env publicGateway currentKey) = Returned ccaSerialized →
  fetchNodeCertificates env = Returned ownCertificates →
  (∀ parcelSerialized parcel,
     ∃ key, storeEndpointBound env parcelSerialized parcel = Returned key) →
  (∀ ack, deleteInternetBoundFromACK env ack = Returned tt) →
  let effects := snd (collectCargo env publicGateway currentKey) in
  fst (collectCargo env publicGateway currentKey)
  = match snd (clientCollectCargo env ccaSerialized) with
    | Some err => Thrown err
    | None => Returned tt
    end
  ∧ effects
    = NotifyStage COLLECTION
      :: snd (generateCCA env publicGateway currentKey)
      ++ CollectCargo ccaSerialized
      :: snd (processCargoes env (fst (clientCollectCargo env ccaSerialized))
                ownCertificates (filterSelfIssuedCertificates ownCertificates))
  ∧ ∀ requested, CollectCargo requested ∈ effects → requested = ccaSerialized.
Proof.
  intros Hcca Hown Hstore Hdelete effects. subst effects.
  destruct (collectCargo_effects_eq _ _ _ _ Hcca Hown) as [-> ->].
  rewrite processCargoes_returns by done.
  split; [done|]. split; [done|].
  intros requested Hin.
  apply elem_of_cons in Hin as [Hin|Hin]; [discriminate Hin|].
  apply elem_of_app in Hin as [Hin|Hin].
  { by destruct (generateCCA_signs _ _ _ Hin) as [cca Heq]. }
  apply elem_of_cons in Hin as [Hin|Hin]; [congruence|].
  apply processCargoes_origin in Hin
    as [[msg Hmsg]|(c & cargo & messages & _ & _ & _ & _ & Hin)];
    [discriminate Hmsg|].
  by apply processItems_origin in Hin.
Qed.

(** *** The delivery phase *)

Lemma wrapCargoes_cargo (cargoes : list Buffer) (n : nat) :
  map cargo (wrapCargoes env n cargoes) = cargoes.
Proof.
  revert n. induction cargoes as [|c rest IH]; intros n; [done|].
  simpl. by rewrite IH.
Qed.

Lemma wrapCargoes_localId (cargoes : list Buffer) (n : nat) :
  map localId (wrapCargoes env n cargoes)
  = map (uuid env) (seq n (length cargoes)).
Proof.
  revert n. induction cargoes as [|c rest IH]; intros n; [done|].
  simpl. by rewrite IH.
Qed.

(** X16. Every cargo goes to the courier under a local id of its own. With
    a current key, the delivery requests are the cargoes generated from the
    cargo message stream for the public gateway, in order, one request per
    cargo, the request of the [i]-th cargo having the id that the [i]-th call
    of [uuid] returned; so the ids differ when the ids that [uuid] returned
    do. The delivery stream fails when the generation of cargoes does. The
    phase notifies its stage and hands the requests to the courier once,
    which is all it does but for its debug lines, and it fails exactly when
    the stream of acknowledgements does. *)
Theorem cargoes_are_delivered_under_their_own_ids (publicGateway : PublicGateway)
    (key : UnboundKeyPair) :
  let cargoStream :=
    generateCargoes env (makeCargoMessageStream env)
      (identityCertificate publicGateway) (privateKey key) (certificate key)
      ("https://" ++ publicAddress publicGateway)%string in
  let cargoDeliveryStream :=
    makeCargoDeliveryStream env publicGateway (Some key) in
  let ackIds := clientDeliverCargo env cargoDeliveryStream in
  NoDup (map (uuid env) (seq 0 (length (fst cargoStream)))) →
  map cargo (fst cargoDeliveryStream) = fst cargoStream
  ∧ map localId (fst cargoDeliveryStream)
    = map (uuid env) (seq 0 (length (fst cargoStream)))
  ∧ NoDup (map localId (fst cargoDeliveryStream))
  ∧ snd cargoDeliveryStream = snd cargoStream
  ∧ snd (deliverCargo env publicGateway (Some key))
    = [NotifyStage DELIVERY; DeliverCargo (fst cargoDeliveryStream)]
  ∧ fst (deliverCargo env publicGateway (Some key))
    = match snd ackIds with
      | Some err => Thrown err
      | None => Returned tt
      end.
Proof.
  intros cargoStream cargoDeliveryStream ackIds Hids.
  assert (cargoDeliveryStream
          = (wrapCargoes env 0 (fst cargoStream), snd cargoStream)) as Hstream.
  { subst cargoDeliveryStream cargoStream. unfold makeCargoDeliveryStream.
    by destruct (generateCargoes env _ _ _ _ _). }
  split; [by rewrite Hstream; cbn [fst]; rewrite wrapCargoes_cargo|].
  split; [by rewrite Hstream; cbn [fst]; rewrite wrapCargoes_localId|].
  split; [by rewrite Hstream; cbn [fst]; rewrite wrapCargoes_localId|].
  split; [by rewrite Hstream|].
  unfold deliverCargo, sendStageNotificationToParent.
  fold cargoDeliveryStream. fold ackIds.
  destruct ackIds as [acks failure]. cbn [fst snd].
  rewrite !bind_effects, !bind_outcome. cbn [perform fst snd app].
  by destruct failure.
Qed.

Lemma retrieveInternetBound_failure (listing : list ParcelWithExpiryDate) :
  snd (retrieveInternetBound env listing) = None
  ↔ ∀ parcel, parcel ∈ listing →
      ∃ parcelSerialized, retrieve env (parcelKey parcel) = Returned parcelSerialized.
Proof.
  induction listing as [|parcel rest IH]; simpl.
  - split; [|done]. intros _ parcel Hin. by apply not_elem_of_nil in Hin.
  - destruct (retrieve env (parcelKey parcel)) as [[blob|]|err] eqn:Hretrieve.
    + destruct (retrieveInternetBound env rest) as [yielded failure].
      cbn [snd] in *. rewrite IH. split.
      * intros Hall p Hin. apply elem_of_cons in Hin as [->|Hin]; [by eexists|].
        by apply Hall.
      * intros Hall p Hin. apply Hall. by apply list_elem_of_further.
    + rewrite IH. split.
      * intros Hall p Hin. apply elem_of_cons in Hin as [->|Hin]; [by eexists|].
        by apply Hall.
      * intros Hall p Hin. apply Hall. by apply list_elem_of_further.
    + split; [done|]. intros Hall.
      destruct (Hall parcel) as [blob Hblob]; [apply list_elem_of_here|].
      congruence.
Qed.

(** X17. The cargo message stream ends without an error exactly when the
    collections table can be read, the listing of the Internet-bound parcels
    ends without an error, and the retrieval of every listed parcel returns,
    be it a parcel or [null]. When the table cannot be read, the stream
    fails with that error before it has yielded anything. *)
Theorem cargo_message_stream_failure :
  (snd (makeCargoMessageStream env) = None
   ↔ (∃ pendingACKs, collectionRepoFind env = Returned pendingACKs)
     ∧ snd (listInternetBound env) = None
     ∧ ∀ parcel, parcel ∈ fst (listInternetBound env) →
         ∃ parcelSerialized,
           retrieve env (parcelKey parcel) = Returned parcelSerialized)
  ∧ (∀ err, collectionRepoFind env = Thrown err →
       makeCargoMessageStream env = ([], Some err)).
Proof.
  unfold makeCargoMessageStream.
  destruct (collectionRepoFind env) as [pendingACKs|err].
  2:{ split; [|by intros ? [= ->]]. split; [done|]. by intros [[? ?] _]. }
  split; [|done].
  destruct (listInternetBound env) as [listing listingFailure].
  pose proof (retrieveInternetBound_failure listing) as Hfailure.
  destruct (retrieveInternetBound env listing) as [parcels failure].
  cbn [fst snd] in *. split.
  - intros Hnone. split; [by eexists|].
    destruct failure; [done|]. split; [done|]. by apply Hfailure.
  - intros (_ & -> & Hall). apply Hfailure in Hall. by rewrite Hall.
Qed.

End SubprocessFacts.

Section SubprocessSamples.

Import CourierSync.

Lemma stages_follow_the_phases_witness :
  fst (runCourierSync Samples.reachableCourier) = Returned OK
  ∧ stagesNotified (snd (runCourierSync Samples.reachableCourier))
    = [COLLECTION; WAIT; DELIVERY].
Proof.
  split; [reflexivity|].
  apply (stages_follow_the_phases Samples.reachableCourier). reflexivity.
Defined.

Lemma run_rejects_only_on_failed_lookups_witness :
  fst (runCourierSync Samples.lockedKeyStore) = Thrown "SQLITE_BUSY"
  ∧ snd (runCourierSync Samples.lockedKeyStore) = [].
Proof.
  assert (fst (runCourierSync Samples.lockedKeyStore) = Thrown "SQLITE_BUSY")
    as Hrejected.
  { apply (run_rejects_only_on_failed_lookups Samples.lockedKeyStore).
    right. exists Samples.publicGateway, "192.168.43.1".
    repeat split; reflexivity. }
  split; [exact Hrejected|].
  exact (proj2 (run_rejects_only_on_failed_lookups Samples.lockedKeyStore
                  "SQLITE_BUSY") Hrejected).
Defined.

Lemma failures_are_logged_as_fatal_witness :
  fatalLogs (snd (runCourierSync Samples.reachableCourier)) = []
  ∧ last (snd (runCourierSync Samples.reachableCourier))
    = Some (Log Info "Sync completed successfully").
Proof.
  apply (failures_are_logged_as_fatal Samples.reachableCourier OK). reflexivity.
Defined.

Lemma keyless_gateway_fails_in_collection_witness :
  runCourierSync Samples.keylessGateway
  = (Returned FAILED_SYNC,
     [ClientInit (courierUrl "192.168.43.1");
      NotifyStage COLLECTION;
      Log Fatal "Sync failed";
      ClientClose]).
Proof.
  apply (keyless_gateway_fails_in_collection Samples.keylessGateway
           Samples.publicGateway "192.168.43.1"
           {| serverUrl := courierUrl "192.168.43.1" |});
    reflexivity.
Defined.

Lemma cca_contents_witness :
  let cca :=
    {| ccaRecipientAddress := "https://frankfurt.relaycorp.cloud";
       ccaSenderCertificate := Samples.gatewayCertificate;
       ccaPayloadSerialized := [Byte.x03];
       creationDate := 1599994600000;
       ttl := 1215000 |} in
  ∃ key ccaIssuer publicKey cargoDeliveryAuthorization ccrSerialized,
    Some Samples.currentKey = Some key
    ∧ getOrCreateCCAIssuer Samples.reachableCourier = Returned ccaIssuer
    ∧ getPublicKey Samples.reachableCourier
        (identityCertificate Samples.publicGateway)
      = Returned publicKey
    ∧ issueGatewayCertificate Samples.reachableCourier
        {| issuerCertificate := ccaIssuer;
           issuerPrivateKey := privateKey key;
           subjectPublicKey := publicKey;
           validityEndDate := ccaExpiryDate cca |}
      = Returned cargoDeliveryAuthorization
    ∧ serializeCCR Samples.reachableCourier cargoDeliveryAuthorization
      = Returned ccrSerialized
    ∧ encrypt Samples.reachableCourier ccrSerialized
        (identityCertificate Samples.publicGateway)
      = Returned (ccaPayloadSerialized cca)
    ∧ ccaRecipientAddress cca
      = ("https://" ++ publicAddress Samples.publicGateway)%string
    ∧ ccaSenderCertificate cca = certificate key
    ∧ generateCCA Samples.reachableCourier Samples.publicGateway
        (Some Samples.currentKey)
      = (serializeCCA Samples.reachableCourier cca (privateKey key),
         [SignCCA cca]).
Proof.
  intros cca.
  apply (cca_contents Samples.reachableCourier Samples.publicGateway
           (Some Samples.currentKey) cca).
  apply list_elem_of_In. vm_compute. tauto.
Defined.

Lemma collection_stores_only_authorised_items_witness :
  let env := Samples.loadedCourier in
  ∃ ccaSerialized ownCertificates cargoSerialized cargo messages itemSerialized,
    fst (generateCCA env Samples.publicGateway (Some Samples.currentKey))
    = Returned ccaSerialized
    ∧ fetchNodeCertificates env = Returned ownCertificates
    ∧ cargoSerialized ∈ fst (clientCollectCargo env ccaSerialized)
    ∧ deserializeCargo env cargoSerialized = Some cargo
    ∧ validateCargo env cargo (filterSelfIssuedCertificates ownCertificates)
      = true
    ∧ (∀ certificate,
         certificate ∈ filterSelfIssuedCertificates ownCertificates
         ↔ certificate ∈ ownCertificates
           ∧ issuerPrivateAddress certificate = subjectPrivateAddress certificate)
    ∧ unwrapMessagePayload env cargo = Some messages
    ∧ itemSerialized ∈ messages
    ∧ [Byte.x20] = itemSerialized
    ∧ ∃ parcel,
        deserializeItem env itemSerialized = Some (ParcelItem parcel)
        ∧ validateParcel env parcel ownCertificates = true.
Proof.
  intros env.
  apply (collection_stores_only_authorised_items Samples.loadedCourier
           Samples.publicGateway (Some Samples.currentKey)
           (StoreEndpointBound [Byte.x20])).
  - apply list_elem_of_In. vm_compute. tauto.
  - left. exists [Byte.x20]. reflexivity.
Defined.

Lemma collection_survives_bad_cargo_witness :
  let env := Samples.loadedCourier in
  fst (collectCargo env Samples.publicGateway (Some Samples.currentKey))
  = Returned tt
  ∧ snd (collectCargo env Samples.publicGateway (Some Samples.currentKey))
    = NotifyStage COLLECTION
      :: snd (generateCCA env Samples.publicGateway (Some Samples.currentKey))
      ++ CollectCargo [Byte.x04]
      :: snd (processCargoes env (fst (clientCollectCargo env [Byte.x04]))
                [Samples.gatewayCertificate; Samples.endpointCertificate Byte.x61]
                (filterSelfIssuedCertificates
                   [Samples.gatewayCertificate;
                    Samples.endpointCertificate Byte.x61]))
  ∧ ∀ requested,
      CollectCargo requested
      ∈ snd (collectCargo env Samples.publicGateway (Some Samples.currentKey)) →
      requested = [Byte.x04].
Proof.
  intros env.
  apply (collection_survives_bad_cargo Samples.loadedCourier
           Samples.publicGateway (Some Samples.currentKey) [Byte.x04]
           [Samples.gatewayCertificate; Samples.endpointCertificate Byte.x61]).
  - reflexivity.
  - reflexivity.
  - intros parcelSerialized parcel. exists "key". reflexivity.
  - intros ack. reflexivity.
Defined.

Lemma cargoes_are_delivered_under_their_own_ids_witness :
  (let env := Samples.loadedCourier in
   let cargoDeliveryStream :=
     makeCargoDeliveryStream env Samples.publicGateway
       (Some Samples.currentKey) in
   map cargo (fst cargoDeliveryStream) = [[Byte.x07]; [Byte.x08]]
   ∧ map localId (fst cargoDeliveryStream) = ["a"; "b"]
   ∧ NoDup (map localId (fst cargoDeliveryStream))
   ∧ snd cargoDeliveryStream = None
   ∧ snd (deliverCargo env Samples.publicGateway (Some Samples.currentKey))
     = [NotifyStage DELIVERY; DeliverCargo (fst cargoDeliveryStream)]
   ∧ fst (deliverCargo env Samples.publicGateway (Some Samples.currentKey))
     = Returned tt)
  ∧ (let env := Samples.reachableCourier in
     map message (fst (makeCargoMessageStream env)) = [[Byte.x05]; [Byte.x06]]
     ∧ snd (deliverCargo env Samples.publicGateway (Some Samples.currentKey))
       = [NotifyStage DELIVERY;
          DeliverCargo [ {| cargo := [Byte.x07]; localId := "local-id" |} ]]).
Proof.
  split.
  - intros env.
    apply (cargoes_are_delivered_under_their_own_ids Samples.loadedCourier
             Samples.publicGateway Samples.currentKey).
    apply (bool_decide_unpack _). vm_compute. exact I.
  - intros env. split; [reflexivity|].
    refine (proj1 (proj2 (proj2 (proj2 (proj2
              (cargoes_are_delivered_under_their_own_ids
                 Samples.reachableCourier Samples.publicGateway
                 Samples.currentKey _)))))).
    apply (bool_decide_unpack _). vm_compute. exact I.
Defined.

Lemma cargo_message_stream_failure_witness :
  snd (makeCargoMessageStream Samples.reachableCourier) = None.
Proof.
  apply (cargo_message_stream_failure Samples.reachableCourier).
  split; [by eexists|]. split; [reflexivity|].
  intros parcel Hin. apply list_elem_of_In in Hin. simpl in Hin.
  destruct Hin as [<-|[<-|[]]]; eexists; reflexivity.
Defined.

End SubprocessSamples.

(** ** The configuration store *)

Section ConfigFacts.

Import Config.

Lemma configKeyName_inj (key1 key2 : ConfigKey) :
  configKeyName key1 = configKeyName key2 → key1 = key2.
Proof. by destruct key1, key2. Qed.

(** X18. The configuration store keeps one value per key: [get] returns
    what the last [set] of the key stored, whatever was stored under it
    before, and a [set] of one key changes the value of no other key, so
    that two [set]s of different keys can be done in either order. *)
Theorem set_then_get (key other : ConfigKey) (value previous otherValue : string)
    (configRepository : gmap string string) :
  other ≠ key →
  get key (set key value configRepository) = Some value
  ∧ get key (set key value (set key previous configRepository)) = Some value
  ∧ get other (set key value configRepository) = get other configRepository
  ∧ set other otherValue (set key value configRepository)
    = set key value (set other otherValue configRepository).
Proof.
  intros Hother.
  assert (configKeyName key ≠ configKeyName other) as Hnames.
  { intros Heq. apply Hother. symmetry. by apply configKeyName_inj. }
  unfold get, set. split; [apply lookup_insert_eq|].
  split; [apply lookup_insert_eq|].
  split; [by apply lookup_insert_ne|].
  by apply insert_insert_ne.
Qed.

Lemma set_then_get_witness :
  let configRepository : gmap string string :=
    {[ "public_gateway_address" := "frankfurt.relaycorp.cloud" ]} in
  get PUBLIC_GATEWAY_ADDRESS
    (set PUBLIC_GATEWAY_ADDRESS "london.relaycorp.cloud" configRepository)
  = Some "london.relaycorp.cloud"
  ∧ get NODE_KEY_SERIAL_NUMBER
      (set PUBLIC_GATEWAY_ADDRESS "london.relaycorp.cloud" configRepository)
    = None.
Proof.
  intros configRepository.
  destruct (set_then_get PUBLIC_GATEWAY_ADDRESS NODE_KEY_SERIAL_NUMBER
              "london.relaycorp.cloud" "" "" configRepository)
    as (Hget & _ & Hother & _); [discriminate|].
  split; [exact Hget|]. rewrite Hother. reflexivity.
Defined.

End ConfigFacts.

(** ** The abortable status stream of the user interface *)

Section UiSyncAbortFacts.

Import UiSync.

(** X19. What a consumer of [synchronizeWithCourier] can receive. The
    statuses received are always the first ones of [COLLECTING_CARGO],
    [WAITING], [DELIVERING_CARGO], [COMPLETE], in that order; the consumer
    receives all four exactly when the token is not empty and it does not
    abort before the fourth; an abort after [n] statuses, with [n] at most
    four and a token, leaves it with the first [n] and ends the iteration
    without an error; and the iteration is rejected only for the empty
    token, before any status. *)
Theorem statuses_are_a_prefix (stageSource : list string) (token : string)
    (abortAfter : option nat) :
  let all := [COLLECTING_CARGO; WAITING; DELIVERING_CARGO; COMPLETE] in
  let statuses := fst (synchronizeWithCourier stageSource token abortAfter) in
  let completion := snd (synchronizeWithCourier stageSource token abortAfter) in
  statuses `prefix_of` all
  ∧ (statuses = all
     ↔ token ≠ "" ∧ ∀ n, abortAfter = Some n → (4 ≤ n)%nat)
  ∧ (∀ n, token ≠ "" → abortAfter = Some n → (n ≤ 4)%nat →
       statuses = take n all ∧ completion = Done)
  ∧ (completion = Rejected CourierSyncError → token = "" ∧ statuses = []).
Proof.
  intros all statuses completion. subst all statuses completion.
  unfold synchronizeWithCourier, _synchronizeWithCourier.
  destruct (String.eqb_spec token "") as [->|Htoken]; cbn [statusesOf length].
  - assert (∀ o : option nat,
              fst (match o with
                   | Some n =>
                       if Nat.leb n 0
                       then (take n ([] : list CourierSyncStatus), Done)
                       else ([], Rejected CourierSyncError)
                   | None => ([], Rejected CourierSyncError)
                   end) = []) as Hnone.
    { intros [n|]; [|done]. destruct (Nat.leb n 0); [|done]. by destruct n. }
    rewrite Hnone. split; [apply prefix_nil|]. split; [|split; [done|done]].
    split; [discriminate|]. by intros [? _].
  - destruct abortAfter as [n|]; cbn [fst snd].
    + destruct (Nat.leb_spec n 4) as [Hle|Hgt]; cbn [fst snd].
      * split; [apply prefix_take|]. split; [|split; [|done]].
        -- split.
           ++ intros Htake. split; [done|]. intros m [= <-].
              apply (f_equal length) in Htake.
              rewrite length_take in Htake. simpl in Htake. lia.
           ++ intros [_ Hall]. specialize (Hall n eq_refl).
              assert (n = 4%nat) as -> by lia. done.
        -- by intros m _ [= <-] _.
      * split; [done|]. split; [|split; [|done]].
        -- split; [|done]. intros _. split; [done|]. intros m [= <-]. lia.
        -- intros m _ [= <-] Hm. lia.
    + split; [done|]. split; [|split; [done|done]].
      split; [|done]. intros _. split; [done|]. discriminate.
Qed.

Lemma statuses_are_a_prefix_witness :
  fst (synchronizeWithCourier ["COLLECTION"] "TOKEN" (Some 2%nat))
  = [COLLECTING_CARGO; WAITING]
  ∧ snd (synchronizeWithCourier ["COLLECTION"] "TOKEN" (Some 2%nat)) = Done.
Proof.
  destruct (statuses_are_a_prefix ["COLLECTION"] "TOKEN" (Some 2%nat))
    as (_ & _ & Haborted & _).
  apply (Haborted 2%nat); [discriminate|reflexivity|lia].
Defined.

End UiSyncAbortFacts.

(** ** The courier-sync manager *)

Section ManagerFacts.

Import CourierSync CourierSyncManager.

Lemma stageOfName_stageName (stage : CourierSyncStage) :
  stageOfName (stageName stage) = Some stage.
Proof. by destruct stage. Qed.

Lemma stagesOf_notifications (stages : list CourierSyncStage) :
  stagesOf (map stageNotification stages) = stages.
Proof.
  induction stages as [|stage rest IH]; [done|].
  cbn [map stagesOf stageNotification type CourierSyncManager.stage].
  rewrite stageOfName_stageName. cbn [String.eqb Ascii.eqb Bool.eqb negb].
  by rewrite IH.
Qed.

(** X20. The manager reads back what the subprocess writes. The stages
    that [sync] yields for the notifications that
    [sendStageNotificationToParent] writes are the stages notified, in
    order; among other messages, as long as every message of type [stage] is
    such a notification, the stages yielded are those of the messages of
    type [stage], none lost, none added and in order, and a message of
    another type yields nothing. [sync] fails exactly when the stream of the
    subprocess does, with [UnregisteredGatewayError] exactly when the error
    has the exit code 1; so the exit code of an unregistered gateway gives
    that error, and the exit code of a failed sync a
    [DisconnectedFromCourierError]. *)
Theorem sync_reads_back_the_notifications (messages : list IPCMessage)
    (failure : option SubprocessError) :
  (∀ message, message ∈ messages → type message = "stage" →
     ∃ stage, message = stageNotification stage) →
  (∀ stages, fst (sync (map stageNotification stages, failure)) = stages)
  ∧ map stageNotification (fst (sync (messages, failure)))
    = List.filter (λ message, String.eqb (type message) "stage") messages
  ∧ (snd (sync (messages, failure)) = None ↔ failure = None)
  ∧ (snd (sync (messages, failure))
     = Some (UnregisteredGatewayError "Private gateway is unregistered")
     ↔ ∃ err, failure = Some err ∧ exitCode err = Some 1%Z)
  ∧ (∀ code,
       snd (sync (messages, Some {| exitCode := Some (exitCodeNumber code) |}))
       = match code with
         | UNREGISTERED_GATEWAY =>
             Some (UnregisteredGatewayError "Private gateway is unregistered")
         | _ => Some (DisconnectedFromCourierError "Courier sync failed")
         end).
Proof.
  intros Hwritten. unfold sync, wrapSubprocessErrors. cbn [fst snd].
  split; [intros stages; apply stagesOf_notifications|]. split; [|split; [|split]].
  - induction messages as [|message rest IH]; [done|].
    cbn [stagesOf List.filter].
    destruct (String.eqb_spec (type message) "stage") as [Htype|Htype];
      cbn [negb].
    + destruct (Hwritten message) as [stage ->]; [apply list_elem_of_here|done|].
      cbn [CourierSyncManager.stage stageNotification].
      rewrite stageOfName_stageName. cbn [map]. f_equal.
      apply IH. intros m Hm. apply Hwritten. by apply list_elem_of_further.
    + apply IH. intros m Hm. apply Hwritten. by apply list_elem_of_further.
  - by destruct failure.
  - destruct failure as [[[[|[p|p|]|p]|]]|]; cbn [exitCode]; split;
      try discriminate; try done;
      try (intros (err & [= <-] & Hcode); cbn in Hcode; discriminate Hcode);
      try (by intros (err & [=] & _)).
    intros _. by eexists.
  - by intros [].
Qed.

(** The loop of [streamStatus], from a last status on: the last status and
    the yields together change at each step, and end as the last status and
    the statuses polled do. *)
Lemma streamStatusFrom_changes (polls : list Network)
    (lastStatus : option CourierConnectionStatus) :
  let before := option_list lastStatus in
  let yields := streamStatusFrom lastStatus polls in
  (∀ i a b, (before ++ yields) !! i = Some a →
     (before ++ yields) !! S i = Some b → a ≠ b)
  ∧ last (before ++ yields)
    = last (before ++ map getCourierConnectionStatus polls)
  ∧ (∀ status, status ∈ yields →
       status ∈ map getCourierConnectionStatus polls)
  ∧ (∀ status, status ∈ map getCourierConnectionStatus polls →
       status ∈ before ++ yields)
  ∧ (length yields ≤ length polls)%nat.
Proof.
  revert lastStatus. induction polls as [|network rest IH]; intros lastStatus;
    cbv zeta; unfold option_list.
  - cbn [streamStatusFrom map]. rewrite !app_nil_r.
    split; [|split; [done|split; [done|split; [|done]]]].
    + destruct lastStatus; intros [|i] a b; simpl; try done.
    + intros status Hin. by apply not_elem_of_nil in Hin.
  - cbn [streamStatusFrom map]. cbv zeta.
    set (newStatus := getCourierConnectionStatus network). clearbody newStatus.
    destruct (differs newStatus lastStatus) eqn:Hdiffers.
    + destruct (IH (Some newStatus)) as (Hadj & Hlast & Hin & Hall & Hlen).
      unfold option_list in Hadj, Hlast, Hall.
      cbn [option_rect app] in Hadj, Hlast, Hall.
      split; [|split; [|split; [|split]]].
      * destruct lastStatus as [previous|]; cbn [option_rect app]; [|done].
        intros [|i] a b; cbn [lookup list_lookup].
        -- intros [= <-] [= <-] Hsame. rewrite Hsame in Hdiffers.
           by destruct newStatus.
        -- apply Hadj.
      * rewrite !last_app_cons. exact Hlast.
      * intros status Hstatus. apply elem_of_cons in Hstatus as [->|Hstatus].
        -- apply list_elem_of_here.
        -- apply list_elem_of_further. by apply Hin.
      * intros status Hstatus. apply elem_of_app. right.
        apply elem_of_cons in Hstatus as [->|Hstatus]; [apply list_elem_of_here|].
        by apply Hall.
      * simpl. lia.
    + destruct lastStatus as [previous|]; [|by destruct newStatus].
      assert (newStatus = previous) as Hsame
        by (by destruct newStatus, previous).
      destruct (IH (Some previous)) as (Hadj & Hlast & Hin & Hall & Hlen).
      unfold option_list in Hadj, Hlast, Hall.
      cbn [option_rect app] in *.
      split; [done|]. split; [|split; [|split]].
      * rewrite Hlast, Hsame. by rewrite !last_cons_cons.
      * intros status Hstatus. apply list_elem_of_further. by apply Hin.
      * intros status Hstatus.
        apply elem_of_cons in Hstatus as [->|Hstatus]; [|by apply Hall].
        rewrite Hsame. apply list_elem_of_here.
      * cbn [length]. lia.
Qed.

(** X21. [streamStatus] reports the changes of the connection status and
    nothing else. While the manager polls, what it yields starts with the
    first status polled and ends with the last one polled; no two
    consecutive yields are the same, so that [CONNECTED] and [DISCONNECTED]
    alternate; a status is yielded exactly if it was polled; and a poll
    yields at most once. The status polled is [CONNECTED] exactly when the
    default gateway is found and the courier port answers on it within
    three seconds, tried every half second. *)
Theorem streamStatus_yields_the_changes (polls : list Network) :
  let statuses := map getCourierConnectionStatus polls in
  let yields := streamStatus polls in
  head yields = head statuses
  ∧ last yields = last statuses
  ∧ (∀ i a b, yields !! i = Some a → yields !! S i = Some b → a ≠ b)
  ∧ (∀ status, status ∈ yields ↔ status ∈ statuses)
  ∧ (length yields ≤ length polls)%nat
  ∧ (∀ network,
       getCourierConnectionStatus network = CONNECTED
       ↔ ∃ gatewayIPAddress,
           getDefaultGateway network = Returned gatewayIPAddress
           ∧ COURIER_CHECK_RETRY_MS = 500%Z
           ∧ COURIER_CHECK_TIMEOUT_MS = 3000%Z
           ∧ waitUntilUsedOnHost network COURIER_PORT gatewayIPAddress
               COURIER_CHECK_RETRY_MS COURIER_CHECK_TIMEOUT_MS
             = Returned tt).
Proof.
  intros statuses yields. subst statuses yields. unfold streamStatus.
  destruct (streamStatusFrom_changes polls None)
    as (Hadj & Hlast & Hin & Hall & Hlen).
  unfold option_list in Hadj, Hlast, Hall. cbn [option_rect app] in *.
  split; [by destruct polls|].
  split; [done|]. split; [done|]. split; [by split; auto|]. split; [done|].
  intros network.
  unfold getCourierConnectionStatus, getDefaultGatewayIPAddress.
  destruct (getDefaultGateway network) as [ip|err].
  - destruct (waitUntilUsedOnHost network COURIER_PORT ip COURIER_CHECK_RETRY_MS
                COURIER_CHECK_TIMEOUT_MS) as [[]|err] eqn:Hport.
    + split; [|done]. intros _. exists ip. by repeat split.
    + split; [done|]. intros (ip' & [= <-] & _ & _ & Hip). congruence.
  - split; [done|]. by intros (ip & [=] & _).
Qed.

End ManagerFacts.

Section ManagerSamples.

Import CourierSync CourierSyncManager.

Lemma sync_reads_back_the_notifications_witness :
  let messages :=
    [stageNotification COLLECTION;
     {| type := "log"; stage := None |};
     stageNotification WAIT] in
  fst (sync (messages, Some {| exitCode := Some 2%Z |})) = [COLLECTION; WAIT]
  ∧ snd (sync (messages, Some {| exitCode := Some 2%Z |}))
    = Some (DisconnectedFromCourierError "Courier sync failed").
Proof.
  intros messages.
  destruct (sync_reads_back_the_notifications messages
              (Some {| exitCode := Some 2%Z |}))
    as (_ & Hstages & _ & _ & Hcodes).
  - intros message Hin Htype. apply list_elem_of_In in Hin. simpl in Hin.
    destruct Hin as [<-|[<-|[<-|[]]]].
    + exists COLLECTION. reflexivity.
    + discriminate Htype.
    + exists WAIT. reflexivity.
  - split; [reflexivity|]. exact (Hcodes FAILED_SYNC).
Defined.

Lemma streamStatus_yields_the_changes_witness :
  let polls := [Samples.courierNetwork; Samples.courierNetwork; Samples.noNetwork] in
  streamStatus polls = [CONNECTED; DISCONNECTED]
  ∧ DISCONNECTED ∈ streamStatus polls.
Proof.
  intros polls. split; [reflexivity|].
  destruct (streamStatus_yields_the_changes polls)
    as (_ & _ & _ & Hpolled & _).
  apply Hpolled. apply list_elem_of_In. vm_compute. tauto.
Defined.

End ManagerSamples.

(** ** The settings page *)

Section SettingsFacts.

Import Settings.

Lemma run_snoc (events : list Event) (e : Event) :
  run (events ++ [e]) = step (run events) e.
Proof. unfold run. by rewrite fold_left_app. Qed.

(** X22. What the settings page remembers. The error flag of the gateway
    editor is set exactly when some migration has failed with a
    [SettingError], and is never cleared afterwards; the page is in its
    initial status, showing the gateway, exactly as long as nothing has
    happened but the resolution of the address and migrations that failed
    with another error, so that it never returns to it; and it shows the
    page of a completed migration only if a migration has succeeded. A
    migration that fails with another error than [SettingError] changes
    nothing. *)
Theorem settings_status_and_error (events : list Event) :
  let state := run events in
  (gatewayError state = true
   ↔ ∃ newAddress, MigrationSettled newAddress SettingError ∈ events)
  ∧ (status state = DISPLAY ↔ Forall (λ e, keepsStatus e = true) events)
  ∧ (status state = DONE →
     ∃ newAddress, MigrationSettled newAddress Migrated ∈ events)
  ∧ (∀ newAddress,
       run (events ++ [MigrationSettled newAddress OtherError]) = state).
Proof.
  cbv zeta. induction events as [|e events IH] using rev_ind.
  - split; [|split; [|split]]; try done.
    split; [done|]. intros [a Hin]. by apply not_elem_of_nil in Hin.
  - destruct IH as (Herror & Hdisplay & Hdone & _).
    rewrite run_snoc. split; [|split; [|split]].
    + destruct e as [g| |a [| |]]; simpl; rewrite ?Herror.
      * split; intros [a Hin]; exists a.
        -- apply elem_of_app. by left.
        -- apply elem_of_app in Hin as [Hin|Hin]; [done|].
           apply list_elem_of_singleton in Hin. discriminate Hin.
      * split; intros [a Hin]; exists a.
        -- apply elem_of_app. by left.
        -- apply elem_of_app in Hin as [Hin|Hin]; [done|].
           apply list_elem_of_singleton in Hin. discriminate Hin.
      * split; intros [a' Hin]; exists a'.
        -- apply elem_of_app. by left.
        -- apply elem_of_app in Hin as [Hin|Hin]; [done|].
           apply list_elem_of_singleton in Hin. discriminate Hin.
      * split; [|done]. intros _. exists a. apply elem_of_app. right.
        apply list_elem_of_here.
      * split; intros [a' Hin]; exists a'.
        -- apply elem_of_app. by left.
        -- apply elem_of_app in Hin as [Hin|Hin]; [done|].
           apply list_elem_of_singleton in Hin. discriminate Hin.
    + rewrite Forall_app, Forall_singleton.
      destruct e as [g| |a [| |]]; simpl; rewrite ?Hdisplay;
        split; try done; try tauto; by intros [_ ?].
    + destruct e as [g| |a [| |]]; simpl.
      * intros Hs. destruct (Hdone Hs) as [a Hin]. exists a.
        apply elem_of_app. by left.
      * done.
      * intros _. exists a. apply elem_of_app. right. apply list_elem_of_here.
      * done.
      * intros Hs. destruct (Hdone Hs) as [a' Hin]. exists a'.
        apply elem_of_app. by left.
    + intros a. by rewrite !run_snoc.
Qed.

Lemma settings_status_and_error_witness :
  let events :=
    [GatewayAddressResolved "frankfurt.relaycorp.cloud";
     EditClicked;
     MigrationSettled "london.relaycorp.cloud" Migrated] in
  render (run events) = MigratedPage "london.relaycorp.cloud"
  ∧ ∃ newAddress, MigrationSettled newAddress Migrated ∈ events.
Proof.
  intros events. split; [reflexivity|].
  destruct (settings_status_and_error events) as (_ & _ & Hdone & _).
  apply Hdone. reflexivity.
Defined.

(** The state after events among which no address resolves: the gateway is
    the address of the last migration that succeeded, and the status is
    [DONE] only if there is one. *)
Lemma fold_left_step_unresolved (events : list Event) (state : State) :
  Forall (λ e, resolvesGatewayAddress e = false) events →
  let final := fold_left step events state in
  ((∀ newAddress, MigrationSettled newAddress Migrated ∉ events)
   ∧ gateway final = gateway state
   ∧ (status final = DONE → status state = DONE))
  ∨ ∃ earlier later,
      events = earlier ++ MigrationSettled (gateway final) Migrated :: later
      ∧ ∀ newAddress, MigrationSettled newAddress Migrated ∉ later.
Proof.
  cbv zeta. induction events as [|e events IH] using rev_ind; intros Hunresolved.
  - left. split; [|done]. intros a. apply not_elem_of_nil.
  - apply Forall_app in Hunresolved as [Hevents He].
    rewrite Forall_singleton in He. specialize (IH Hevents).
    rewrite fold_left_app. cbn [fold_left].
    destruct e as [g| |a [| |]]; [done| | | |].
    + destruct IH as [(Hnone & Hgateway & Hstatus)|(earlier & later & Heq & Hlater)].
      * left. split; [|done]. intros a Hin.
        apply elem_of_app in Hin as [Hin|Hin]; [by apply (Hnone a)|].
        apply list_elem_of_singleton in Hin. discriminate Hin.
      * right. exists earlier, (later ++ [EditClicked]). split.
        { simpl. rewrite Heq at 1. by rewrite <- app_assoc. }
        intros a Hin. apply elem_of_app in Hin as [Hin|Hin];
          [by apply (Hlater a)|].
        apply list_elem_of_singleton in Hin. discriminate Hin.
    + right. exists events, []. split; [done|]. intros a'. apply not_elem_of_nil.
    + destruct IH as [(Hnone & Hgateway & Hstatus)|(earlier & later & Heq & Hlater)].
      * left. split; [|done]. intros a' Hin.
        apply elem_of_app in Hin as [Hin|Hin]; [by apply (Hnone a')|].
        apply list_elem_of_singleton in Hin. discriminate Hin.
      * right. exists earlier, (later ++ [MigrationSettled a SettingError]). split.
        { simpl. rewrite Heq at 1. by rewrite <- app_assoc. }
        intros a' Hin. apply elem_of_app in Hin as [Hin|Hin];
          [by apply (Hlater a')|].
        apply list_elem_of_singleton in Hin. discriminate Hin.
    + destruct IH as [(Hnone & Hgateway & Hstatus)|(earlier & later & Heq & Hlater)].
      * left. split; [|done]. intros a' Hin.
        apply elem_of_app in Hin as [Hin|Hin]; [by apply (Hnone a')|].
        apply list_elem_of_singleton in Hin. discriminate Hin.
      * right. exists earlier, (later ++ [MigrationSettled a OtherError]). split.
        { simpl. rewrite Heq at 1. by rewrite <- app_assoc. }
        intros a' Hin. apply elem_of_app in Hin as [Hin|Hin];
          [by apply (Hlater a')|].
        apply list_elem_of_singleton in Hin. discriminate Hin.
Qed.

Lemma settings_resolved_display (events : list Event) :
  Forall (λ e, resolvesGatewayAddress e = true) events →
  status (run events) = DISPLAY.
Proof.
  induction events as [|e events IH] using rev_ind; [done|].
  intros Hall. apply Forall_app in Hall as [Hevents He].
  rewrite Forall_singleton in He. rewrite run_snoc.
  destruct e as [g| |a o]; try done. simpl. by apply IH.
Qed.

(** X23. Once the address of the gateway has been resolved, or when it
    never is, the page of a completed migration shows the address that the
    latest successful migration was made to: if, after the events [before]
    that only resolve the address, no further resolution arrives among the
    events [after], then the gateway that the migrated page shows is the
    address of a migration that succeeded in [after], and no migration
    succeeded after that one. *)
Theorem migrated_page_shows_the_latest_migration (before after : list Event)
    (shown : string) :
  Forall (λ e, resolvesGatewayAddress e = true) before →
  Forall (λ e, resolvesGatewayAddress e = false) after →
  render (run (before ++ after)) = MigratedPage shown →
  ∃ earlier later,
    after = earlier ++ MigrationSettled shown Migrated :: later
    ∧ ∀ newAddress, MigrationSettled newAddress Migrated ∉ later.
Proof.
  intros Hbefore Hafter Hrender.
  assert (status (run before) = DISPLAY) as Hdisplay.
  { apply (settings_resolved_display before Hbefore). }
  unfold run in Hrender. rewrite fold_left_app in Hrender. fold (run before) in Hrender.
  unfold render in Hrender.
  destruct (fold_left_step_unresolved after (run before) Hafter)
    as [(_ & _ & Hstatus)|(earlier & later & Heq & Hlater)].
  - destruct (status (fold_left step after (run before))) eqn:Hfinal;
      try discriminate Hrender.
    rewrite Hstatus in Hdisplay by done. discriminate Hdisplay.
  - destruct (status (fold_left step after (run before))) eqn:Hfinal;
      try discriminate Hrender.
    injection Hrender as <-. by exists earlier, later.
Qed.

Lemma migrated_page_shows_the_latest_migration_witness :
  ∃ earlier later,
    [EditClicked;
     MigrationSettled "paris.relaycorp.cloud" SettingError;
     MigrationSettled "london.relaycorp.cloud" Migrated]
    = earlier ++ MigrationSettled "london.relaycorp.cloud" Migrated :: later
    ∧ ∀ newAddress, MigrationSettled newAddress Migrated ∉ later.
Proof.
  apply (migrated_page_shows_the_latest_migration
           [GatewayAddressResolved "frankfurt.relaycorp.cloud"]
           [EditClicked;
            MigrationSettled "paris.relaycorp.cloud" SettingError;
            MigrationSettled "london.relaycorp.cloud" Migrated]
           "london.relaycorp.cloud").
  - repeat constructor.
  - repeat constructor.
  - reflexivity.
Defined.

End SettingsFacts.
